(** * Raspberry Pi audio looper: a model of the realtime engine

    The development embeds the looper's engine in Rocq and checks the
    properties its specification states about it:
    - [updateIndices] and [playRecord] (track_manager.c, the latest revision
      of the play/record file: frame delays in use, CALIBRATION state),
    - [overdub] and [doMixDown] (the mixdown file),
    - the control state machine, [processUART] and the command handling of
      [controlThread] (the control file).

    Conventions of the embedding.
    - [uint8_t] and [uint32_t] values are integers of [Z]; every C operation
      that can wrap is followed by [u8] or [u32].
    - A sample ([jack_default_audio_sample_t], a C [float]) is an IEEE-754
      binary32 number, represented with the standard library's [spec_float];
      [double] sub-expressions are computed in binary64.
    - A sample buffer is a function from indices to samples; a pointer into a
      buffer is the buffer together with an offset.  The allocated size of a
      buffer is not part of the model.
    - The arrays of [struct MasterLooper] are lists; an access outside an
      array, and an access through a NULL entry of [groupedTracks], has no
      defined behaviour in C: the model returns [None] there.
    - [groupedTracks[g][t]] only ever holds NULL or [&tracks[t]]; it is
      modelled by a boolean, and every write through such a pointer is a
      write to [tracks[t]].
    - A loop whose counter is a [uint8_t] is run with fuel; [None] is also
      what the model returns when such a loop does not terminate.
    - Diagnostic code (printf, the pulse-index recorder of the mixdown)
      does not influence the engine and is left out; the timers are modelled
      apart from the engine. *)

From Stdlib Require Import ZArith Bool Lia.
From Stdlib Require Import Floats.SpecFloat.
From stdpp Require Import base option list.

Local Open Scope Z_scope.

(** ** Machine integers *)

Definition u8 (x : Z) : Z := x mod 256.
Definition u32 (x : Z) : Z := x mod 4294967296.

Lemma u8_range x : 0 <= u8 x < 256.
Proof. unfold u8. apply Z.mod_pos_bound. lia. Qed.

Lemma u32_range x : 0 <= u32 x < 4294967296.
Proof. unfold u32. apply Z.mod_pos_bound. lia. Qed.

Lemma u8_small x : 0 <= x < 256 -> u8 x = x.
Proof. intros. unfold u8. apply Z.mod_small. lia. Qed.

Lemma u32_small x : 0 <= x < 4294967296 -> u32 x = x.
Proof. intros. unfold u32. apply Z.mod_small. lia. Qed.

(** ** Constants of local.h *)

Definition TRACK_MAX_LENGTH_S : Z := 60.
Definition NUM_GROUPS : Z := 4.
Definition NUM_TRACKS : Z := 16.
Definition SAMPLE_LIMIT : Z := 44100 * TRACK_MAX_LENGTH_S.
Definition MIN_SERIAL_DATA_LENGTH : Z := 6.
Definition SERIAL_CMD_OFFSET : nat := 0.
Definition SERIAL_SUB_CMD_OFFSET : nat := 3.
Definition SERIAL_TRACK_UPPER_DIGIT : nat := 1.
Definition SERIAL_TRACK_LOWER_DIGIT : nat := 2.
Definition SERIAL_TRACK_GROUP_LOWER_DIGIT : nat := 4.
Definition SERIAL_GROUP_SELECT_LOWER_DIGIT : nat := 1.
Definition SERIAL_LAST_CHAR : nat := 5.
Definition SERIAL_CMD_RECORD_LC : Z := 114.          (* 'r' *)
Definition SERIAL_CMD_RECORD_UC : Z := 82.           (* 'R' *)
Definition SERIAL_CMD_OPTION_REPEAT_ON : Z := 114.   (* 'r' *)
Definition SERIAL_CMD_OPTION_REPEAT_OFF : Z := 115.  (* 's' *)
Definition SERIAL_CMD_OVERDUB_LC : Z := 111.         (* 'o' *)
Definition SERIAL_CMD_OVERDUB_UC : Z := 79.          (* 'O' *)
Definition SERIAL_CMD_PLAY_LC : Z := 112.            (* 'p' *)
Definition SERIAL_CMD_PLAY_UC : Z := 80.             (* 'P' *)
Definition SERIAL_CMD_TRACK_MUTE_LC : Z := 109.      (* 'm' *)
Definition SERIAL_CMD_TRACK_MUTE_UC : Z := 77.       (* 'M' *)
Definition SERIAL_CMD_TRACK_UNMUTE_LC : Z := 117.    (* 'u' *)
Definition SERIAL_CMD_TRACK_UNMUTE_UC : Z := 85.     (* 'U' *)
Definition SERIAL_CMD_ADD_TRACK2GROUP_LC : Z := 116. (* 't' *)
Definition SERIAL_CMD_ADD_TRACK2GROUP_UC : Z := 84.  (* 'T' *)
Definition SERIAL_CMD_RMV_TRACK_GROUP_LC : Z := 100. (* 'd' *)
Definition SERIAL_CMD_RMV_TRACK_GROUP_UC : Z := 68.  (* 'D' *)
Definition SERIAL_CMD_GROUP_SELECT_LC : Z := 103.    (* 'g' *)
Definition SERIAL_CMD_GROUP_SELECT_UC : Z := 71.     (* 'G' *)
Definition SERIAL_CMD_SYSTEM_RESET_LC : Z := 115.    (* 's' *)
Definition SERIAL_CMD_SYSTEM_RESET_UC : Z := 83.     (* 'S' *)
Definition SERIAL_CMD_QUIT_LC : Z := 113.            (* 'q' *)
Definition SERIAL_CMD_QUIT_UC : Z := 81.             (* 'Q' *)
Definition SERIAL_CMD_ACCEPTED : Z := 112.           (* 'p' *)
Definition SERIAL_CMD_REJECTED : Z := 102.           (* 'f' *)

(** [sizeof (jack_default_audio_sample_t)] *)
Definition SIZEOF_SAMPLE : Z := 4.

(** ** Samples: binary32 arithmetic *)

Definition jack_default_audio_sample_t : Type := spec_float.

(** [float + float], computed in binary32. *)
Definition f32_add (x y : jack_default_audio_sample_t) : jack_default_audio_sample_t := SFadd 24 128 x y.

(** The float literal [0]. *)
Definition f32_zero : jack_default_audio_sample_t := S754_zero false.

Definition FLT_MAX : jack_default_audio_sample_t := SFmax_float 24 128.

(** Usual arithmetic conversions: a [float] operand of a [double] operation
    is converted to binary64 (exactly), the result of an assignment to a
    [float] is rounded to binary32. *)
Definition f64_of_f32 (x : jack_default_audio_sample_t) : spec_float :=
  match x with
  | S754_finite s m e => binary_round 53 1024 s m e
  | _ => x
  end.

Definition f32_of_f64 (x : spec_float) : jack_default_audio_sample_t :=
  match x with
  | S754_finite s m e => binary_round 24 128 s m e
  | _ => x
  end.

(** The [double] literal [0.9], i.e. 0x1.ccccccccccccdp-1. *)
Definition d_0_9 : spec_float := S754_finite false 8106479329266893 (-53).

(** [0.9 * FLT_MAX], a [double] product. *)
Definition limit_threshold : spec_float :=
  SFmul 53 1024 d_0_9 (f64_of_f32 FLT_MAX).

(** [sum > 0.9 * FLT_MAX] *)
Definition above_threshold (sum : jack_default_audio_sample_t) : bool :=
  SFltb limit_threshold (f64_of_f32 sum).

(** [sum *= 0.9] *)
Definition scale_0_9 (sum : jack_default_audio_sample_t) : jack_default_audio_sample_t :=
  f32_of_f64 (SFmul 53 1024 (f64_of_f32 sum) d_0_9).

(** The limiter used by [overdub] and [doMixDown]:
    [if (sum > 0.9 * FLT_MAX) sum *= 0.9;] *)
Definition limit (sum : jack_default_audio_sample_t) : jack_default_audio_sample_t :=
  if above_threshold sum then scale_0_9 sum else sum.

(** ** Buffers and [memcpy] *)

Definition buffer : Type := Z -> jack_default_audio_sample_t.

(** A pointer [&buf[off]] (or [buf + off]). *)
Definition ptr_read (b : buffer) (off : Z) : buffer := fun i => b (off + i).

(** [memcpy (&dst[doff], src, byteSize)] on sample buffers: the first
    [byteSize / sizeof (sample)] samples of [src] land at [doff]. *)
Definition memcpy (dst : buffer) (doff : Z) (src : buffer) (byteSize : Z) : buffer :=
  fun i =>
    if (doff <=? i) && (i <? doff + byteSize / SIZEOF_SAMPLE)
    then src (i - doff) else dst i.

(** ** Data types of local.h *)

Inductive TrackState :=
  | TRACK_STATE_OFF
  | TRACK_STATE_PLAYBACK
  | TRACK_STATE_RECORDING
  | TRACK_STATE_MUTE.

Inductive SystemEvents :=
  | SYSTEM_EVENT_PASSTHROUGH
  | SYSTEM_EVENT_RECORD_TRACK
  | SYSTEM_EVENT_OVERDUB_TRACK
  | SYSTEM_EVENT_PLAY_TRACK
  | SYSTEM_EVENT_MUTE_TRACK
  | SYSTEM_EVENT_UNMUTE_TRACK
  | SYSTEM_EVENT_ADD_TRACK_TO_GROUP
  | SYSTEM_EVENT_REMOVE_TRACK_FROM_GROUP
  | SYSTEM_EVENT_SET_ACTIVE_GROUP.

Inductive SystemStates :=
  | SYSTEM_STATE_PASSTHROUGH
  | SYSTEM_STATE_PLAYBACK
  | SYSTEM_STATE_RECORDING
  | SYSTEM_STATE_OVERDUBBING
  | SYSTEM_STATE_CALIBRATION.

Definition TrackState_eqb (a b : TrackState) : bool :=
  match a, b with
  | TRACK_STATE_OFF, TRACK_STATE_OFF
  | TRACK_STATE_PLAYBACK, TRACK_STATE_PLAYBACK
  | TRACK_STATE_RECORDING, TRACK_STATE_RECORDING
  | TRACK_STATE_MUTE, TRACK_STATE_MUTE => true
  | _, _ => false
  end.

Definition SystemStates_eqb (a b : SystemStates) : bool :=
  match a, b with
  | SYSTEM_STATE_PASSTHROUGH, SYSTEM_STATE_PASSTHROUGH
  | SYSTEM_STATE_PLAYBACK, SYSTEM_STATE_PLAYBACK
  | SYSTEM_STATE_RECORDING, SYSTEM_STATE_RECORDING
  | SYSTEM_STATE_OVERDUBBING, SYSTEM_STATE_OVERDUBBING
  | SYSTEM_STATE_CALIBRATION, SYSTEM_STATE_CALIBRATION => true
  | _, _ => false
  end.

(** [struct Track] *)
Record Track := mkTrack {
  channelLeft : buffer;
  channelRight : buffer;
  currIdx : Z;
  startIdx : Z;
  endIdx : Z;
  maxIdx : Z;
  trk_state : TrackState;
  repeat : bool
}.

(** [struct MasterLooper]; a port field records whether the port exists. *)
Record MasterLooper := mkLooper {
  tracks : list Track;
  groupedTracks : list (list bool);
  input_portR : bool;
  output_portR : bool;
  masterLength : list Z;
  masterCurrIdx : Z;
  callCounter : Z;
  rec_frame_delay : Z;
  play_frame_delay : Z;
  selectedTrack : Z;
  selectedGroup : Z;
  min_serial_data_length : Z;
  state : SystemStates;
  monitoringOff : bool;
  controlLocked : bool;
  exitNow : bool
}.

(** [struct ControlContext] of the control file *)
Record ControlContext := mkCC {
  cc_track : Z;
  cc_group : Z;
  cc_event : SystemEvents;
  cc_repeat : bool;
  cc_updated : bool
}.

(** *** Field updates *)

Definition set_channelLeft (v : buffer) (t : Track) : Track :=
  mkTrack v (channelRight t) (currIdx t) (startIdx t) (endIdx t) (maxIdx t)
          (trk_state t) (repeat t).
Definition set_channelRight (v : buffer) (t : Track) : Track :=
  mkTrack (channelLeft t) v (currIdx t) (startIdx t) (endIdx t) (maxIdx t)
          (trk_state t) (repeat t).
Definition set_currIdx (v : Z) (t : Track) : Track :=
  mkTrack (channelLeft t) (channelRight t) v (startIdx t) (endIdx t) (maxIdx t)
          (trk_state t) (repeat t).
Definition set_startIdx (v : Z) (t : Track) : Track :=
  mkTrack (channelLeft t) (channelRight t) (currIdx t) v (endIdx t) (maxIdx t)
          (trk_state t) (repeat t).
Definition set_endIdx (v : Z) (t : Track) : Track :=
  mkTrack (channelLeft t) (channelRight t) (currIdx t) (startIdx t) v (maxIdx t)
          (trk_state t) (repeat t).
Definition set_trk_state (v : TrackState) (t : Track) : Track :=
  mkTrack (channelLeft t) (channelRight t) (currIdx t) (startIdx t) (endIdx t)
          (maxIdx t) v (repeat t).
Definition set_repeat (v : bool) (t : Track) : Track :=
  mkTrack (channelLeft t) (channelRight t) (currIdx t) (startIdx t) (endIdx t)
          (maxIdx t) (trk_state t) v.

Definition set_tracks (v : list Track) (l : MasterLooper) : MasterLooper :=
  mkLooper v (groupedTracks l) (input_portR l) (output_portR l) (masterLength l)
    (masterCurrIdx l) (callCounter l) (rec_frame_delay l) (play_frame_delay l)
    (selectedTrack l) (selectedGroup l) (min_serial_data_length l) (state l)
    (monitoringOff l) (controlLocked l) (exitNow l).
Definition set_groupedTracks (v : list (list bool)) (l : MasterLooper) : MasterLooper :=
  mkLooper (tracks l) v (input_portR l) (output_portR l) (masterLength l)
    (masterCurrIdx l) (callCounter l) (rec_frame_delay l) (play_frame_delay l)
    (selectedTrack l) (selectedGroup l) (min_serial_data_length l) (state l)
    (monitoringOff l) (controlLocked l) (exitNow l).
Definition set_masterLength (v : list Z) (l : MasterLooper) : MasterLooper :=
  mkLooper (tracks l) (groupedTracks l) (input_portR l) (output_portR l) v
    (masterCurrIdx l) (callCounter l) (rec_frame_delay l) (play_frame_delay l)
    (selectedTrack l) (selectedGroup l) (min_serial_data_length l) (state l)
    (monitoringOff l) (controlLocked l) (exitNow l).
Definition set_masterCurrIdx (v : Z) (l : MasterLooper) : MasterLooper :=
  mkLooper (tracks l) (groupedTracks l) (input_portR l) (output_portR l)
    (masterLength l) v (callCounter l) (rec_frame_delay l) (play_frame_delay l)
    (selectedTrack l) (selectedGroup l) (min_serial_data_length l) (state l)
    (monitoringOff l) (controlLocked l) (exitNow l).
Definition set_callCounter (v : Z) (l : MasterLooper) : MasterLooper :=
  mkLooper (tracks l) (groupedTracks l) (input_portR l) (output_portR l)
    (masterLength l) (masterCurrIdx l) v (rec_frame_delay l) (play_frame_delay l)
    (selectedTrack l) (selectedGroup l) (min_serial_data_length l) (state l)
    (monitoringOff l) (controlLocked l) (exitNow l).
Definition set_rec_frame_delay (v : Z) (l : MasterLooper) : MasterLooper :=
  mkLooper (tracks l) (groupedTracks l) (input_portR l) (output_portR l)
    (masterLength l) (masterCurrIdx l) (callCounter l) v (play_frame_delay l)
    (selectedTrack l) (selectedGroup l) (min_serial_data_length l) (state l)
    (monitoringOff l) (controlLocked l) (exitNow l).
Definition set_play_frame_delay (v : Z) (l : MasterLooper) : MasterLooper :=
  mkLooper (tracks l) (groupedTracks l) (input_portR l) (output_portR l)
    (masterLength l) (masterCurrIdx l) (callCounter l) (rec_frame_delay l) v
    (selectedTrack l) (selectedGroup l) (min_serial_data_length l) (state l)
    (monitoringOff l) (controlLocked l) (exitNow l).
Definition set_selectedTrack (v : Z) (l : MasterLooper) : MasterLooper :=
  mkLooper (tracks l) (groupedTracks l) (input_portR l) (output_portR l)
    (masterLength l) (masterCurrIdx l) (callCounter l) (rec_frame_delay l)
    (play_frame_delay l) v (selectedGroup l) (min_serial_data_length l) (state l)
    (monitoringOff l) (controlLocked l) (exitNow l).
Definition set_selectedGroup (v : Z) (l : MasterLooper) : MasterLooper :=
  mkLooper (tracks l) (groupedTracks l) (input_portR l) (output_portR l)
    (masterLength l) (masterCurrIdx l) (callCounter l) (rec_frame_delay l)
    (play_frame_delay l) (selectedTrack l) v (min_serial_data_length l) (state l)
    (monitoringOff l) (controlLocked l) (exitNow l).
Definition set_state (v : SystemStates) (l : MasterLooper) : MasterLooper :=
  mkLooper (tracks l) (groupedTracks l) (input_portR l) (output_portR l)
    (masterLength l) (masterCurrIdx l) (callCounter l) (rec_frame_delay l)
    (play_frame_delay l) (selectedTrack l) (selectedGroup l)
    (min_serial_data_length l) v (monitoringOff l) (controlLocked l) (exitNow l).
Definition set_monitoringOff (v : bool) (l : MasterLooper) : MasterLooper :=
  mkLooper (tracks l) (groupedTracks l) (input_portR l) (output_portR l)
    (masterLength l) (masterCurrIdx l) (callCounter l) (rec_frame_delay l)
    (play_frame_delay l) (selectedTrack l) (selectedGroup l)
    (min_serial_data_length l) (state l) v (controlLocked l) (exitNow l).
Definition set_controlLocked (v : bool) (l : MasterLooper) : MasterLooper :=
  mkLooper (tracks l) (groupedTracks l) (input_portR l) (output_portR l)
    (masterLength l) (masterCurrIdx l) (callCounter l) (rec_frame_delay l)
    (play_frame_delay l) (selectedTrack l) (selectedGroup l)
    (min_serial_data_length l) (state l) (monitoringOff l) v (exitNow l).
Definition set_exitNow (v : bool) (l : MasterLooper) : MasterLooper :=
  mkLooper (tracks l) (groupedTracks l) (input_portR l) (output_portR l)
    (masterLength l) (masterCurrIdx l) (callCounter l) (rec_frame_delay l)
    (play_frame_delay l) (selectedTrack l) (selectedGroup l)
    (min_serial_data_length l) (state l) (monitoringOff l) (controlLocked l) v.

(** *** Array accesses *)

(** [looper->groupedTracks[g][t]]: [Some true] for [&tracks[t]],
    [Some false] for NULL, [None] outside the array. *)
Definition grouped (l : MasterLooper) (g t : Z) : option bool :=
  if (g <? 0) || (t <? 0) then None
  else row ← groupedTracks l !! Z.to_nat g; row !! Z.to_nat t.

(** [looper->tracks[t]] *)
Definition track_at (l : MasterLooper) (t : Z) : option Track :=
  if t <? 0 then None else tracks l !! Z.to_nat t.

(** [looper->masterLength[g]] *)
Definition masterLength_at (l : MasterLooper) (g : Z) : option Z :=
  if g <? 0 then None else masterLength l !! Z.to_nat g.

(** [looper->tracks[t] = v] *)
Definition store_track (t : Z) (v : Track) (l : MasterLooper) : MasterLooper :=
  set_tracks (<[Z.to_nat t := v]> (tracks l)) l.

(** [looper->masterLength[g] = v] *)
Definition store_masterLength (g : Z) (v : Z) (l : MasterLooper) : MasterLooper :=
  set_masterLength (<[Z.to_nat g := v]> (masterLength l)) l.

(** [looper->groupedTracks[g][t] = v] *)
Definition store_grouped (g t : Z) (v : bool) (l : MasterLooper) : MasterLooper :=
  set_groupedTracks
    (alter (fun row => <[Z.to_nat t := v]> row) (Z.to_nat g) (groupedTracks l)) l.

(** The looper's arrays have their declared sizes. *)
Definition wf_looper (l : MasterLooper) : Prop :=
  length (tracks l) = Z.to_nat NUM_TRACKS /\
  length (masterLength l) = Z.to_nat NUM_GROUPS /\
  length (groupedTracks l) = Z.to_nat NUM_GROUPS /\
  Forall (fun row => length row = Z.to_nat NUM_TRACKS) (groupedTracks l).

(** ** The position engine: [updateIndices] (track_manager.c) *)

(** A [while (idx < NUM_TRACKS) { ...; idx++; }] loop whose body may be
    undefined: the body is run for idx = 0 .. NUM_TRACKS - 1 in order. *)
Fixpoint for_each_track {S : Type} (body : Z -> S -> option S)
    (idxs : list Z) (s : S) : option S :=
  match idxs with
  | [] => Some s
  | idx :: rest => s' ← body idx s; for_each_track body rest s'
  end.

Definition track_indices : list Z := Z.of_nat <$> seq 0 (Z.to_nat NUM_TRACKS).

(** The recording branch of the loop body, for the selected track. *)
Definition updateIndices_record (sg idx : Z) (track : Track) (l : MasterLooper)
    : option MasterLooper :=
  (* if (track->currIdx > SAMPLE_LIMIT) *)
  let full := SAMPLE_LIMIT <? currIdx track in
  let track := if full then set_currIdx SAMPLE_LIMIT track else track in
  let l := if full then set_state SYSTEM_STATE_PLAYBACK l else l in
  (* if (track->currIdx > track->endIdx) *)
  let track :=
    if endIdx track <? currIdx track then set_endIdx (currIdx track) track
    else track in
  (* if (track->endIdx > looper->masterLength[sg]) *)
  ml ← masterLength_at l sg;
  let l := if ml <? endIdx track then store_masterLength sg (endIdx track) l else l in
  Some (store_track idx track l).

(** The playback branch of the loop body. *)
Definition updateIndices_play (sg idx : Z) (track : Track) (l : MasterLooper)
    : option MasterLooper :=
  (* if (track->repeat && (track->currIdx > track->endIdx)) *)
  let track :=
    if repeat track && (endIdx track <? currIdx track)
    then set_currIdx (startIdx track) track else track in
  (* if (looper->masterCurrIdx > looper->masterLength[sg]) *)
  ml ← masterLength_at l sg;
  let track :=
    if ml <? masterCurrIdx l
    then set_currIdx (if repeat track then startIdx track else 0) track
    else track in
  Some (store_track idx track l).

Definition updateIndices_body (sg st nframes : Z) (idx : Z) (l : MasterLooper)
    : option MasterLooper :=
  match grouped l sg idx with
  | None => None
  | Some false => Some l                       (* track == NULL *)
  | Some true =>
    track ← track_at l idx;
    if TrackState_eqb (trk_state track) TRACK_STATE_OFF then Some l
    else
      (* track->currIdx += nframes; *)
      let track := set_currIdx (u32 (currIdx track + nframes)) track in
      if (st =? idx) &&
         (SystemStates_eqb (state l) SYSTEM_STATE_CALIBRATION (* OVERDUBBING *) ||
          SystemStates_eqb (state l) SYSTEM_STATE_RECORDING)
      then updateIndices_record sg idx track l
      else updateIndices_play sg idx track l
  end.

(** [looper->masterCurrIdx += nframes;] and the clamp to [SAMPLE_LIMIT]. *)
Definition updateIndices_master (looper : MasterLooper) (nframes : Z) : MasterLooper :=
  let looper := set_masterCurrIdx (u32 (masterCurrIdx looper + nframes)) looper in
  if SAMPLE_LIMIT <? masterCurrIdx looper
  then set_masterCurrIdx SAMPLE_LIMIT looper else looper.

Definition updateIndices (looper : MasterLooper) (nframes : Z) : option MasterLooper :=
  let sg := selectedGroup looper in
  let st := selectedTrack looper in
  let looper := updateIndices_master looper nframes in
  looper ← for_each_track (updateIndices_body sg st nframes) track_indices looper;
  (* reset the master index once every track has seen it *)
  ml ← masterLength_at looper sg;
  Some (if SystemStates_eqb (state looper) SYSTEM_STATE_PLAYBACK && (ml <? masterCurrIdx looper)
        then set_masterCurrIdx 0 looper else looper).

(** ** Overdub and mixdown (the mixdown file) *)

(** A [for (sample = 0; sample < nframes; sample++)] loop whose counter is a
    [uint8_t]: the increment wraps at 256.  [fuel] bounds the number of
    iterations; [None] is returned when the fuel runs out or when the body
    is undefined. *)
Fixpoint for_u8 {S : Type} (fuel : nat) (sample nframes : Z)
    (body : Z -> S -> option S) (s : S) : option S :=
  if sample <? nframes then
    match fuel with
    | O => None
    | Datatypes.S fuel' =>
        s' ← body sample s;
        for_u8 fuel' (u8 (sample + 1)) nframes body s'
    end
  else Some s.

(** 256 iterations are enough for every loop of this shape that terminates:
    a counter that has taken all 256 values without leaving the loop never
    leaves it (see [for_u8_diverges]). *)
Definition U8_LOOP_FUEL : nat := 256.

(** [track[i] = v] *)
Definition buf_store (b : buffer) (i : Z) (v : jack_default_audio_sample_t) : buffer :=
  fun j => if j =? i then v else b j.

(** One iteration of [overdub]; the state is the offset of [p] in the input
    buffer and the track buffer.  [toff] is the offset of the pointer
    [track] inside the channel buffer. *)
Definition overdub_body (in_ : buffer) (toff : Z) (sample : Z) (st : Z * buffer)
    : option (Z * buffer) :=
  let '(p, track) := st in
  (* sum = *p + track[sample]; *)
  let sum := f32_add (in_ p) (track (toff + sample)) in
  (* if (sum > 0.9 * FLT_MAX) sum *= 0.9; *)
  let sum := if above_threshold sum then scale_0_9 sum else sum in
  (* track[sample] = sum; p++; *)
  Some (p + 1, buf_store track (toff + sample) sum).

Definition overdub_fuel (fuel : nat) (in_ : buffer) (track : buffer) (toff : Z)
    (nframes : Z) : option buffer :=
  snd <$> for_u8 fuel 0 nframes (overdub_body in_ toff) (0, track).

(** [overdub (in, &channel[toff], nframes)]; the result is the channel. *)
Definition overdub (in_ : buffer) (track : buffer) (toff : Z) (nframes : Z)
    : option buffer :=
  overdub_fuel U8_LOOP_FUEL in_ track toff nframes.

(** The body of the inner [while (idx < NUM_TRACKS)] loop of [doMixDown]. *)
Definition doMixDown_track (looper : MasterLooper) (sg sample : Z) (idx : Z)
    (sums : jack_default_audio_sample_t * jack_default_audio_sample_t)
    : option (jack_default_audio_sample_t * jack_default_audio_sample_t) :=
  let '(sumLeft, sumRight) := sums in
  match grouped looper sg idx with
  | None => None
  | Some false => Some sums
  | Some true =>
    track ← track_at looper idx;
    if (startIdx track <=? currIdx track) &&
       (currIdx track <? endIdx track) &&
       negb (TrackState_eqb (trk_state track) TRACK_STATE_OFF) &&
       negb (TrackState_eqb (trk_state track) TRACK_STATE_MUTE)
    then
      let trackIdx := u32 (currIdx track + sample) in
      if trackIdx <=? endIdx track then
        let sumLeft := limit (f32_add sumLeft (channelLeft track trackIdx)) in
        let sumRight := limit (f32_add sumRight (channelRight track trackIdx)) in
        Some (sumLeft, sumRight)
      else Some sums
    else Some sums
  end.

(** [if (inBuffer) { sum += inBuffer[sample]; limit }] *)
Definition add_input (inBuffer : option buffer) (sample : Z)
    (sum : jack_default_audio_sample_t) : jack_default_audio_sample_t :=
  match inBuffer with
  | Some b => limit (f32_add sum (b sample))
  | None => sum
  end.

(** The body of the outer loop; the state is the pair of mixdown buffers. *)
Definition doMixDown_sample (looper : MasterLooper)
    (inBufferLeft inBufferRight : option buffer) (sample : Z)
    (mix : buffer * buffer) : option (buffer * buffer) :=
  let sg := selectedGroup looper in
  sums ← for_each_track (doMixDown_track looper sg sample) track_indices
                        (f32_zero, f32_zero);
  let sumLeft := add_input inBufferLeft sample (fst sums) in
  let sumRight := add_input inBufferRight sample (snd sums) in
  Some (buf_store (fst mix) sample sumLeft, buf_store (snd mix) sample sumRight).

Definition doMixDown_fuel (fuel : nat) (looper : MasterLooper)
    (inBufferLeft inBufferRight : option buffer)
    (mixdownBufferLeft mixdownBufferRight : buffer) (nframes : Z)
    : option (buffer * buffer) :=
  for_u8 fuel 0 nframes (doMixDown_sample looper inBufferLeft inBufferRight)
         (mixdownBufferLeft, mixdownBufferRight).

Definition doMixDown (looper : MasterLooper)
    (inBufferLeft inBufferRight : option buffer)
    (mixdownBufferLeft mixdownBufferRight : buffer) (nframes : Z)
    : option (buffer * buffer) :=
  doMixDown_fuel U8_LOOP_FUEL looper inBufferLeft inBufferRight
                 mixdownBufferLeft mixdownBufferRight nframes.

(** ** The control file: state transitions *)

(** The two globals of the control file: [looper] and [cc]. *)
Record System := mkSystem {
  looper : MasterLooper;
  cc : ControlContext
}.

Definition set_looper (v : MasterLooper) (s : System) : System := mkSystem v (cc s).
Definition set_cc (v : ControlContext) (s : System) : System := mkSystem (looper s) v.

Definition set_cc_track (v : Z) (c : ControlContext) : ControlContext :=
  mkCC v (cc_group c) (cc_event c) (cc_repeat c) (cc_updated c).
Definition set_cc_group (v : Z) (c : ControlContext) : ControlContext :=
  mkCC (cc_track c) v (cc_event c) (cc_repeat c) (cc_updated c).
Definition set_cc_event (v : SystemEvents) (c : ControlContext) : ControlContext :=
  mkCC (cc_track c) (cc_group c) v (cc_repeat c) (cc_updated c).
Definition set_cc_repeat (v : bool) (c : ControlContext) : ControlContext :=
  mkCC (cc_track c) (cc_group c) (cc_event c) v (cc_updated c).
Definition set_cc_updated (v : bool) (c : ControlContext) : ControlContext :=
  mkCC (cc_track c) (cc_group c) (cc_event c) (cc_repeat c) v.

(** [looper->tracks[t].field = ...]: undefined outside the array. *)
Definition modify_track (t : Z) (f : Track -> Track) (l : MasterLooper)
    : option MasterLooper :=
  track ← track_at l t; Some (store_track t (f track) l).

(** [getNumActiveTracks]: every entry of the selected group's row is
    dereferenced, so a NULL entry makes the call undefined. *)
Definition getNumActiveTracks_body (l : MasterLooper) (track : Z) (activeTracks : Z)
    : option Z :=
  match grouped l (selectedGroup l) track with
  | Some true =>
      t ← track_at l track;
      Some (if 0 <? endIdx t then activeTracks + 1 else activeTracks)
  | _ => None
  end.

Definition getNumActiveTracks (l : MasterLooper) : option Z :=
  for_each_track (getNumActiveTracks_body l) track_indices 0.

Definition startRecording (s : System) : option System :=
  let l := looper s in
  let c := cc s in
  (* if (looper->groupedTracks[cc.group][cc.track] == NULL) bind it *)
  present ← grouped l (cc_group c) (cc_track c);
  let l := if negb present then store_grouped (cc_group c) (cc_track c) true l else l in
  n ← getNumActiveTracks l;
  let l :=
    if (n =? 0) || negb (cc_group c =? selectedGroup l) ||
       ((n =? 1) && (selectedTrack l =? cc_track c))
    then store_masterLength (cc_group c) 0 (set_masterCurrIdx 0 l)
    else l in
  l ← modify_track (cc_track c) (set_repeat false) l;
  l ← modify_track (cc_track c) (set_endIdx 0) l;
  l ← modify_track (cc_track c) (set_currIdx (masterCurrIdx l)) l;
  l ← modify_track (cc_track c) (set_startIdx (masterCurrIdx l)) l;
  let l := set_selectedGroup (cc_group c) l in
  let l := set_selectedTrack (cc_track c) l in
  l ← modify_track (cc_track c) (set_trk_state TRACK_STATE_RECORDING) l;
  Some (set_looper (set_state SYSTEM_STATE_RECORDING l) s).

Definition startOverdubbing (s : System) : option System :=
  let l := looper s in
  let c := cc s in
  track ← track_at l (cc_track c);
  if negb (TrackState_eqb (trk_state track) TRACK_STATE_PLAYBACK) then Some s
  else
    let l := set_selectedTrack (cc_track c) l in
    l ← modify_track (cc_track c) (set_trk_state TRACK_STATE_RECORDING) l;
    Some (set_looper (set_state SYSTEM_STATE_OVERDUBBING l) s).

Definition stopRecording (s : System) : option System :=
  let l := looper s in
  (* cc.track = looper->selectedTrack; cc.group = looper->selectedGroup; *)
  let c := set_cc_group (selectedGroup l) (set_cc_track (selectedTrack l) (cc s)) in
  l ← (if cc_repeat c then modify_track (cc_track c) (set_repeat (cc_repeat c)) l
       else Some l);
  l ← modify_track (cc_track c)
        (fun t => set_endIdx (u32 (currIdx t + play_frame_delay l)) t) l;
  ml ← masterLength_at l (cc_group c);
  let l :=
    if ml <? masterCurrIdx l
    then set_masterCurrIdx 0
           (store_masterLength (cc_group c)
              (u32 (masterCurrIdx l + play_frame_delay l)) l)
    else l in
  let l := set_state SYSTEM_STATE_PLAYBACK l in
  l ← modify_track (cc_track c) (set_trk_state TRACK_STATE_PLAYBACK) l;
  Some (mkSystem l c).

Definition stopOverdubbing (s : System) : option System :=
  let l := looper s in
  let c := set_cc_group (selectedGroup l) (set_cc_track (selectedTrack l) (cc s)) in
  l ← (if cc_repeat c then modify_track (cc_track c) (set_repeat (cc_repeat c)) l
       else Some l);
  l ← modify_track (cc_track c)
        (fun t => if endIdx t <? currIdx t
                  then set_endIdx (u32 (currIdx t + play_frame_delay l)) t
                  else t) l;
  ml ← masterLength_at l (cc_group c);
  let l :=
    if ml <? masterCurrIdx l
    then set_masterCurrIdx 0
           (store_masterLength (cc_group c)
              (u32 (masterCurrIdx l + play_frame_delay l)) l)
    else l in
  let l := set_state SYSTEM_STATE_PLAYBACK l in
  l ← modify_track (cc_track c) (set_trk_state TRACK_STATE_PLAYBACK) l;
  Some (mkSystem l c).

Definition group_indices : list Z := Z.of_nat <$> seq 0 (Z.to_nat NUM_GROUPS).

(** The per-track part of [resetSystem]. *)
Definition resetSystem_track (l : MasterLooper) (track : Z) : MasterLooper :=
  let l :=
    match track_at l track with
    | Some t =>
        store_track track
          (set_repeat false
             (set_startIdx 0 (set_currIdx 0 (set_endIdx 0
                (set_trk_state TRACK_STATE_OFF t))))) l
    | None => l
    end in
  foldl (fun l group => store_grouped group track false l) l group_indices.

Definition resetSystem (s : System) : option System :=
  let l := looper s in
  let l := foldl (fun l group => store_masterLength group 0 l) l group_indices in
  let l := set_masterCurrIdx 0 l in
  let l := set_selectedTrack 0 l in
  let l := set_selectedGroup 0 l in
  let l := set_monitoringOff false l in
  let l := set_controlLocked false l in
  let l := foldl resetSystem_track l track_indices in
  Some (set_looper (set_state SYSTEM_STATE_PASSTHROUGH l) s).

Definition muteTrack (s : System) : option System :=
  let l := looper s in
  let c := cc s in
  track ← track_at l (cc_track c);
  if TrackState_eqb (trk_state track) TRACK_STATE_OFF then Some s
  else
    let l := set_selectedTrack (cc_track c) l in
    l ← modify_track (cc_track c) (set_trk_state TRACK_STATE_MUTE) l;
    Some (set_looper l s).

Definition unmuteTrack (s : System) : option System :=
  let l := looper s in
  let c := cc s in
  track ← track_at l (cc_track c);
  if TrackState_eqb (trk_state track) TRACK_STATE_OFF then Some s
  else
    let l := set_selectedTrack (cc_track c) l in
    l ← modify_track (cc_track c) (set_trk_state TRACK_STATE_PLAYBACK) l;
    Some (set_looper l s).

Definition assignTrackToGroup (s : System) : option System :=
  let l := looper s in
  let c := cc s in
  _ ← grouped l (cc_group c) (cc_track c);
  Some (set_looper (store_grouped (cc_group c) (cc_track c) true l) s).

Definition removeTrackFromGroup (s : System) : option System :=
  let l := looper s in
  let c := cc s in
  _ ← grouped l (cc_group c) (cc_track c);
  Some (set_looper (store_grouped (cc_group c) (cc_track c) false l) s).

(** First loop of [setActiveGroup]: the group entry is dereferenced without a
    NULL check. *)
Definition setActiveGroup_mute (track : Z) (l : MasterLooper) : option MasterLooper :=
  match grouped l (selectedGroup l) track with
  | Some true =>
      t ← track_at l track;
      if negb (TrackState_eqb (trk_state t) TRACK_STATE_OFF)
      then modify_track track (set_trk_state TRACK_STATE_MUTE) l
      else Some l
  | _ => None
  end.

(** Second loop of [setActiveGroup]. *)
Definition setActiveGroup_play (track : Z) (l : MasterLooper) : option MasterLooper :=
  match grouped l (selectedGroup l) track with
  | None => None
  | Some false => Some l
  | Some true =>
      t ← track_at l track;
      if negb (TrackState_eqb (trk_state t) TRACK_STATE_OFF)
      then
        modify_track track
          (fun t => set_currIdx (if repeat t then startIdx t else 0)
                      (set_trk_state TRACK_STATE_PLAYBACK t)) l
      else Some l
  end.

Definition setActiveGroup (s : System) : option System :=
  let l := set_selectedGroup (cc_group (cc s)) (looper s) in
  l ← for_each_track setActiveGroup_mute track_indices l;
  l ← for_each_track setActiveGroup_play track_indices l;
  Some (set_looper (set_masterCurrIdx 0 l) s).

Definition updateRepeatStatus (s : System) : option System :=
  let l := set_selectedTrack (cc_track (cc s)) (looper s) in
  let c := cc s in
  track ← track_at l (cc_track c);
  l ← (if xorb (repeat track) (cc_repeat c)
       then modify_track (cc_track c) (set_repeat (cc_repeat c)) l
       else Some l);
  Some (set_looper l s).

(** *** Event handlers *)

Definition eventHandlerPassthrough (event : SystemEvents) (s : System) : option System :=
  match event with
  | SYSTEM_EVENT_RECORD_TRACK => startRecording s
  | _ => Some s
  end.

Definition eventHandlerPlayback (event : SystemEvents) (s : System) : option System :=
  match event with
  | SYSTEM_EVENT_PASSTHROUGH => resetSystem s
  | SYSTEM_EVENT_RECORD_TRACK => startRecording s
  | SYSTEM_EVENT_OVERDUB_TRACK => startOverdubbing s
  | SYSTEM_EVENT_PLAY_TRACK => updateRepeatStatus s
  | SYSTEM_EVENT_MUTE_TRACK => muteTrack s
  | SYSTEM_EVENT_UNMUTE_TRACK => unmuteTrack s
  | SYSTEM_EVENT_ADD_TRACK_TO_GROUP => assignTrackToGroup s
  | SYSTEM_EVENT_REMOVE_TRACK_FROM_GROUP => removeTrackFromGroup s
  | SYSTEM_EVENT_SET_ACTIVE_GROUP => setActiveGroup s
  end.

Definition eventHandlerRecording (event : SystemEvents) (s : System) : option System :=
  match event with
  | SYSTEM_EVENT_PASSTHROUGH => resetSystem s
  | SYSTEM_EVENT_PLAY_TRACK => stopRecording s
  | _ => Some s
  end.

Definition eventHandlerOverdubbing (event : SystemEvents) (s : System) : option System :=
  match event with
  | SYSTEM_EVENT_PASSTHROUGH => resetSystem s
  | SYSTEM_EVENT_PLAY_TRACK => stopOverdubbing s
  | _ => Some s
  end.

Definition controlStateMachine (event : SystemEvents) (s : System) : option System :=
  match state (looper s) with
  | SYSTEM_STATE_PASSTHROUGH => eventHandlerPassthrough event s
  | SYSTEM_STATE_PLAYBACK => eventHandlerPlayback event s
  | SYSTEM_STATE_RECORDING => eventHandlerRecording event s
  | SYSTEM_STATE_OVERDUBBING => eventHandlerOverdubbing event s
  | SYSTEM_STATE_CALIBRATION => Some s
  end.

Definition controlStateCheck (s : System) : option System :=
  if cc_updated (cc s) then
    s ← controlStateMachine (cc_event (cc s)) s;
    Some (set_cc (set_cc_updated false (cc s)) s)
  else Some s.

(** ** The control file: [processUART] *)

(** [cc.track = (buf[1] - 48) * 10; cc.track += (buf[2] - 48);] on a
    [uint8_t] field. *)
Definition decode_track (upper lower : Z) : Z :=
  u8 (u8 ((upper - 48) * 10) + (lower - 48)).

(** [cc.group = (buf[i] - 48);] *)
Definition decode_group (digit : Z) : Z := u8 (digit - 48).

Definition is_group_subcmd (b : Z) : bool :=
  (b =? SERIAL_CMD_GROUP_SELECT_LC) || (b =? SERIAL_CMD_GROUP_SELECT_UC).

(** The [switch (buf[SERIAL_CMD_OFFSET])] of [processUART]: the new control
    context, the new [exitNow] flag and [invalidData]. *)
Definition processUART_switch (b0 b1 b2 b3 b4 b5 : Z) (c : ControlContext)
    (exit_now : bool) : ControlContext * bool * bool :=
  if (b0 =? SERIAL_CMD_OVERDUB_LC) || (b0 =? SERIAL_CMD_OVERDUB_UC) then
    (set_cc_track (decode_track b1 b2) (set_cc_event SYSTEM_EVENT_OVERDUB_TRACK c),
     exit_now, false)
  else if (b0 =? SERIAL_CMD_RECORD_LC) || (b0 =? SERIAL_CMD_RECORD_UC) then
    if is_group_subcmd b3 then
      (set_cc_group (decode_group b4)
         (set_cc_track (decode_track b1 b2)
            (set_cc_event SYSTEM_EVENT_RECORD_TRACK c)), exit_now, false)
    else (c, exit_now, false)
  else if (b0 =? SERIAL_CMD_TRACK_MUTE_LC) || (b0 =? SERIAL_CMD_TRACK_MUTE_UC) then
    (set_cc_track (decode_track b1 b2) (set_cc_event SYSTEM_EVENT_MUTE_TRACK c),
     exit_now, false)
  else if (b0 =? SERIAL_CMD_TRACK_UNMUTE_LC) || (b0 =? SERIAL_CMD_TRACK_UNMUTE_UC) then
    (set_cc_track (decode_track b1 b2) (set_cc_event SYSTEM_EVENT_UNMUTE_TRACK c),
     exit_now, false)
  else if (b0 =? SERIAL_CMD_ADD_TRACK2GROUP_LC) || (b0 =? SERIAL_CMD_ADD_TRACK2GROUP_UC) then
    if is_group_subcmd b3 then
      (set_cc_group (decode_group b4)
         (set_cc_track (decode_track b1 b2)
            (set_cc_event SYSTEM_EVENT_ADD_TRACK_TO_GROUP c)), exit_now, false)
    else (c, exit_now, false)
  else if (b0 =? SERIAL_CMD_RMV_TRACK_GROUP_LC) || (b0 =? SERIAL_CMD_RMV_TRACK_GROUP_UC) then
    if is_group_subcmd b3 then
      (set_cc_group (decode_group b4)
         (set_cc_track (decode_track b1 b2)
            (set_cc_event SYSTEM_EVENT_REMOVE_TRACK_FROM_GROUP c)), exit_now, false)
    else (c, exit_now, false)
  else if (b0 =? SERIAL_CMD_GROUP_SELECT_LC) || (b0 =? SERIAL_CMD_GROUP_SELECT_UC) then
    (set_cc_group (decode_group b1) (set_cc_event SYSTEM_EVENT_SET_ACTIVE_GROUP c),
     exit_now, false)
  else if (b0 =? SERIAL_CMD_PLAY_LC) || (b0 =? SERIAL_CMD_PLAY_UC) then
    let c := set_cc_event SYSTEM_EVENT_PLAY_TRACK c in
    let c :=
      if b5 =? SERIAL_CMD_OPTION_REPEAT_ON
      then set_cc_repeat true (set_cc_track (decode_track b1 b2) c) else c in
    let c :=
      if b5 =? SERIAL_CMD_OPTION_REPEAT_OFF
      then set_cc_repeat false (set_cc_track (decode_track b1 b2) c) else c in
    (c, exit_now, false)
  else if (b0 =? SERIAL_CMD_SYSTEM_RESET_LC) || (b0 =? SERIAL_CMD_SYSTEM_RESET_UC) then
    (set_cc_event SYSTEM_EVENT_PASSTHROUGH (set_cc_group 0 (set_cc_track 0 c)),
     exit_now, false)
  else if (b0 =? SERIAL_CMD_QUIT_LC) || (b0 =? SERIAL_CMD_QUIT_UC) then
    (c, true, false)
  else (c, exit_now, true).

(** [processUART (buf)]: the new system and the bytes written to the serial
    port with [serialPutchar]. *)
Definition processUART (buf : list Z) (s : System) : option (System * list Z) :=
  b0 ← buf !! SERIAL_CMD_OFFSET;
  b1 ← buf !! SERIAL_TRACK_UPPER_DIGIT;
  b2 ← buf !! SERIAL_TRACK_LOWER_DIGIT;
  b3 ← buf !! SERIAL_SUB_CMD_OFFSET;
  b4 ← buf !! SERIAL_TRACK_GROUP_LOWER_DIGIT;
  b5 ← buf !! SERIAL_LAST_CHAR;
  if (MIN_SERIAL_DATA_LENGTH <=? min_serial_data_length (looper s)) &&
     negb (b5 =? 13) &&
     negb (b5 =? SERIAL_CMD_OPTION_REPEAT_ON) &&
     negb (b5 =? SERIAL_CMD_OPTION_REPEAT_OFF)
  then Some (s, [])                        (* "Invalid last char": return *)
  else
    let '(c, exit_now, invalidData) :=
      processUART_switch b0 b1 b2 b3 b4 b5 (cc s) (exitNow (looper s)) in
    let l := set_exitNow exit_now (looper s) in
    if (0 <=? cc_track c) && (cc_track c <? NUM_TRACKS) &&
       (0 <=? cc_group c) && (cc_group c <? NUM_GROUPS) &&
       negb invalidData
    then Some (mkSystem l (set_cc_updated true c), [SERIAL_CMD_ACCEPTED])
    else Some (mkSystem l c, [SERIAL_CMD_REJECTED]).

(** What [controlThread] does once a whole command is in [buf]; [frames] is
    the value of [jack_frames_since_cycle_start]. *)
Definition controlThread_command (frames : Z) (buf : list Z) (s : System)
    : option (System * list Z) :=
  b0 ← buf !! 0%nat;
  let l := looper s in
  let l :=
    if (b0 =? 114) || (b0 =? 82) || (b0 =? 111) || (b0 =? 79)
    then set_rec_frame_delay frames l else l in
  let l :=
    if ((b0 =? 112) || (b0 =? 80)) &&
       SystemStates_eqb (state l) SYSTEM_STATE_RECORDING
    then set_play_frame_delay frames l else l in
  processUART buf (set_looper l s).

(** ** The process cycle: [playRecord] (track_manager.c) *)

(** The port buffers handed out by [jack_port_get_buffer] and the two static
    mixdown buffers. *)
Record AudioBuffers := mkAudio {
  inL : buffer;
  outL : buffer;
  inR : buffer;
  outR : buffer;
  mixdownLeft : buffer;
  mixdownRight : buffer
}.

Definition set_outL (v : buffer) (a : AudioBuffers) : AudioBuffers :=
  mkAudio (inL a) v (inR a) (outR a) (mixdownLeft a) (mixdownRight a).
Definition set_outR (v : buffer) (a : AudioBuffers) : AudioBuffers :=
  mkAudio (inL a) (outL a) (inR a) v (mixdownLeft a) (mixdownRight a).
Definition set_mixdown (v : buffer * buffer) (a : AudioBuffers) : AudioBuffers :=
  mkAudio (inL a) (outL a) (inR a) (outR a) (fst v) (snd v).

(** [looper->groupedTracks[sg][st]->...]: undefined through NULL. *)
Definition selected_track (l : MasterLooper) : option Track :=
  match grouped l (selectedGroup l) (selectedTrack l) with
  | Some true => track_at l (selectedTrack l)
  | _ => None
  end.

(** [(int) x] for a [uint32_t] x. *)
Definition int_of_u32 (x : Z) : Z :=
  if x <? 2147483648 then x else x - 4294967296.

(** [uint32_t byteSize = ...; byteSize *= sizeof (jack_default_audio_sample_t);] *)
Definition initial_byteSize (l : MasterLooper) (nframes : Z) : Z :=
  let byteSize :=
    if 0 <? rec_frame_delay l then u32 (nframes - rec_frame_delay l)
    else if 0 <? play_frame_delay l then play_frame_delay l
    else nframes in
  u32 (byteSize * SIZEOF_SAMPLE).

(** [uint32_t offset = ...] *)
Definition initial_offset (l : MasterLooper) : Z :=
  if 0 <? rec_frame_delay l then u32 (rec_frame_delay l * SIZEOF_SAMPLE) else 0.

(** [case SYSTEM_STATE_PASSTHROUGH] *)
Definition playRecord_passthrough (l : MasterLooper) (a : AudioBuffers) (byteSize : Z)
    : AudioBuffers :=
  let a := set_outL (memcpy (outL a) 0 (inL a) byteSize) a in
  if negb (input_portR l) && output_portR l then
    set_outR (memcpy (outR a) 0 (inL a) byteSize) a
  else if input_portR l && output_portR l then
    set_outR (memcpy (outR a) 0 (inR a) byteSize) a
  else a.

(** [case SYSTEM_STATE_OVERDUBBING], up to the fall-through. *)
Definition playRecord_overdub (l : MasterLooper) (a : AudioBuffers) (offset nframes : Z)
    : option MasterLooper :=
  let st := selectedTrack l in
  t ← selected_track l;
  let trackIdx := currIdx t in
  n ← getNumActiveTracks l;
  let trackIdx := if 1 <? n then u32 (trackIdx - 128) else trackIdx in
  chL ← overdub (ptr_read (inL a) offset) (channelLeft t) trackIdx
                (u32 (nframes - rec_frame_delay l));
  l ← modify_track st (set_channelLeft chL) l;
  if input_portR l then
    t ← selected_track l;
    chR ← overdub (ptr_read (inR a) offset) (channelRight t) trackIdx
                  (u32 (nframes - rec_frame_delay l));
    modify_track st (set_channelRight chR) l
  else Some l.

(** [case SYSTEM_STATE_RECORDING], entered with [state == RECORDING]. *)
Definition playRecord_record (l : MasterLooper) (a : AudioBuffers)
    (offset byteSize : Z) : option MasterLooper :=
  let st := selectedTrack l in
  t ← selected_track l;
  let trackIdx := currIdx t in
  n ← getNumActiveTracks l;
  let trackIdx :=
    if 1 <? n then
      if int_of_u32 (masterCurrIdx l) - 4 * 128 <? 0 then trackIdx
      else u32 (trackIdx - 512)
    else trackIdx in
  l ← modify_track st
        (fun t => set_channelLeft
                    (memcpy (channelLeft t) trackIdx (ptr_read (inL a) offset) byteSize)
                    t) l;
  if input_portR l then
    modify_track st
      (fun t => set_channelRight
                  (memcpy (channelRight t) trackIdx (ptr_read (inR a) offset) byteSize)
                  t) l
  else Some l.

(** [case SYSTEM_STATE_CALIBRATION], entered with [state == CALIBRATION]. *)
Definition playRecord_calibration (l : MasterLooper) (a : AudioBuffers)
    (offset byteSize : Z) : option MasterLooper :=
  modify_track 1
    (fun t => set_channelLeft
                (memcpy (channelLeft t) (currIdx t) (ptr_read (inL a) offset) byteSize)
                t) l.

(** [case SYSTEM_STATE_PLAYBACK], where all the recording cases fall through.
    [doMixDown] is called with [outL] as its right input buffer. *)
Definition playRecord_playback (l : MasterLooper) (a : AudioBuffers)
    (byteSize nframes : Z) : option (MasterLooper * AudioBuffers) :=
  let st := selectedTrack l in
  '(l, byteSize) ←
    (if 0 <? play_frame_delay l then
       t ← selected_track l;
       let trackIdx := currIdx t in
       l ← modify_track st
             (fun t => set_channelLeft
                         (memcpy (channelLeft t) trackIdx (inL a) byteSize) t) l;
       l ← (if input_portR l then
              modify_track st
                (fun t => set_channelRight
                            (memcpy (channelRight t) trackIdx (inR a) byteSize) t) l
            else Some l);
       Some (l, u32 (nframes * SIZEOF_SAMPLE))
     else Some (l, byteSize));
  mix ← doMixDown l (Some (inL a)) (Some (outL a))
                  (mixdownLeft a) (mixdownRight a) nframes;
  let a := set_mixdown mix a in
  let a := set_outL (memcpy (outL a) 0 (mixdownLeft a) byteSize) a in
  let a :=
    if input_portR l && output_portR l
    then set_outR (memcpy (outR a) 0 (mixdownRight a) byteSize) a else a in
  let a :=
    if negb (input_portR l) && output_portR l
    then set_outR (memcpy (outR a) 0 (mixdownLeft a) byteSize) a else a in
  Some (l, a).

Definition playRecord (s : System) (a : AudioBuffers) (nframes : Z)
    : option (System * AudioBuffers) :=
  s ← controlStateCheck s;
  let l := set_controlLocked true (looper s) in
  let byteSize := initial_byteSize l nframes in
  let offset := initial_offset l in
  '(l, a) ←
    match state l with
    | SYSTEM_STATE_PASSTHROUGH => Some (l, playRecord_passthrough l a byteSize)
    | SYSTEM_STATE_OVERDUBBING =>
        l ← playRecord_overdub l a offset nframes;
        playRecord_playback l a byteSize nframes
    | SYSTEM_STATE_RECORDING =>
        l ← playRecord_record l a offset byteSize;
        playRecord_playback l a byteSize nframes
    | SYSTEM_STATE_CALIBRATION =>
        l ← playRecord_calibration l a offset byteSize;
        playRecord_playback l a byteSize nframes
    | SYSTEM_STATE_PLAYBACK => playRecord_playback l a byteSize nframes
    end;
  l ← (if negb (SystemStates_eqb (state l) SYSTEM_STATE_PASSTHROUGH)
       then updateIndices l nframes else Some l);
  let l := set_rec_frame_delay 0 l in
  let l := set_play_frame_delay 0 l in
  let l := set_controlLocked false l in
  let l := set_callCounter (u32 (callCounter l + 1)) l in
  Some (set_looper l s, a).

(** ** Predicates and scenarios used by the statements *)

(** The part of the looper that an iteration for another track leaves alone. *)
Definition same_except_track (idx : Z) (l l' : MasterLooper) : Prop :=
  masterCurrIdx l' = masterCurrIdx l /\
  groupedTracks l' = groupedTracks l /\
  selectedTrack l' = selectedTrack l /\
  selectedGroup l' = selectedGroup l /\
  (forall j, j <> idx -> track_at l' j = track_at l j).


(** The control part of the looper, which an iteration of the position
    engine that takes the playback branch leaves alone. *)
Definition engine_frame (l l' : MasterLooper) : Prop :=
  masterCurrIdx l' = masterCurrIdx l /\
  groupedTracks l' = groupedTracks l /\
  selectedTrack l' = selectedTrack l /\
  selectedGroup l' = selectedGroup l /\
  state l' = state l /\
  masterLength l' = masterLength l.

(** The system states in which the position engine treats the selected
    track as the recording track. *)
Definition engine_records (st : SystemStates) : bool :=
  SystemStates_eqb st SYSTEM_STATE_CALIBRATION ||
  SystemStates_eqb st SYSTEM_STATE_RECORDING.

(** The limiter as the specification words it: scale by 0.9 when the
    absolute value of the sum exceeds 0.9 * FLT_MAX. *)
Definition symmetric_limit (sum : jack_default_audio_sample_t)
    : jack_default_audio_sample_t :=
  if above_threshold (SFabs sum) then scale_0_9 sum else sum.

(** The track sums of one output sample: the inner loop of [doMixDown]. *)
Definition mix_sums (looper : MasterLooper) (sample : Z)
    : option (jack_default_audio_sample_t * jack_default_audio_sample_t) :=
  for_each_track (doMixDown_track looper (selectedGroup looper) sample)
                 track_indices (f32_zero, f32_zero).

(** A row of [groupedTracks] whose only entry is track [idx]. *)
Definition only_member (idx : Z) : list bool :=
  <[Z.to_nat idx := true]> (replicate (Z.to_nat NUM_TRACKS) false).

(** The track of the repeat-wrap scenario: a repeating playback track of
    256 samples, positioned at sample 200. *)
Definition repeat_wrap_track (t : Track) : Prop :=
  repeat t = true /\ endIdx t = 256 /\ startIdx t = 0 /\
  trk_state t = TRACK_STATE_PLAYBACK /\ currIdx t = 200.

(** *** Concrete loopers for the scenarios *)

Definition f32_one : jack_default_audio_sample_t := S754_finite false 8388608 (-23).

Definition silence : buffer := fun _ => f32_zero.

(** A buffer that is silent except for one sample of value 1.0. *)
Definition pulse_at (i : Z) : buffer := fun j => if j =? i then f32_one else f32_zero.

Definition blank_track : Track :=
  mkTrack silence silence 0 0 0 SAMPLE_LIMIT TRACK_STATE_OFF false.

Definition no_group_entries : list (list bool) :=
  replicate (Z.to_nat NUM_GROUPS) (replicate (Z.to_nat NUM_TRACKS) false).

(** The looper before any command: every track empty, no track in any
    group, group 1 selected, passthrough. *)
Definition blank_looper : MasterLooper :=
  mkLooper (replicate (Z.to_nat NUM_TRACKS) blank_track) no_group_entries
           true true (replicate (Z.to_nat NUM_GROUPS) 0) 0 0 0 0 0 1
           MIN_SERIAL_DATA_LENGTH SYSTEM_STATE_PASSTHROUGH false false false.

Definition idle_cc : ControlContext :=
  mkCC 0 0 SYSTEM_EVENT_PASSTHROUGH false false.

Definition silent_audio : AudioBuffers :=
  mkAudio silence silence silence silence silence silence.

(** Track 0 is the only member of group 1, which is selected. *)
Definition one_track_looper (t : Track) (st : SystemStates) (master_idx master_len : Z)
    : MasterLooper :=
  set_state st
    (set_masterCurrIdx master_idx
       (store_masterLength 1 master_len
          (store_grouped 1 0 true (store_track 0 t blank_looper)))).

(** The repeat-wrap scenario; the second sample of the track (index 1) is
    1.0, all the others are 0. *)
Definition repeat_wrap_example : Track :=
  mkTrack (pulse_at 1) silence 200 0 256 SAMPLE_LIMIT TRACK_STATE_PLAYBACK true.

Definition repeat_wrap_system : System :=
  mkSystem (one_track_looper repeat_wrap_example SYSTEM_STATE_PLAYBACK 200 256) idle_cc.

(** What a cycle leaves for track 0: its position, and one output sample. *)
Definition cycle_observation (r : option (System * AudioBuffers)) (i : Z)
    : option (Z * jack_default_audio_sample_t) :=
  '(s, a) ← r; t ← track_at (looper s) 0; Some (currIdx t, outL a i).

(** The buffer-full scenario: the selected track is 64 samples short of
    [SAMPLE_LIMIT], and so is the master. *)
Definition buffer_full_track : Track :=
  mkTrack silence silence (SAMPLE_LIMIT - 64) 0 (SAMPLE_LIMIT - 64) SAMPLE_LIMIT
          TRACK_STATE_RECORDING false.

Definition buffer_full_looper (st : SystemStates) : MasterLooper :=
  one_track_looper buffer_full_track st (SAMPLE_LIMIT - 64) (SAMPLE_LIMIT - 64).

(** What the position engine leaves for track 0: position and end of the
    track, and the system state. *)
Definition engine_observation (r : option MasterLooper)
    : option (Z * Z * SystemStates) :=
  l ← r; t ← track_at l 0; Some (currIdx t, endIdx t, state l).

(** A one-sample track whose buffer holds 1.0 at index [endIdx] = 1, one past
    the recorded sample. *)
Definition end_sample_track : Track :=
  mkTrack (pulse_at 1) silence 0 0 1 SAMPLE_LIMIT TRACK_STATE_PLAYBACK false.

Definition end_sample_looper : MasterLooper :=
  one_track_looper end_sample_track SYSTEM_STATE_PLAYBACK 0 1.

(** The command "o0000" followed by CR. *)
Definition overdub_command : list Z := [111; 48; 48; 48; 48; 13].

(** Live input of constant 1.0 on both channels, silent output buffers. *)
Definition constant_input_audio : AudioBuffers :=
  mkAudio (fun _ => f32_one) silence (fun _ => f32_one) silence silence silence.

(** The first characters [processUART] has a case for. *)
Definition recognized_command (b0 : Z) : bool :=
  (b0 =? SERIAL_CMD_OVERDUB_LC) || (b0 =? SERIAL_CMD_OVERDUB_UC) ||
  (b0 =? SERIAL_CMD_RECORD_LC) || (b0 =? SERIAL_CMD_RECORD_UC) ||
  (b0 =? SERIAL_CMD_TRACK_MUTE_LC) || (b0 =? SERIAL_CMD_TRACK_MUTE_UC) ||
  (b0 =? SERIAL_CMD_TRACK_UNMUTE_LC) || (b0 =? SERIAL_CMD_TRACK_UNMUTE_UC) ||
  (b0 =? SERIAL_CMD_ADD_TRACK2GROUP_LC) || (b0 =? SERIAL_CMD_ADD_TRACK2GROUP_UC) ||
  (b0 =? SERIAL_CMD_RMV_TRACK_GROUP_LC) || (b0 =? SERIAL_CMD_RMV_TRACK_GROUP_UC) ||
  (b0 =? SERIAL_CMD_GROUP_SELECT_LC) || (b0 =? SERIAL_CMD_GROUP_SELECT_UC) ||
  (b0 =? SERIAL_CMD_PLAY_LC) || (b0 =? SERIAL_CMD_PLAY_UC) ||
  (b0 =? SERIAL_CMD_SYSTEM_RESET_LC) || (b0 =? SERIAL_CMD_SYSTEM_RESET_UC) ||
  (b0 =? SERIAL_CMD_QUIT_LC) || (b0 =? SERIAL_CMD_QUIT_UC).

(** The last characters [processUART] lets through: carriage return, 'r'
    and 's' (every character when fewer than six bytes make a command). *)
Definition valid_terminator (l : MasterLooper) (b5 : Z) : bool :=
  negb ((MIN_SERIAL_DATA_LENGTH <=? min_serial_data_length l) &&
        negb (b5 =? 13) &&
        negb (b5 =? SERIAL_CMD_OPTION_REPEAT_ON) &&
        negb (b5 =? SERIAL_CMD_OPTION_REPEAT_OFF)).

(** The bounds check of [processUART] on the control context. *)
Definition cc_in_range (c : ControlContext) : bool :=
  (0 <=? cc_track c) && (cc_track c <? NUM_TRACKS) &&
  (0 <=? cc_group c) && (cc_group c <? NUM_GROUPS).

(** The track that a Play event finalizes. *)
Definition finalized (overdubbing : bool) (cc_rep : bool) (pfd : Z) (t0 : Track) : Track :=
  let t1 := if cc_rep then set_repeat cc_rep t0 else t0 in
  let t2 :=
    if overdubbing && negb (endIdx t1 <? currIdx t1) then t1
    else set_endIdx (u32 (currIdx t1 + pfd)) t1 in
  set_trk_state TRACK_STATE_PLAYBACK t2.

(** The order of a track's indices that the specification asks for. *)
Definition track_indices_ordered (t : Track) : bool :=
  (0 <=? startIdx t) && (startIdx t <=? endIdx t) && (endIdx t <=? maxIdx t) &&
  (0 <=? currIdx t) && (currIdx t <=? maxIdx t).

Definition indices_ordered (l : MasterLooper) : bool :=
  forallb track_indices_ordered (tracks l).

(** Every track is bound to group 1 (so that [getNumActiveTracks] is
    defined on group 1); nothing is recorded yet. *)
Definition full_group_looper : MasterLooper :=
  set_groupedTracks
    (<[1%nat := replicate (Z.to_nat NUM_TRACKS) true]> no_group_entries) blank_looper.

(** Track 0 holds a take of 256 samples and plays; the master is at sample
    128; a Record command for track 1 of group 1 is pending. *)
Definition second_take_system : System :=
  mkSystem
    (set_state SYSTEM_STATE_PLAYBACK
       (set_masterCurrIdx 128
          (store_masterLength 1 256
             (store_track 0
                (mkTrack silence silence 128 0 256 SAMPLE_LIMIT TRACK_STATE_PLAYBACK false)
                full_group_looper))))
    (mkCC 1 1 SYSTEM_EVENT_RECORD_TRACK false true).

(** The largest [endIdx] among the members of group [g] (0 for an empty
    group). *)
Definition group_max_endIdx (l : MasterLooper) (g : Z) : Z :=
  foldr (fun t acc =>
           match grouped l g t, track_at l t with
           | Some true, Some tr => Z.max (endIdx tr) acc
           | _, _ => acc
           end) 0 track_indices.

(** [masterLength[g]] is the maximum of [endIdx] over the members of [g],
    for every group. *)
Definition masterLength_is_max (l : MasterLooper) : bool :=
  forallb (fun g => match masterLength_at l g with
                    | Some ml => ml =? group_max_endIdx l g
                    | None => false
                    end) group_indices.

(** [masterLength[g]] is at least the [endIdx] of every member of [g]. *)
Definition masterLength_bounds (l : MasterLooper) : Prop :=
  forall g t tr ml,
    grouped l g t = Some true -> track_at l t = Some tr ->
    masterLength_at l g = Some ml -> endIdx tr <= ml.

(** Every track is bound to group 1; track 0, 256 samples long, is the only
    recorded one; a command to remove it from the group is pending. *)
Definition remove_longest_system : System :=
  mkSystem
    (set_state SYSTEM_STATE_PLAYBACK
       (store_masterLength 1 256
          (store_track 0
             (mkTrack silence silence 0 0 256 SAMPLE_LIMIT TRACK_STATE_PLAYBACK false)
             full_group_looper)))
    (mkCC 0 1 SYSTEM_EVENT_REMOVE_TRACK_FROM_GROUP false true).

(** *** Runs of the engine *)

(** The two things that happen to the engine: the control thread receives a
    command ([frames] into the current cycle), or the audio transport runs a
    process cycle. *)
Inductive Step :=
  | Command (frames : Z) (buf : list Z)
  | Cycle (a : AudioBuffers) (nframes : Z).

Definition step (st : Step) (s : System) : option System :=
  match st with
  | Command frames buf => fst <$> controlThread_command frames buf s
  | Cycle a nframes => fst <$> playRecord s a nframes
  end.

Fixpoint run (steps : list Step) (s : System) : option System :=
  match steps with
  | [] => Some s
  | st :: rest => s' ← step st s; run rest s'
  end.

(** The looper before any command, with the sixteen tracks bound to
    group 1. *)
Definition start_system : System := mkSystem full_group_looper idle_cc.

(** "r00g1", "r01g1", "p0000" and "d00g1", each followed by CR. *)
Definition record_track0 : list Z := [114; 48; 48; 103; 49; 13].
Definition record_track1 : list Z := [114; 48; 49; 103; 49; 13].
Definition play_command : list Z := [112; 48; 48; 48; 48; 13].
Definition remove_track0 : list Z := [100; 48; 48; 103; 49; 13].

(** Record two cycles on track 0, stop, play two cycles, then ask for a
    recording on track 1. *)
Definition second_take_steps : list Step :=
  [Command 0 record_track0; Cycle silent_audio 128; Cycle silent_audio 128;
   Command 0 play_command; Cycle silent_audio 128; Cycle silent_audio 128;
   Command 0 record_track1].

(** Record two cycles on track 0, stop, then remove track 0 from group 1. *)
Definition take_then_remove_steps : list Step :=
  [Command 0 record_track0; Cycle silent_audio 128; Cycle silent_audio 128;
   Command 0 play_command; Cycle silent_audio 128].

(** The indices and state of a track. *)
Definition track_summary (t : Track) : Z * Z * Z * TrackState * bool :=
  (currIdx t, startIdx t, endIdx t, trk_state t, repeat t).

(** The part of the system that the control state machine reads. *)
Definition control_summary (s : System) :=
  (track_summary <$> tracks (looper s), groupedTracks (looper s),
   masterLength (looper s), masterCurrIdx (looper s),
   selectedTrack (looper s), selectedGroup (looper s), state (looper s), cc s).

(** ** Definitions for the properties of the rest of the code *)

(** A take of 256 samples, ready to play from its start. *)
Definition recorded_track : Track :=
  mkTrack silence silence 0 0 256 SAMPLE_LIMIT TRACK_STATE_PLAYBACK false.

(** Every track is bound to group 1, which is selected; track 0 holds the
    take and plays; the master length of group 1 is the take's length. *)
Definition playing_looper : MasterLooper :=
  set_state SYSTEM_STATE_PLAYBACK
    (store_masterLength 1 256 (store_track 0 recorded_track full_group_looper)).

(** The playing looper with a pending or stored command. *)
Definition playing_system (c : ControlContext) : System := mkSystem playing_looper c.

(** Stored commands for track 0 of group 1. *)
Definition mute_track0 : ControlContext := mkCC 0 1 SYSTEM_EVENT_MUTE_TRACK false true.
Definition overdub_track0 : ControlContext := mkCC 0 1 SYSTEM_EVENT_OVERDUB_TRACK false true.
Definition repeat_track0 : ControlContext := mkCC 0 1 SYSTEM_EVENT_PLAY_TRACK true true.
Definition assign_track0_group2 : ControlContext :=
  mkCC 0 2 SYSTEM_EVENT_ADD_TRACK_TO_GROUP false true.

(** The number of tracks of the looper that hold a recording
    ([endIdx > 0]). *)
Definition recorded_tracks (l : MasterLooper) : Z :=
  Z.of_nat (length (filter (fun t => 0 < endIdx t) (tracks l))).

(** [l'] is [l] with other tracks: no field but [tracks] differs. *)
Definition only_tracks_changed (l l' : MasterLooper) : Prop :=
  set_tracks (tracks l) l' = l.

(** A stored group selection for group 1. *)
Definition select_group1 : ControlContext :=
  mkCC 0 1 SYSTEM_EVENT_SET_ACTIVE_GROUP false true.

(** What the position engine may change of a track: its position, and its
    end, which it may only move forward. *)
Definition engine_keeps_track (t t' : Track) : Prop :=
  channelLeft t' = channelLeft t /\ channelRight t' = channelRight t /\
  startIdx t' = startIdx t /\ maxIdx t' = maxIdx t /\
  trk_state t' = trk_state t /\ repeat t' = repeat t /\
  endIdx t <= endIdx t'.

(** A track on which a recording has just started at the head of the
    loop. *)
Definition fresh_take : Track :=
  mkTrack silence silence 0 0 0 SAMPLE_LIMIT TRACK_STATE_RECORDING false.

(** Every track is bound to group 1; track 0 is being recorded; no command
    is pending. *)
Definition recording_system : System :=
  mkSystem (set_state SYSTEM_STATE_RECORDING (store_track 0 fresh_take full_group_looper))
           idle_cc.




(** ** The diagnostic timers (the timer file)

    [startTimer] and [stopTimer] are called by [playRecord], by the process
    callback and by the control thread.  The clock reading
    ([gettime_now.tv_nsec] after [clock_gettime]) is a parameter of the
    model; the table [timers] is the state.  A write outside
    [time_differences] has no defined behaviour: the model returns [None]. *)

Definition MAX_TIME_SAMPLES : Z := 10.
Definition TIMER_COUNT : Z := 5.

(** [struct TimerConstruct] *)
Record TimerConstruct := mkTimer {
  start_time : Z;
  time_differences : list Z;
  time_differenceMax : Z;
  differencesIndex : Z;
  started : bool
}.

(** [timers[index]], for an index that passed the [index >= TIMER_COUNT]
    test. *)
Definition timer_at (timers : list TimerConstruct) (index : Z) : option TimerConstruct :=
  timers !! Z.to_nat index.

Definition startTimer (now : Z) (index : Z) (timers : list TimerConstruct)
    : option (list TimerConstruct) :=
  let index := u8 index in
  if TIMER_COUNT <=? index then Some timers
  else
    t ← timer_at timers index;
    (* timers[index].start_time = gettime_now.tv_nsec; timers[index].started = true; *)
    Some (<[Z.to_nat index :=
             mkTimer now (time_differences t) (time_differenceMax t)
                     (differencesIndex t) true]> timers).

Definition stopTimer (now : Z) (index : Z) (timers : list TimerConstruct)
    : option (list TimerConstruct) :=
  let index := u8 index in
  if TIMER_COUNT <=? index then Some timers
  else
    t ← timer_at timers index;
    if negb (started t) then Some timers
    else
      (* time_diff = gettime_now.tv_nsec - start_time; rolls over every second *)
      let time_diff := now - start_time t in
      let time_diff := if time_diff <? 0 then time_diff + 1000000000 else time_diff in
      (* time_differences[differencesIndex] = time_diff; *)
      if (differencesIndex t <? 0) || (MAX_TIME_SAMPLES <=? differencesIndex t) then None
      else
        let diffs := <[Z.to_nat (differencesIndex t) := time_diff]> (time_differences t) in
        (* differencesIndex++; if (differencesIndex > MAX_TIME_SAMPLES) differencesIndex = 0; *)
        let di := differencesIndex t + 1 in
        let di := if MAX_TIME_SAMPLES <? di then 0 else di in
        let mx := if time_differenceMax t <? time_diff then time_diff
                  else time_differenceMax t in
        Some (<[Z.to_nat index := mkTimer (start_time t) diffs mx di false]> timers).

(** The table as the program starts with it (static storage), and as
    [printTimers] leaves it ([memset] to zero). *)
Definition zero_timer : TimerConstruct :=
  mkTimer 0 (replicate (Z.to_nat MAX_TIME_SAMPLES) 0) 0 0 false.

Definition zero_timers : list TimerConstruct := replicate (Z.to_nat TIMER_COUNT) zero_timer.

(** A measurement: the timer is started at clock reading [fst p] and stopped
    at [snd p]. *)
Definition measure (index : Z) (p : Z * Z) (timers : list TimerConstruct)
    : option (list TimerConstruct) :=
  timers ← startTimer (fst p) index timers; stopTimer (snd p) index timers.

Fixpoint measurements (index : Z) (clock : list (Z * Z)) (timers : list TimerConstruct)
    : option (list TimerConstruct) :=
  match clock with
  | [] => Some timers
  | p :: rest => timers ← measure index p timers; measurements index rest timers
  end.

(** A nanosecond reading of the clock. *)
Definition nanoseconds (x : Z) : Prop := 0 <= x < 1000000000.

(** Timer 2 has been started ten nanoseconds before the clock's second
    rolls over. *)
Definition running_timer : TimerConstruct :=
  mkTimer 999999990 (replicate (Z.to_nat MAX_TIME_SAMPLES) 0) 0 0 true.

Definition running_timers : list TimerConstruct := <[2%nat := running_timer]> zero_timers.

(** Ten measurements of 100 ns each. *)
Definition ten_readings : list (Z * Z) := replicate 10 (100, 200).

(** ** The per-track index handlers of track_manager.c *)

Module TrackManager.

(** [struct Track] as track_manager.c declares it; a channel is NULL until
    the track is initialised. *)
Record Track := mkTrack {
  channel_left : option buffer;
  channel_right : option buffer;
  currIdx : Z;
  startIdx : Z;
  endIdx : Z;
  maxIdx : Z;
  state : TrackState;
  repeat : bool;
  overdub : bool
}.

Definition set_currIdx (v : Z) (t : Track) : Track :=
  mkTrack (channel_left t) (channel_right t) v (startIdx t) (endIdx t) (maxIdx t)
          (state t) (repeat t) (overdub t).

(** [tracks_[track]->...] on [static struct Track *tracks_[NUM_TRACKS]]:
    undefined outside the array and through a NULL entry. *)
Definition track_ptr (tracks_ : list (option Track)) (track : Z) : option Track :=
  if track <? 0 then None
  else match tracks_ !! Z.to_nat track with
       | Some (Some t) => Some t
       | _ => None
       end.

(** [*tracks_[track] = t] *)
Definition store (tracks_ : list (option Track)) (track : Z) (t : Track)
    : list (option Track) :=
  <[Z.to_nat track := Some t]> tracks_.

Definition UpdateIndexPlay (max_track_length_ : Z) (track nframes : Z)
    (tracks_ : list (option Track)) : option (list (option Track)) :=
  t ← track_ptr tracks_ track;
  (* if (tracks_[track]->currIdx + nframes < max_track_length_) *)
  if u32 (currIdx t + nframes) <? max_track_length_
  then Some (store tracks_ track (set_currIdx (u32 (currIdx t + nframes)) t))
  else Some (store tracks_ track (set_currIdx 0 t)).

Definition UpdateIndexRepeat (track nframes : Z) (tracks_ : list (option Track))
    : option (list (option Track)) :=
  t ← track_ptr tracks_ track;
  (* if (tracks_[track]->currIdx + nframes < tracks_[track]->endIdx) *)
  if u32 (currIdx t + nframes) <? endIdx t
  then Some (store tracks_ track (set_currIdx (u32 (currIdx t + nframes)) t))
  else Some (store tracks_ track (set_currIdx (startIdx t) t)).

(** A track of the new layout: a take of 256 samples positioned at 200. *)
Definition example_track : Track :=
  mkTrack (Some silence) (Some silence) 200 0 256 1000 TRACK_STATE_PLAYBACK true false.

(** Track 0 is initialised, the other entries are NULL. *)
Definition example_tracks : list (option Track) :=
  Some example_track :: replicate 15 None.

End TrackManager.
(** * Properties *)

(** Well-formedness of a concrete looper. *)
Ltac solve_wf :=
  split; [reflexivity|]; split; [reflexivity|]; split; [reflexivity|];
  repeat constructor.

(** ** Array access lemmas *)

Section ArrayLemmas.
Variable l : MasterLooper.

Lemma track_at_Some_range (t : Z) (v : Track) :
  track_at l t = Some v -> 0 <= t /\ (Z.to_nat t < length (tracks l))%nat.
Proof.
  unfold track_at. destruct (Z.ltb_spec t 0); [discriminate|].
  intros H1. split; [lia|]. eapply lookup_lt_Some; eauto.
Qed.

Lemma track_at_store_eq (t : Z) (v : Track) :
  0 <= t -> (Z.to_nat t < length (tracks l))%nat ->
  track_at (store_track t v l) t = Some v.
Proof.
  intros H0 Hlen. unfold track_at, store_track; simpl.
  destruct (Z.ltb_spec t 0); [lia|].
  by apply list_lookup_insert_eq.
Qed.

Lemma track_at_store_ne (t j : Z) (v : Track) :
  0 <= t -> t <> j -> track_at (store_track t v l) j = track_at l j.
Proof.
  intros H0 Hne. unfold track_at, store_track; simpl.
  destruct (Z.ltb_spec j 0); [done|].
  apply list_lookup_insert_ne. lia.
Qed.

Lemma wf_track_at (t : Z) :
  wf_looper l -> 0 <= t < NUM_TRACKS -> exists v, track_at l t = Some v.
Proof.
  intros (Ht & _) Hr. unfold track_at.
  destruct (Z.ltb_spec t 0); [lia|].
  apply lookup_lt_is_Some. rewrite Ht. unfold NUM_TRACKS in *. lia.
Qed.

Lemma wf_masterLength_at (g : Z) :
  wf_looper l -> 0 <= g < NUM_GROUPS -> exists v, masterLength_at l g = Some v.
Proof.
  intros (_ & Hm & _) Hr. unfold masterLength_at.
  destruct (Z.ltb_spec g 0); [lia|].
  apply lookup_lt_is_Some. rewrite Hm. unfold NUM_GROUPS in *. lia.
Qed.

Lemma wf_grouped (g t : Z) :
  wf_looper l -> 0 <= g < NUM_GROUPS -> 0 <= t < NUM_TRACKS ->
  exists b, grouped l g t = Some b.
Proof.
  intros (_ & _ & Hg & Hrows) Hgr Htr. unfold grouped.
  destruct (Z.ltb_spec g 0); [lia|]. destruct (Z.ltb_spec t 0); [lia|]. simpl.
  destruct (lookup_lt_is_Some_2 (groupedTracks l) (Z.to_nat g)) as [row Hrow].
  { rewrite Hg. unfold NUM_GROUPS in *. lia. }
  rewrite Hrow; simpl.
  apply lookup_lt_is_Some.
  rewrite Forall_lookup in Hrows. rewrite (Hrows _ _ Hrow).
  unfold NUM_TRACKS in *. lia.
Qed.

Lemma wf_store_track (t : Z) (v : Track) :
  wf_looper l -> wf_looper (store_track t v l).
Proof.
  intros (Ht & Hm & Hg & Hrows). repeat split; simpl; try done.
  by rewrite length_insert.
Qed.

Lemma wf_store_masterLength (g v : Z) :
  wf_looper l -> wf_looper (store_masterLength g v l).
Proof.
  intros (Ht & Hm & Hg & Hrows). repeat split; simpl; try done.
  by rewrite length_insert.
Qed.

Lemma wf_set_state (v : SystemStates) : wf_looper l -> wf_looper (set_state v l).
Proof. by intros (Ht & Hm & Hg & Hrows). Qed.

Lemma wf_set_masterCurrIdx (v : Z) :
  wf_looper l -> wf_looper (set_masterCurrIdx v l).
Proof. by intros (Ht & Hm & Hg & Hrows). Qed.
End ArrayLemmas.

(** ** Loops over the track indices *)

Lemma for_each_track_app {S : Type} (body : Z -> S -> option S) (xs ys : list Z) (s : S) :
  for_each_track body (xs ++ ys) s =
  for_each_track body xs s ≫= for_each_track body ys.
Proof.
  revert s. induction xs as [|x xs IH]; intros s; simpl; [done|].
  destruct (body x s) as [s'|]; simpl; [apply IH|done].
Qed.

Lemma for_each_track_cons {S : Type} (body : Z -> S -> option S) (x : Z) (xs : list Z)
    (s : S) :
  for_each_track body (x :: xs) s = body x s ≫= for_each_track body xs.
Proof. reflexivity. Qed.

(** A loop whose body is defined on, and preserves, an invariant is defined
    and its result satisfies the invariant. *)
Lemma for_each_track_inv {S : Type} (P : S -> Prop) (body : Z -> S -> option S)
    (idxs : list Z) (s : S) :
  P s ->
  (forall idx s0, In idx idxs -> P s0 -> exists s1, body idx s0 = Some s1 /\ P s1) ->
  exists s', for_each_track body idxs s = Some s' /\ P s'.
Proof.
  revert s. induction idxs as [|idx idxs IH]; intros s HP Hstep; simpl.
  - by exists s.
  - destruct (Hstep idx s) as (s1 & Hb & HP1); [by left|done|].
    rewrite Hb; simpl. apply IH; [done|].
    intros idx' s0 Hin. apply Hstep. by right.
Qed.

Lemma track_indices_range (idx : Z) :
  In idx track_indices <-> 0 <= idx < NUM_TRACKS.
Proof.
  unfold track_indices, NUM_TRACKS. simpl. split.
  - intros H. repeat (destruct H as [H|H]; [lia|]). destruct H.
  - intros H.
    assert (Hc : idx = 0 \/ idx = 1 \/ idx = 2 \/ idx = 3 \/ idx = 4 \/ idx = 5 \/
                 idx = 6 \/ idx = 7 \/ idx = 8 \/ idx = 9 \/ idx = 10 \/ idx = 11 \/
                 idx = 12 \/ idx = 13 \/ idx = 14 \/ idx = 15) by lia.
    repeat (destruct Hc as [Hc|Hc]; [subst; tauto|]). subst; tauto.
Qed.

(** Every index splits the loop into the iterations before it, its own
    iteration and the iterations after it. *)
Lemma track_indices_split (idx : Z) :
  0 <= idx < NUM_TRACKS ->
  exists pre post,
    track_indices = pre ++ idx :: post /\ ~ In idx pre /\ ~ In idx post /\
    (forall i, In i pre -> 0 <= i < NUM_TRACKS) /\
    (forall i, In i post -> 0 <= i < NUM_TRACKS).
Proof.
  intros H.
  exists (Z.of_nat <$> seq 0 (Z.to_nat idx)),
         (Z.of_nat <$> seq (Datatypes.S (Z.to_nat idx)) (15 - Z.to_nat idx)).
  unfold NUM_TRACKS in *.
  assert (Hc : idx = 0 \/ idx = 1 \/ idx = 2 \/ idx = 3 \/ idx = 4 \/ idx = 5 \/
               idx = 6 \/ idx = 7 \/ idx = 8 \/ idx = 9 \/ idx = 10 \/ idx = 11 \/
               idx = 12 \/ idx = 13 \/ idx = 14 \/ idx = 15) by lia.
  assert (Hcase : forall k : Z, idx = k ->
    track_indices = (Z.of_nat <$> seq 0 (Z.to_nat k)) ++
                    k :: (Z.of_nat <$> seq (Datatypes.S (Z.to_nat k)) (15 - Z.to_nat k)) ->
    Forall (fun i => i <> k /\ 0 <= i < 16) (Z.of_nat <$> seq 0 (Z.to_nat k)) ->
    Forall (fun i => i <> k /\ 0 <= i < 16)
           (Z.of_nat <$> seq (Datatypes.S (Z.to_nat k)) (15 - Z.to_nat k)) ->
    track_indices = (Z.of_nat <$> seq 0 (Z.to_nat idx)) ++
         idx :: (Z.of_nat <$> seq (Datatypes.S (Z.to_nat idx)) (15 - Z.to_nat idx)) /\
    ~ In idx (Z.of_nat <$> seq 0 (Z.to_nat idx)) /\
    ~ In idx (Z.of_nat <$> seq (Datatypes.S (Z.to_nat idx)) (15 - Z.to_nat idx)) /\
    (forall i, In i (Z.of_nat <$> seq 0 (Z.to_nat idx)) -> 0 <= i < 16) /\
    (forall i, In i (Z.of_nat <$> seq (Datatypes.S (Z.to_nat idx)) (15 - Z.to_nat idx)) ->
               0 <= i < 16)).
  { intros k -> Heq Hpre Hpost. rewrite Forall_forall in Hpre, Hpost.
    split; [done|].
    split; [intros Hin; apply list_elem_of_In, Hpre in Hin; tauto|].
    split; [intros Hin; apply list_elem_of_In, Hpost in Hin; tauto|].
    split; intros i Hin; apply list_elem_of_In in Hin.
    - by apply Hpre. - by apply Hpost. }
  repeat (destruct Hc as [Hc|Hc];
    [apply (Hcase _ Hc); [reflexivity| |]; vm_compute; repeat constructor; discriminate |]).
  apply (Hcase _ Hc); [reflexivity| |]; vm_compute; repeat constructor; discriminate.
Qed.

(** ** The position engine *)

Lemma updateIndices_record_total (sg idx : Z) (track : Track) (l : MasterLooper) :
  wf_looper l -> 0 <= sg < NUM_GROUPS -> 0 <= idx < NUM_TRACKS ->
  exists l', updateIndices_record sg idx track l = Some l' /\ wf_looper l' /\
             same_except_track idx l l'.
Proof.
  intros Hwf Hsg Hidx. unfold updateIndices_record.
  set (l1 := if SAMPLE_LIMIT <? currIdx track then set_state SYSTEM_STATE_PLAYBACK l else l).
  assert (Hwf1 : wf_looper l1) by (subst l1; destruct (_ <? _); [by apply wf_set_state|done]).
  destruct (wf_masterLength_at l1 sg Hwf1 Hsg) as [ml Hml]. rewrite Hml; simpl.
  eexists; split; [reflexivity|]. split.
  - apply wf_store_track. destruct (ml <? _); [by apply wf_store_masterLength|done].
  - repeat split; simpl; subst l1.
    + destruct (ml <? _), (SAMPLE_LIMIT <? _); done.
    + destruct (ml <? _), (SAMPLE_LIMIT <? _); done.
    + destruct (ml <? _), (SAMPLE_LIMIT <? _); done.
    + destruct (ml <? _), (SAMPLE_LIMIT <? _); done.
    + intros j Hj. rewrite track_at_store_ne by lia.
      destruct (ml <? _), (SAMPLE_LIMIT <? _); done.
Qed.

Lemma updateIndices_play_total (sg idx : Z) (track : Track) (l : MasterLooper) :
  wf_looper l -> 0 <= sg < NUM_GROUPS -> 0 <= idx < NUM_TRACKS ->
  exists track',
    updateIndices_play sg idx track l = Some (store_track idx track' l) /\
    endIdx track' = endIdx track /\ startIdx track' = startIdx track /\
    trk_state track' = trk_state track /\ repeat track' = repeat track /\
    channelLeft track' = channelLeft track /\ channelRight track' = channelRight track.
Proof.
  intros Hwf Hsg Hidx. unfold updateIndices_play.
  destruct (wf_masterLength_at l sg Hwf Hsg) as [ml Hml]. rewrite Hml; simpl.
  eexists; split; [reflexivity|].
  destruct (ml <? _), (repeat track && _); done.
Qed.

Lemma same_except_track_store (idx : Z) (v : Track) (l : MasterLooper) :
  0 <= idx -> same_except_track idx l (store_track idx v l).
Proof.
  intros H. repeat split; try done. intros j Hj. by apply track_at_store_ne.
Qed.

Lemma same_except_track_refl (idx : Z) (l : MasterLooper) : same_except_track idx l l.
Proof. by repeat split. Qed.

Lemma updateIndices_body_total (sg st nframes idx : Z) (l : MasterLooper) :
  wf_looper l -> 0 <= sg < NUM_GROUPS -> 0 <= idx < NUM_TRACKS ->
  exists l', updateIndices_body sg st nframes idx l = Some l' /\ wf_looper l' /\
             same_except_track idx l l'.
Proof.
  intros Hwf Hsg Hidx. unfold updateIndices_body.
  destruct (wf_grouped l sg idx Hwf Hsg Hidx) as [[|] ->].
  2:{ exists l. split; [done|]. split; [done|]. apply same_except_track_refl. }
  destruct (wf_track_at l idx Hwf Hidx) as [track ->]; simpl.
  destruct (TrackState_eqb _ _).
  { exists l. split; [done|]. split; [done|]. apply same_except_track_refl. }
  destruct ((st =? idx) && _).
  - by apply updateIndices_record_total.
  - destruct (updateIndices_play_total sg idx
                (set_currIdx (u32 (currIdx track + nframes)) track) l Hwf Hsg Hidx)
      as (track' & -> & _).
    eexists; split; [reflexivity|]. split; [by apply wf_store_track|].
    apply same_except_track_store. lia.
Qed.

Lemma SAMPLE_LIMIT_value : SAMPLE_LIMIT = 2646000.
Proof. reflexivity. Qed.

(** The master index after the advance and the clamp. *)
Lemma updateIndices_master_spec (l : MasterLooper) (nframes : Z) :
  let l1 := updateIndices_master l nframes in
  0 <= masterCurrIdx l1 <= SAMPLE_LIMIT /\
  (groupedTracks l1 = groupedTracks l /\ selectedTrack l1 = selectedTrack l /\
   selectedGroup l1 = selectedGroup l /\ state l1 = state l /\
   masterLength l1 = masterLength l) /\
  tracks l1 = tracks l /\
  (wf_looper l -> wf_looper l1).
Proof.
  unfold updateIndices_master; simpl.
  destruct (Z.ltb_spec SAMPLE_LIMIT (u32 (masterCurrIdx l + nframes))); simpl.
  - rewrite SAMPLE_LIMIT_value. split; [lia|]. split; [done|]. split; [done|].
    by intros (? & ? & ? & ?).
  - pose proof (u32_range (masterCurrIdx l + nframes)).
    split; [lia|]. split; [done|]. split; [done|]. by intros (? & ? & ? & ?).
Qed.

(** C8. After every run of the position engine the master index is at most
    [SAMPLE_LIMIT]: the run is defined on every looper whose arrays have
    their declared sizes and whose selected group is a group, for every frame
    count, in every system state, and the master index it leaves is bounded. *)
Theorem updateIndices_masterCurrIdx_bounded (l : MasterLooper) (nframes : Z) :
  wf_looper l -> 0 <= selectedGroup l < NUM_GROUPS ->
  exists l', updateIndices l nframes = Some l' /\
             0 <= masterCurrIdx l' <= SAMPLE_LIMIT.
Proof.
  intros Hwf Hsg. unfold updateIndices.
  destruct (updateIndices_master_spec l nframes) as (Hm1 & Hfr1 & Htr1 & Hwf1).
  specialize (Hwf1 Hwf).
  destruct (for_each_track_inv
              (fun l' => wf_looper l' /\
                         masterCurrIdx l' = masterCurrIdx (updateIndices_master l nframes))
              (updateIndices_body (selectedGroup l) (selectedTrack l) nframes)
              track_indices (updateIndices_master l nframes))
    as (l2 & -> & Hwf2 & Hm2); [done| |].
  { intros idx s0 Hin [Hwf0 Hm0]. apply track_indices_range in Hin.
    destruct (updateIndices_body_total (selectedGroup l) (selectedTrack l) nframes
                idx s0 Hwf0 Hsg Hin) as (s1 & Hb & Hwf' & Hm' & _).
    exists s1. split; [done|]. split; [done|congruence]. }
  simpl.
  destruct (wf_masterLength_at l2 (selectedGroup l) Hwf2 Hsg) as [ml ->]; simpl.
  eexists; split; [reflexivity|].
  destruct (_ && _); simpl; [rewrite SAMPLE_LIMIT_value|]; lia.
Qed.

Lemma updateIndices_masterCurrIdx_bounded_witness :
  exists l', updateIndices (buffer_full_looper SYSTEM_STATE_RECORDING) 128 = Some l' /\
             0 <= masterCurrIdx l' <= SAMPLE_LIMIT.
Proof.
  apply (updateIndices_masterCurrIdx_bounded (buffer_full_looper SYSTEM_STATE_RECORDING) 128).
  - solve_wf.
  - vm_compute. split; [discriminate|reflexivity].
Defined.

(** *** One track through the loop of the position engine *)

Lemma engine_frame_refl (l : MasterLooper) : engine_frame l l.
Proof. by repeat split. Qed.

Lemma engine_frame_trans (l1 l2 l3 : MasterLooper) :
  engine_frame l1 l2 -> engine_frame l2 l3 -> engine_frame l1 l3.
Proof.
  intros (? & ? & ? & ? & ? & ?) (? & ? & ? & ? & ? & ?).
  repeat split; congruence.
Qed.

(** An iteration that takes the playback branch. *)
Lemma updateIndices_body_play_frame (sg st nframes i : Z) (l : MasterLooper) :
  wf_looper l -> 0 <= sg < NUM_GROUPS -> 0 <= i < NUM_TRACKS ->
  st <> i \/ engine_records (state l) = false ->
  exists l', updateIndices_body sg st nframes i l = Some l' /\ wf_looper l' /\
             engine_frame l l' /\ (forall j, j <> i -> track_at l' j = track_at l j).
Proof.
  intros Hwf Hsg Hi Hplay. unfold updateIndices_body.
  destruct (wf_grouped l sg i Hwf Hsg Hi) as [[|] ->].
  2:{ exists l. split; [done|]. split; [done|]. split; [apply engine_frame_refl|done]. }
  destruct (wf_track_at l i Hwf Hi) as [track ->]; simpl.
  destruct (TrackState_eqb _ _).
  { exists l. split; [done|]. split; [done|]. split; [apply engine_frame_refl|done]. }
  assert (Hc : (st =? i) && (SystemStates_eqb (state l) SYSTEM_STATE_CALIBRATION ||
                 SystemStates_eqb (state l) SYSTEM_STATE_RECORDING) = false).
  { destruct Hplay as [Hne|Hst].
    - destruct (Z.eqb_spec st i); [done|reflexivity].
    - unfold engine_records in Hst. rewrite Hst. apply andb_false_r. }
  rewrite Hc.
  destruct (updateIndices_play_total sg i
              (set_currIdx (u32 (currIdx track + nframes)) track) l Hwf Hsg Hi)
    as (track' & -> & _).
  eexists; split; [reflexivity|]. split; [by apply wf_store_track|].
  split; [by repeat split|].
  intros j Hj. apply track_at_store_ne; lia.
Qed.

(** The iterations for the other tracks leave track [idx] and the control
    part alone, provided none of them takes the recording branch. *)
Lemma updateIndices_others (sg st nframes idx : Z) (idxs : list Z) (l : MasterLooper) :
  (forall i, In i idxs -> 0 <= i < NUM_TRACKS) -> ~ In idx idxs ->
  st = idx \/ engine_records (state l) = false ->
  wf_looper l -> 0 <= sg < NUM_GROUPS ->
  exists l', for_each_track (updateIndices_body sg st nframes) idxs l = Some l' /\
             wf_looper l' /\ engine_frame l l' /\ track_at l' idx = track_at l idx.
Proof.
  intros Hrange Hnotin Hplay Hwf Hsg.
  apply (for_each_track_inv
           (fun l' => wf_looper l' /\ engine_frame l l' /\
                      track_at l' idx = track_at l idx)).
  { split; [done|]. split; [apply engine_frame_refl|done]. }
  intros i s0 Hin (Hwf0 & Hfr0 & Htr0).
  destruct (updateIndices_body_play_frame sg st nframes i s0 Hwf0 Hsg (Hrange i Hin))
    as (s1 & Hb & Hwf1 & Hfr1 & Htr1).
  { destruct Hplay as [->|Hst].
    - left. intros ->. contradiction.
    - right. destruct Hfr0 as (_ & _ & _ & _ & -> & _). done. }
  exists s1. split; [done|]. split; [done|].
  split; [by eapply engine_frame_trans|].
  rewrite Htr1; [done|]. intros ->. contradiction.
Qed.

(** The run of the position engine seen from one track: the iterations
    before it ([l_pre]), its own iteration ([l_mid]) and the rest. *)
Lemma updateIndices_at (l : MasterLooper) (nframes idx : Z) :
  wf_looper l -> 0 <= selectedGroup l < NUM_GROUPS -> 0 <= idx < NUM_TRACKS ->
  selectedTrack l = idx \/ engine_records (state l) = false ->
  exists l_pre l_mid l',
    updateIndices l nframes = Some l' /\
    wf_looper l_pre /\
    engine_frame (updateIndices_master l nframes) l_pre /\
    track_at l_pre idx = track_at l idx /\
    updateIndices_body (selectedGroup l) (selectedTrack l) nframes idx l_pre
      = Some l_mid /\
    track_at l' idx = track_at l_mid idx /\
    state l' = state l_mid /\ masterLength l' = masterLength l_mid.
Proof.
  intros Hwf Hsg Hidx Hplay. unfold updateIndices.
  destruct (updateIndices_master_spec l nframes)
    as (Hm1 & (Hg1 & Hst1 & Hsg1 & Hs1 & Hml1) & Htr1 & Hwf1).
  specialize (Hwf1 Hwf).
  set (l1 := updateIndices_master l nframes) in *.
  destruct (track_indices_split idx Hidx) as (pre & post & -> & Hnpre & Hnpost & Hrpre & Hrpost).
  rewrite for_each_track_app.
  destruct (updateIndices_others (selectedGroup l) (selectedTrack l) nframes idx pre l1)
    as (l_pre & -> & Hwfp & Hfrp & Htrp); try done.
  { by rewrite Hs1. }
  simpl.
  destruct (updateIndices_body_total (selectedGroup l) (selectedTrack l) nframes idx
              l_pre Hwfp Hsg Hidx) as (l_mid & Hmid & Hwfm & Hsame).
  rewrite Hmid; simpl.
  destruct (updateIndices_others (selectedGroup l) (selectedTrack l) nframes idx post l_mid)
    as (l_post & -> & Hwfq & Hfrq & Htrq); try done.
  { destruct Hplay as [Heq|Hno]; [by left|].
    destruct (Z.eq_dec (selectedTrack l) idx) as [Heq|Hne]; [by left|]. right.
    destruct (updateIndices_body_play_frame (selectedGroup l) (selectedTrack l) nframes
                idx l_pre Hwfp Hsg Hidx) as (l_mid' & Hmid' & _ & Hfr' & _); [by left|].
    rewrite Hmid in Hmid'. injection Hmid' as <-.
    destruct Hfr' as (_ & _ & _ & _ & -> & _).
    destruct Hfrp as (_ & _ & _ & _ & -> & _). by rewrite Hs1. }
  simpl.
  destruct (wf_masterLength_at l_post (selectedGroup l) Hwfq Hsg) as [ml ->]; simpl.
  exists l_pre, l_mid. eexists. split; [reflexivity|].
  split; [done|]. split; [done|].
  split; [rewrite Htrp; unfold track_at; by rewrite Htr1|].
  split; [done|].
  destruct Hfrq as (_ & _ & _ & _ & Hsq & Hmlq).
  destruct (_ && _); simpl; done.
Qed.

(** *** Buffer full while recording *)

Lemma grouped_frame (l l' : MasterLooper) (g t : Z) :
  groupedTracks l' = groupedTracks l -> grouped l' g t = grouped l g t.
Proof. intros H. unfold grouped. by rewrite H. Qed.

Lemma masterLength_at_frame (l l' : MasterLooper) (g : Z) :
  masterLength l' = masterLength l -> masterLength_at l' g = masterLength_at l g.
Proof. intros H. unfold masterLength_at. by rewrite H. Qed.

(** A recording track that reaches the end of its buffer: the position
    engine clamps its position, switches the system to playback and keeps
    the captured samples and the track's end. *)
Lemma updateIndices_recording_buffer_full (l : MasterLooper) (nframes : Z) (t : Track) :
  wf_looper l -> 0 <= selectedGroup l < NUM_GROUPS ->
  0 <= selectedTrack l < NUM_TRACKS ->
  state l = SYSTEM_STATE_RECORDING ->
  grouped l (selectedGroup l) (selectedTrack l) = Some true ->
  track_at l (selectedTrack l) = Some t ->
  trk_state t <> TRACK_STATE_OFF ->
  0 <= currIdx t -> currIdx t + nframes < 4294967296 ->
  SAMPLE_LIMIT < currIdx t + nframes ->
  exists l' t',
    updateIndices l nframes = Some l' /\
    track_at l' (selectedTrack l) = Some t' /\
    currIdx t' = SAMPLE_LIMIT /\
    state l' = SYSTEM_STATE_PLAYBACK /\
    endIdx t' = Z.max (endIdx t) SAMPLE_LIMIT /\
    channelLeft t' = channelLeft t /\ channelRight t' = channelRight t /\
    startIdx t' = startIdx t.
Proof.
  intros Hwf Hsg Hst Hrec Hgrp Htrk Hoff H0 Hno Hfull.
  pose proof SAMPLE_LIMIT_value as HSL.
  destruct (updateIndices_at l nframes (selectedTrack l) Hwf Hsg Hst)
    as (l_pre & l_mid & l' & Hrun & Hwfp & Hfrp & Htrp & Hmid & Htr' & Hst' & _);
    [by left|].
  destruct (updateIndices_master_spec l nframes) as (_ & (Hg1 & _ & _ & Hs1 & _) & _ & _).
  destruct Hfrp as (_ & Hgp & _ & _ & Hsp & _).
  unfold updateIndices_body in Hmid.
  rewrite (grouped_frame _ l_pre) in Hmid by done.
  rewrite (grouped_frame _ (updateIndices_master l nframes)) in Hmid by done.
  rewrite Hgrp, Htrp, Htrk in Hmid. simpl in Hmid.
  assert (Hoffb : TrackState_eqb (trk_state t) TRACK_STATE_OFF = false)
    by (destruct (trk_state t); done).
  rewrite Hoffb, Z.eqb_refl, Hsp, Hs1, Hrec in Hmid. simpl in Hmid.
  unfold updateIndices_record in Hmid. simpl in Hmid.
  rewrite (u32_small (currIdx t + nframes)) in Hmid by lia.
  assert (Hf : (SAMPLE_LIMIT <? currIdx t + nframes) = true) by (apply Z.ltb_lt; lia).
  rewrite Hf in Hmid. simpl in Hmid.
  destruct (wf_masterLength_at (set_state SYSTEM_STATE_PLAYBACK l_pre) (selectedGroup l))
    as [ml Hml]; [by apply wf_set_state|done|].
  rewrite Hml in Hmid. simpl in Hmid. injection Hmid as <-.
  assert (Hlen : (Z.to_nat (selectedTrack l) < length (tracks l_pre))%nat).
  { destruct Hwfp as (-> & _). unfold NUM_TRACKS in *. lia. }
  exists l'. eexists. split; [done|].
  split.
  { rewrite Htr'. destruct (ml <? _); apply track_at_store_eq; simpl; try lia; done. }
  split.
  { by destruct (Z.ltb_spec (endIdx t) SAMPLE_LIMIT). }
  split.
  { rewrite Hst'. by destruct (ml <? _). }
  split.
  { destruct (Z.ltb_spec (endIdx t) SAMPLE_LIMIT); simpl; lia. }
  by destruct (Z.ltb_spec (endIdx t) SAMPLE_LIMIT).
Qed.

(** ** Loops with an 8-bit counter *)

(** The indices [k], [k+1], ..., [n-1]. *)
Lemma for_u8_unfold {S : Type} (fuel : nat) (k n : Z) (body : Z -> S -> option S) (s : S) :
  for_u8 fuel k n body s =
  if k <? n then
    match fuel with
    | O => None
    | Datatypes.S fuel' => s' ← body k s; for_u8 fuel' (u8 (k + 1)) n body s'
    end
  else Some s.
Proof. by destruct fuel. Qed.

(** With a frame count that fits the counter, the loop runs its body once
    for each index below the count, in order, and stops. *)
Lemma for_u8_inv {S : Type} (P : Z -> S -> Prop) (body : Z -> S -> option S)
    (n : Z) (fuel : nat) (k : Z) (s : S) :
  0 <= k <= n -> n <= 255 -> (Z.to_nat (n - k) <= fuel)%nat ->
  P k s ->
  (forall i s0, k <= i < n -> P i s0 -> exists s1, body i s0 = Some s1 /\ P (i + 1) s1) ->
  exists s', for_u8 fuel k n body s = Some s' /\ P n s'.
Proof.
  revert k s. induction fuel as [|fuel IH]; intros k s Hk Hn Hfuel HP Hstep.
  - assert (k = n) by lia. subst k. rewrite for_u8_unfold, Z.ltb_irrefl. by exists s.
  - rewrite for_u8_unfold. destruct (Z.ltb_spec k n).
    + destruct (Hstep k s) as (s1 & -> & HP1); [lia|done|]. simpl.
      rewrite u8_small by lia.
      apply IH; [lia|done|lia|done|].
      intros i s0 Hi. apply Hstep. lia.
    + assert (k = n) by lia. subst k. by exists s.
Qed.

(** With a frame count of 256 or more the counter wraps before it reaches
    the count: no amount of fuel lets the loop end. *)
Lemma for_u8_diverges {S : Type} (body : Z -> S -> option S) (n : Z) (fuel : nat)
    (k : Z) (s : S) :
  256 <= n -> 0 <= k < 256 -> for_u8 fuel k n body s = None.
Proof.
  intros Hn. revert k s. induction fuel as [|fuel IH]; intros k s Hk;
    rewrite for_u8_unfold; destruct (Z.ltb_spec k n); try lia; [done|].
  destruct (body k s) as [s1|]; simpl; [|done].
  apply IH. apply u8_range.
Qed.

(** ** Overdub *)

(** The limiter only ever fires on a positive sum. *)
Lemma above_threshold_positive (sum : jack_default_audio_sample_t) :
  above_threshold sum = true ->
  sum = S754_infinity false \/ exists m e, sum = S754_finite false m e.
Proof.
  unfold above_threshold. destruct sum as [s|s| |s m e]; simpl.
  - vm_compute. discriminate.
  - destruct s; vm_compute; [discriminate|by left].
  - vm_compute. discriminate.
  - destruct s; [|right; by exists m, e].
    intros H. exfalso. revert H.
    unfold f64_of_f32, binary_round.
    destruct (shl_align m e (fexp 53 1024 (Z.pos (digits2_pos m) + e))) as [mz ez].
    unfold binary_round_aux.
    destruct (shr_fexp 53 1024 (Z.pos mz) ez loc_Exact) as [mrs' e'].
    destruct (shr_fexp 53 1024 _ e' loc_Exact) as [mrs'' e''].
    destruct (shr_m mrs''); [|destruct (_ <=? _)|]; vm_compute; discriminate.
Qed.

(** What [overdub] leaves in the channel: for a frame count below 256 the
    call returns; each of the [nframes] positions from [toff] holds the sum
    of the input and the old content, scaled by 0.9 when that sum is above
    0.9 * FLT_MAX and unchanged otherwise; the rest of the channel is
    untouched. *)
Lemma overdub_fuel_spec (fuel : nat) (in_ track : buffer) (toff nframes : Z) :
  0 <= nframes <= 255 -> (Z.to_nat nframes <= fuel)%nat ->
  exists track',
    overdub_fuel fuel in_ track toff nframes = Some track' /\
    (forall i, 0 <= i < nframes ->
       track' (toff + i) =
       let sum := f32_add (in_ i) (track (toff + i)) in
       if above_threshold sum then scale_0_9 sum else sum) /\
    (forall j, ~ (toff <= j < toff + nframes) -> track' j = track j).
Proof.
  intros Hn Hfuel. unfold overdub_fuel.
  destruct (for_u8_inv
    (fun k (st : Z * buffer) =>
       fst st = k /\
       (forall i, 0 <= i < k ->
          snd st (toff + i) =
          let sum := f32_add (in_ i) (track (toff + i)) in
          if above_threshold sum then scale_0_9 sum else sum) /\
       (forall j, ~ (toff <= j < toff + k) -> snd st j = track j))
    (overdub_body in_ toff) nframes fuel 0 (0, track))
    as ([p track'] & -> & _ & Hin & Hout); try lia.
  - simpl. split; [done|]. split; [intros; lia|done].
  - intros i [p tr] Hi (Hp & Hin & Hout). simpl in Hp, Hin, Hout. subst p.
    unfold overdub_body. eexists; split; [reflexivity|]. simpl.
    split; [done|]. split.
    + intros i' Hi'. unfold buf_store.
      destruct (Z.eqb_spec (toff + i') (toff + i)) as [Heq|Hne].
      * assert (i' = i) by lia. subst i'. rewrite Hout by lia. done.
      * apply Hin. lia.
    + intros j Hj. unfold buf_store.
      destruct (Z.eqb_spec j (toff + i)); [lia|]. apply Hout. lia.
  - simpl. by exists track'.
Qed.

(** ** Mixdown *)

(** For a frame count below 256 [doMixDown] returns as soon as the track
    sums of every sample are defined; output sample [s] is the track sum of
    [s] plus the live input. *)
Lemma doMixDown_spec (looper : MasterLooper) (inBufferLeft inBufferRight : option buffer)
    (mixL mixR : buffer) (nframes : Z) :
  0 <= nframes <= 255 ->
  (forall s, 0 <= s < nframes -> exists sums, mix_sums looper s = Some sums) ->
  exists mixL' mixR',
    doMixDown looper inBufferLeft inBufferRight mixL mixR nframes = Some (mixL', mixR') /\
    (forall s, 0 <= s < nframes ->
       exists sums, mix_sums looper s = Some sums /\
         mixL' s = add_input inBufferLeft s (fst sums) /\
         mixR' s = add_input inBufferRight s (snd sums)) /\
    (forall j, ~ (0 <= j < nframes) -> mixL' j = mixL j /\ mixR' j = mixR j).
Proof.
  intros Hn Hdef. unfold doMixDown, doMixDown_fuel.
  destruct (for_u8_inv
    (fun k (mix : buffer * buffer) =>
       (forall s, 0 <= s < k ->
          exists sums, mix_sums looper s = Some sums /\
            fst mix s = add_input inBufferLeft s (fst sums) /\
            snd mix s = add_input inBufferRight s (snd sums)) /\
       (forall j, ~ (0 <= j < k) -> fst mix j = mixL j /\ snd mix j = mixR j))
    (doMixDown_sample looper inBufferLeft inBufferRight) nframes U8_LOOP_FUEL 0
    (mixL, mixR)) as ([mL mR] & -> & Hin & Hout); try lia.
  - unfold U8_LOOP_FUEL. lia.
  - simpl. split; [intros; lia|done].
  - intros i [mL mR] Hi (Hin & Hout). simpl in Hin, Hout.
    unfold doMixDown_sample.
    destruct (Hdef i) as (sums & Hsums); [lia|].
    unfold mix_sums in Hsums. rewrite Hsums. simpl.
    eexists; split; [reflexivity|]. simpl. split.
    + intros s Hs. unfold buf_store. destruct (Z.eqb_spec s i) as [->|Hne].
      * exists sums. by split.
      * apply Hin. lia.
    + intros j Hj. unfold buf_store. destruct (Z.eqb_spec j i); [lia|].
      apply Hout. lia.
  - by exists mL, mR.
Qed.

(** A NULL entry of the group contributes nothing to a sum. *)
Lemma doMixDown_track_null (l : MasterLooper) (sg s i : Z)
    (sums : jack_default_audio_sample_t * jack_default_audio_sample_t) :
  grouped l sg i = Some false -> doMixDown_track l sg s i sums = Some sums.
Proof. intros H. unfold doMixDown_track. destruct sums. by rewrite H. Qed.

Lemma doMixDown_nulls (l : MasterLooper) (sg s : Z) (idxs : list Z)
    (sums : jack_default_audio_sample_t * jack_default_audio_sample_t) :
  (forall i, In i idxs -> grouped l sg i = Some false) ->
  for_each_track (doMixDown_track l sg s) idxs sums = Some sums.
Proof.
  intros H. induction idxs as [|i idxs IH]; simpl; [done|].
  rewrite doMixDown_track_null by (apply H; by left). simpl.
  apply IH. intros j Hj. apply H. by right.
Qed.

(** The entries of a row with a single member. *)
Lemma grouped_only_member (l : MasterLooper) (g idx j : Z) :
  0 <= g -> 0 <= idx < NUM_TRACKS -> 0 <= j < NUM_TRACKS ->
  groupedTracks l !! Z.to_nat g = Some (only_member idx) ->
  grouped l g j = Some (bool_decide (j = idx)).
Proof.
  intros Hg Hidx Hj Hrow. unfold grouped.
  destruct (Z.ltb_spec g 0); [lia|]. destruct (Z.ltb_spec j 0); [lia|]. simpl.
  rewrite Hrow. simpl. unfold only_member, NUM_TRACKS in *.
  destruct (decide (j = idx)) as [->|Hne].
  - rewrite bool_decide_eq_true_2 by done.
    apply list_lookup_insert_eq. rewrite length_replicate. lia.
  - rewrite bool_decide_eq_false_2 by done.
    rewrite list_lookup_insert_ne by lia.
    apply lookup_replicate_2. lia.
Qed.

(** The track sums when the selected group has a single member. *)
Lemma mix_sums_only_member (l : MasterLooper) (idx s : Z) :
  0 <= selectedGroup l -> 0 <= idx < NUM_TRACKS ->
  groupedTracks l !! Z.to_nat (selectedGroup l) = Some (only_member idx) ->
  mix_sums l s =
  doMixDown_track l (selectedGroup l) s idx (f32_zero, f32_zero).
Proof.
  intros Hsg Hidx Hrow. unfold mix_sums.
  destruct (track_indices_split idx Hidx) as (pre & post & -> & Hnpre & Hnpost & Hrpre & Hrpost).
  rewrite for_each_track_app. rewrite doMixDown_nulls.
  2:{ intros i Hi. rewrite (grouped_only_member l _ idx) by auto.
      rewrite bool_decide_eq_false_2; [done|]. intros ->. contradiction. }
  change (for_each_track (doMixDown_track l (selectedGroup l) s) (idx :: post)
            (f32_zero, f32_zero) =
          doMixDown_track l (selectedGroup l) s idx (f32_zero, f32_zero)).
  rewrite for_each_track_cons.
  generalize (doMixDown_track l (selectedGroup l) s idx).
  intros body_idx. simpl.
  destruct (body_idx (f32_zero, f32_zero)) as [sums|]; simpl; [|done].
  apply doMixDown_nulls.
  intros i Hi. rewrite (grouped_only_member l _ idx) by auto.
  rewrite bool_decide_eq_false_2; [done|]. intros ->. contradiction.
Qed.

(** ** The repeat-wrap scenario *)

(** The position engine on the scenario's track: the position passes the
    end of the loop and is put back on [startIdx]. *)
Lemma updateIndices_repeat_wrap (l : MasterLooper) (idx : Z) (t : Track) :
  wf_looper l -> 0 <= selectedGroup l < NUM_GROUPS -> 0 <= idx < NUM_TRACKS ->
  state l = SYSTEM_STATE_PLAYBACK ->
  grouped l (selectedGroup l) idx = Some true ->
  track_at l idx = Some t -> repeat_wrap_track t ->
  exists l' t',
    updateIndices l 128 = Some l' /\ track_at l' idx = Some t' /\
    currIdx t' = 0 /\ endIdx t' = 256 /\ startIdx t' = 0 /\
    state l' = SYSTEM_STATE_PLAYBACK.
Proof.
  intros Hwf Hsg Hidx Hplay Hgrp Htrk (Hrep & Hend & Hstart & Hts & Hcur).
  destruct (updateIndices_at l 128 idx Hwf Hsg Hidx)
    as (l_pre & l_mid & l' & Hrun & Hwfp & Hfrp & Htrp & Hmid & Htr' & Hst' & _).
  { right. by rewrite Hplay. }
  destruct (updateIndices_master_spec l 128) as (_ & (Hg1 & _ & _ & Hs1 & _) & _ & _).
  destruct Hfrp as (_ & Hgp & _ & _ & Hsp & _).
  unfold updateIndices_body in Hmid.
  rewrite (grouped_frame _ l_pre) in Hmid by done.
  rewrite (grouped_frame _ (updateIndices_master l 128)) in Hmid by done.
  rewrite Hgrp, Htrp, Htrk in Hmid. simpl in Hmid.
  rewrite Hts, Hsp, Hs1, Hplay in Hmid. simpl in Hmid.
  rewrite andb_false_r in Hmid.
  unfold updateIndices_play in Hmid. simpl in Hmid.
  rewrite Hrep, Hend, Hcur, Hstart in Hmid. simpl in Hmid.
  destruct (wf_masterLength_at l_pre (selectedGroup l) Hwfp Hsg) as [ml Hml].
  rewrite Hml in Hmid. simpl in Hmid. injection Hmid as <-.
  assert (Hlen : (Z.to_nat idx < length (tracks l_pre))%nat).
  { destruct Hwfp as (-> & _). unfold NUM_TRACKS in *. lia. }
  exists l'. eexists. split; [done|]. split.
  { rewrite Htr'. apply track_at_store_eq; [lia|done]. }
  rewrite Hst'. simpl. rewrite Hsp, Hs1.
  destruct (ml <? _); simpl; rewrite ?Hrep; done.
Qed.

(** The track sums of the scenario: the track is read at [200 + s] as long
    as that index is at most [endIdx], and not at all afterwards. *)
Lemma mix_sums_repeat_wrap (l : MasterLooper) (idx s : Z) (t : Track) :
  0 <= selectedGroup l -> 0 <= idx < NUM_TRACKS ->
  groupedTracks l !! Z.to_nat (selectedGroup l) = Some (only_member idx) ->
  track_at l idx = Some t -> repeat_wrap_track t ->
  0 <= s < 128 ->
  mix_sums l s =
  Some (if s <=? 56
        then (limit (f32_add f32_zero (channelLeft t (200 + s))),
              limit (f32_add f32_zero (channelRight t (200 + s))))
        else (f32_zero, f32_zero)).
Proof.
  intros Hsg Hidx Hrow Htrk (Hrep & Hend & Hstart & Hts & Hcur) Hs.
  rewrite (mix_sums_only_member l idx) by done.
  unfold doMixDown_track.
  rewrite (grouped_only_member l _ idx idx) by (done || lia).
  rewrite bool_decide_eq_true_2 by done.
  rewrite Htrk. cbn [mbind option_bind].
  rewrite Hstart, Hcur, Hend, Hts. cbn [TrackState_eqb negb andb Z.leb Z.ltb Z.compare Pos.compare Pos.compare_cont].
  rewrite (u32_small (200 + s)) by lia.
  destruct (Z.leb_spec s 56); destruct (Z.leb_spec (200 + s) 256); try lia; done.
Qed.

Lemma doMixDown_repeat_wrap (l : MasterLooper) (idx : Z) (t : Track)
    (inBufferLeft inBufferRight : option buffer) (mixL mixR : buffer) :
  0 <= selectedGroup l -> 0 <= idx < NUM_TRACKS ->
  groupedTracks l !! Z.to_nat (selectedGroup l) = Some (only_member idx) ->
  track_at l idx = Some t -> repeat_wrap_track t ->
  exists mixL' mixR',
    doMixDown l inBufferLeft inBufferRight mixL mixR 128 = Some (mixL', mixR') /\
    (forall i, 0 <= i <= 56 ->
       mixL' i = add_input inBufferLeft i
                   (limit (f32_add f32_zero (channelLeft t (200 + i))))) /\
    (forall i, 57 <= i < 128 -> mixL' i = add_input inBufferLeft i f32_zero).
Proof.
  intros Hsg Hidx Hrow Htrk Ht.
  destruct (doMixDown_spec l inBufferLeft inBufferRight mixL mixR 128)
    as (mL & mR & Hrun & Hin & _); [lia| |].
  { intros s Hs. eexists. by apply (mix_sums_repeat_wrap l idx s t). }
  exists mL, mR. split; [done|]. split.
  - intros i Hi. destruct (Hin i) as (sums & Hsums & HL & _); [lia|].
    rewrite (mix_sums_repeat_wrap l idx i t) in Hsums by (done || lia).
    injection Hsums as <-. rewrite HL.
    destruct (Z.leb_spec i 56); [done|lia].
  - intros i Hi. destruct (Hin i) as (sums & Hsums & HL & _); [lia|].
    rewrite (mix_sums_repeat_wrap l idx i t) in Hsums by (done || lia).
    injection Hsums as <-. rewrite HL.
    destruct (Z.leb_spec i 56); [lia|done].
Qed.

Lemma wf_set_controlLocked (v : bool) (l : MasterLooper) :
  wf_looper l -> wf_looper (set_controlLocked v l).
Proof. by intros (? & ? & ? & ?). Qed.

Lemma memcpy_inside (dst src : buffer) (byteSize i : Z) :
  0 <= i < byteSize / SIZEOF_SAMPLE -> memcpy dst 0 src byteSize i = src i.
Proof.
  intros H. unfold memcpy.
  destruct (Z.leb_spec 0 i); [|lia]. destruct (Z.ltb_spec i (0 + byteSize / SIZEOF_SAMPLE)); [|lia].
  simpl. f_equal. lia.
Qed.


(** C3 (amended). One playback cycle of 128 frames on the repeat-wrap
    scenario (the track is the only member of the selected group, no command
    pending, no frame delay): the cycle is defined; the track's position
    ends on [startIdx], that is 0, not on 72; output samples 0..55 are the
    track's samples 200..255 summed with the live input, and output samples
    57..127 are the live input alone: the read position does not wrap
    inside the cycle. *)
Theorem repeat_wrap_cycle (s : System) (a : AudioBuffers) (idx : Z) (t : Track) :
  wf_looper (looper s) ->
  0 <= selectedGroup (looper s) < NUM_GROUPS -> 0 <= idx < NUM_TRACKS ->
  cc_updated (cc s) = false ->
  state (looper s) = SYSTEM_STATE_PLAYBACK ->
  rec_frame_delay (looper s) = 0 -> play_frame_delay (looper s) = 0 ->
  groupedTracks (looper s) !! Z.to_nat (selectedGroup (looper s)) = Some (only_member idx) ->
  track_at (looper s) idx = Some t -> repeat_wrap_track t ->
  exists s' a' t',
    playRecord s a 128 = Some (s', a') /\
    track_at (looper s') idx = Some t' /\ currIdx t' = 0 /\
    (forall i, 0 <= i <= 55 ->
       outL a' i = limit (f32_add (limit (f32_add f32_zero (channelLeft t (200 + i))))
                                  (inL a i))) /\
    (forall i, 57 <= i < 128 -> outL a' i = limit (f32_add f32_zero (inL a i))).
Proof.
  intros Hwf Hsg Hidx Hupd Hplay Hrec Hpfd Hrow Htrk Ht.
  unfold playRecord, controlStateCheck. rewrite Hupd. cbn [mbind option_bind].
  set (l := set_controlLocked true (looper s)).
  assert (Hwfl : wf_looper l) by by apply wf_set_controlLocked.
  assert (Hbs : initial_byteSize l 128 = 512).
  { unfold initial_byteSize. subst l. simpl. rewrite Hrec, Hpfd. reflexivity. }
  rewrite Hbs.
  change (state l) with (state (looper s)). rewrite Hplay.
  unfold playRecord_playback.
  change (play_frame_delay l) with (play_frame_delay (looper s)). rewrite Hpfd.
  cbn [Z.ltb Z.compare mbind option_bind].
  destruct (doMixDown_repeat_wrap l idx t (Some (inL a)) (Some (outL a))
              (mixdownLeft a) (mixdownRight a)) as (mL & mR & -> & Hlow & Hhigh);
    try done; [simpl; lia|].
  cbn [mbind option_bind].
  destruct (updateIndices_repeat_wrap l idx t) as (l' & t' & Hrun & Htr' & Hc' & _);
    try done.
  { rewrite (grouped_only_member l _ idx idx) by (done || simpl; lia).
    by rewrite bool_decide_eq_true_2. }
  change (state l) with (state (looper s)). rewrite Hplay.
  cbn [SystemStates_eqb negb]. rewrite Hrun. cbn [mbind option_bind].
  eexists _, _, t'. split; [reflexivity|].
  split; [exact Htr'|]. split; [exact Hc'|].
  split.
  - intros i Hi.
    destruct (input_portR l && output_portR l), (negb (input_portR l) && output_portR l);
      cbn [outL set_outL set_outR set_mixdown mixdownLeft fst];
      (rewrite memcpy_inside by (change (512 / SIZEOF_SAMPLE) with 128; lia));
      by rewrite Hlow by lia.
  - intros i Hi.
    destruct (input_portR l && output_portR l), (negb (input_portR l) && output_portR l);
      cbn [outL set_outL set_outR set_mixdown mixdownLeft fst];
      (rewrite memcpy_inside by (change (512 / SIZEOF_SAMPLE) with 128; lia));
      by rewrite Hhigh by lia.
Qed.


Lemma repeat_wrap_cycle_witness :
  exists s' a' t',
    playRecord repeat_wrap_system silent_audio 128 = Some (s', a') /\
    track_at (looper s') 0 = Some t' /\ currIdx t' = 0 /\
    (forall i, 0 <= i <= 55 ->
       outL a' i =
       limit (f32_add (limit (f32_add f32_zero (channelLeft repeat_wrap_example (200 + i))))
                      (inL silent_audio i))) /\
    (forall i, 57 <= i < 128 -> outL a' i = limit (f32_add f32_zero (inL silent_audio i))).
Proof.
  apply (repeat_wrap_cycle repeat_wrap_system silent_audio 0 repeat_wrap_example);
    try reflexivity.
  - solve_wf.
  - vm_compute. split; [discriminate|reflexivity].
  - vm_compute. split; [discriminate|reflexivity].
  - repeat split.
Defined.

(** The scenario on the concrete looper: after the cycle the position of
    track 0 is 0, and output sample 57 is silent although sample 1 of the
    track is 1.0. *)
Lemma repeat_wrap_example_observation :
  cycle_observation (playRecord repeat_wrap_system silent_audio 128) 57
  = Some (0, f32_zero) /\
  channelLeft repeat_wrap_example 1 = f32_one.
Proof. split; vm_compute; reflexivity. Qed.

(** C3 (as stated) fails: on the scenario the cycle does not leave the
    position on 72 with the output made of samples 200..255 followed by
    samples 0..71. *)
Lemma repeat_wrap_claim_fails :
  ~ (exists s' a' t',
       playRecord repeat_wrap_system silent_audio 128 = Some (s', a') /\
       track_at (looper s') 0 = Some t' /\ currIdx t' = 72 /\
       (forall i, 0 <= i < 56 -> outL a' i = channelLeft repeat_wrap_example (200 + i)) /\
       (forall i, 0 <= i < 72 -> outL a' (56 + i) = channelLeft repeat_wrap_example i)).
Proof.
  intros (s' & a' & t' & Hrun & Htr & Hcur & _).
  destruct repeat_wrap_example_observation as [Hobs _].
  rewrite Hrun in Hobs. unfold cycle_observation in Hobs. simpl in Hobs.
  rewrite Htr in Hobs. simpl in Hobs. injection Hobs as Hc _. lia.
Qed.

(** ** Buffer full *)

(** The buffer-full scenario in Recording state: the position is clamped to
    [SAMPLE_LIMIT], the track's end follows it and the system is in
    Playback. *)
Lemma recording_buffer_full_scenario :
  engine_observation (updateIndices (buffer_full_looper SYSTEM_STATE_RECORDING) 128)
  = Some (SAMPLE_LIMIT, SAMPLE_LIMIT, SYSTEM_STATE_PLAYBACK).
Proof. vm_compute. reflexivity. Qed.

(** C2 (code defect). The same scenario in Overdubbing state: the guard of
    the recording branch names CALIBRATION where its comments name
    overdubbing, so the selected track takes the playback branch; its
    position is not clamped to [SAMPLE_LIMIT] (it is reset to 0 with the
    master) and the system stays in Overdubbing. *)
Theorem overdubbing_buffer_full_unguarded :
  engine_observation (updateIndices (buffer_full_looper SYSTEM_STATE_OVERDUBBING) 128)
  = Some (0, SAMPLE_LIMIT - 64, SYSTEM_STATE_OVERDUBBING).
Proof. vm_compute. reflexivity. Qed.

(** ** Overdub *)

(** C4 (amended). For every input buffer, channel, offset and frame count
    below 256, [overdub] returns and stores at [toff + i], for each
    i < nframes, the single-precision sum of the input sample and the old
    content, scaled by 0.9 when the sum is greater than 0.9 * FLT_MAX and
    as it is otherwise; in particular a negative sum is stored unscaled
    whatever its magnitude.  The rest of the channel is unchanged. *)
Theorem overdub_one_sided_limit (in_ track : buffer) (toff nframes : Z) :
  0 <= nframes <= 255 ->
  exists track',
    overdub in_ track toff nframes = Some track' /\
    (forall i, 0 <= i < nframes ->
       let sum := f32_add (in_ i) (track (toff + i)) in
       track' (toff + i) = (if above_threshold sum then scale_0_9 sum else sum) /\
       (SFltb sum f32_zero = true -> track' (toff + i) = sum)) /\
    (forall j, ~ (toff <= j < toff + nframes) -> track' j = track j).
Proof.
  intros Hn.
  destruct (overdub_fuel_spec U8_LOOP_FUEL in_ track toff nframes Hn)
    as (track' & Hrun & Hin & Hout).
  { unfold U8_LOOP_FUEL. lia. }
  exists track'. split; [exact Hrun|]. split; [|exact Hout].
  intros i Hi. simpl. split; [by apply Hin|].
  intros Hneg. rewrite Hin by done. simpl.
  destruct (above_threshold _) eqn:Habove; [|done].
  apply above_threshold_positive in Habove as [Heq|(m & e & Heq)];
    rewrite Heq in Hneg; discriminate.
Qed.

Lemma overdub_one_sided_limit_witness :
  exists track',
    overdub silence (fun _ => SFopp FLT_MAX) 0 2 = Some track' /\
    (forall i, 0 <= i < 2 ->
       let sum := f32_add (silence i) (SFopp FLT_MAX) in
       track' (0 + i) = (if above_threshold sum then scale_0_9 sum else sum) /\
       (SFltb sum f32_zero = true -> track' (0 + i) = sum)) /\
    (forall j, ~ (0 <= j < 0 + 2) -> track' j = SFopp FLT_MAX).
Proof.
  apply (overdub_one_sided_limit silence (fun _ => SFopp FLT_MAX) 0 2). lia.
Defined.

(** With 256 frames or more the 8-bit sample counter of [overdub] never
    reaches the frame count. *)
Lemma overdub_diverges (fuel : nat) (in_ track : buffer) (toff nframes : Z) :
  256 <= nframes -> overdub_fuel fuel in_ track toff nframes = None.
Proof.
  intros Hn. unfold overdub_fuel. by rewrite for_u8_diverges by lia.
Qed.

(** C4 (as stated) fails: overdubbing silence onto a sample of -FLT_MAX
    stores -FLT_MAX, although its absolute value exceeds 0.9 * FLT_MAX. *)
Lemma overdub_symmetric_limit_fails :
  ~ (forall (in_ track : buffer) (toff nframes : Z) (track' : buffer),
       overdub in_ track toff nframes = Some track' ->
       forall i, 0 <= i < nframes ->
         track' (toff + i) = symmetric_limit (f32_add (in_ i) (track (toff + i)))).
Proof.
  intros H.
  destruct (overdub_fuel_spec U8_LOOP_FUEL silence (fun _ => SFopp FLT_MAX) 0 1)
    as (track' & Hrun & Hin & _); [lia|unfold U8_LOOP_FUEL; lia|].
  specialize (H _ _ _ _ _ Hrun 0 ltac:(lia)).
  rewrite (Hin 0 ltac:(lia)) in H. vm_compute in H. discriminate.
Qed.

(** ** The sample at [endIdx] *)

(** C5 (code defect). Mixing two frames of a one-sample track: output
    sample 0 is the recorded sample (0), and output sample 1 is the content
    of the buffer at index [endIdx] = 1 (1.0), one past the recorded
    sample: the inner test of [doMixDown] is [trackIdx <= endIdx]. *)
Theorem doMixDown_reads_sample_at_endIdx :
  (mix ← doMixDown end_sample_looper (Some silence) (Some silence) silence silence 2;
   Some (fst mix 0, fst mix 1))
  = Some (f32_zero, channelLeft end_sample_track (endIdx end_sample_track)) /\
  channelLeft end_sample_track (endIdx end_sample_track) = f32_one.
Proof. split; vm_compute; reflexivity. Qed.

(** ** Passthrough *)

(** C1 (code defect). An Overdub command received 28 frames into a cycle
    while the looper is in Passthrough is acknowledged and ignored by the
    state machine, but it leaves [rec_frame_delay] = 28; the next
    passthrough cycle of 128 frames then copies only the first 100 samples:
    output sample 99 is the input (1.0), output sample 100 keeps its old
    content (0) on both channels, and the system is still in Passthrough. *)
Theorem passthrough_truncated_by_frame_delay :
  ('(s1, _) ← controlThread_command 28 overdub_command (mkSystem blank_looper idle_cc);
   '(s, a) ← playRecord s1 constant_input_audio 128;
   Some (rec_frame_delay (looper s1), state (looper s),
         outL a 99, outL a 100, outR a 99, outR a 100))
  = Some (28, SYSTEM_STATE_PASSTHROUGH, f32_one, f32_zero, f32_one, f32_zero) /\
  inL constant_input_audio 100 = f32_one /\ inR constant_input_audio 100 = f32_one.
Proof. repeat split; vm_compute; reflexivity. Qed.

(** Without a pending frame delay the passthrough copy is exact. *)
Lemma passthrough_exact_without_delay (s : System) (a : AudioBuffers) (nframes : Z) :
  cc_updated (cc s) = false ->
  state (looper s) = SYSTEM_STATE_PASSTHROUGH ->
  rec_frame_delay (looper s) = 0 -> play_frame_delay (looper s) = 0 ->
  0 <= nframes < 1073741824 ->
  exists s' a',
    playRecord s a nframes = Some (s', a') /\
    state (looper s') = SYSTEM_STATE_PASSTHROUGH /\
    tracks (looper s') = tracks (looper s) /\
    forall i, 0 <= i < nframes ->
      outL a' i = inL a i /\
      (input_portR (looper s) = true -> output_portR (looper s) = true ->
       outR a' i = inR a i) /\
      (input_portR (looper s) = false -> output_portR (looper s) = true ->
       outR a' i = inL a i).
Proof.
  intros Hupd Hst Hrec Hpfd Hn.
  unfold playRecord, controlStateCheck. rewrite Hupd. cbn [mbind option_bind].
  change (state (set_controlLocked true (looper s))) with (state (looper s)).
  rewrite Hst. cbn [mbind option_bind].
  change (state (set_controlLocked true (looper s))) with (state (looper s)).
  rewrite Hst. cbn [mbind option_bind SystemStates_eqb negb].
  eexists _, _. split; [reflexivity|]. split; [exact Hst|]. split; [reflexivity|].
  intros i Hi.
  assert (Hbs : initial_byteSize (set_controlLocked true (looper s)) nframes / SIZEOF_SAMPLE
                = nframes).
  { unfold initial_byteSize. cbn [rec_frame_delay play_frame_delay set_controlLocked].
    rewrite Hrec, Hpfd. cbn [Z.ltb Z.compare]. unfold SIZEOF_SAMPLE.
    rewrite u32_small by lia. apply Z.div_mul. lia. }
  unfold playRecord_passthrough. cbn [input_portR output_portR set_controlLocked].
  destruct (input_portR (looper s)), (output_portR (looper s));
    cbn [negb andb outL outR inL inR set_outL set_outR];
    (split; [apply memcpy_inside; rewrite Hbs; lia|]);
    (split; intros H1 H2; try discriminate; apply memcpy_inside; rewrite Hbs; lia).
Qed.

(** ** The serial command decoder *)

Lemma processUART_switch_invalid (b0 b1 b2 b3 b4 b5 : Z) (c : ControlContext) (ex : bool) :
  snd (processUART_switch b0 b1 b2 b3 b4 b5 c ex) = negb (recognized_command b0) /\
  (recognized_command b0 = false -> processUART_switch b0 b1 b2 b3 b4 b5 c ex = (c, ex, true)) /\
  cc_updated (fst (fst (processUART_switch b0 b1 b2 b3 b4 b5 c ex))) = cc_updated c.
Proof.
  unfold processUART_switch, recognized_command.
  repeat match goal with
         | |- context [(?x =? ?y) || (?x =? ?z)] =>
             destruct (x =? y); destruct (x =? z); cbn [orb negb]
         end;
    try (destruct (is_group_subcmd b3));
    try (destruct (b5 =? SERIAL_CMD_OPTION_REPEAT_ON));
    try (destruct (b5 =? SERIAL_CMD_OPTION_REPEAT_OFF));
    repeat split; try done; try discriminate.
Qed.

(** C9 (amended). For every six-byte command:
    - when the last byte is not CR, 'r' or 's' the command is dropped: no
      byte is written and nothing changes;
    - otherwise exactly one byte is written, ACK 'p' or NAK 'f'.  It is ACK
      exactly when the first character is recognized and the 8-bit track and
      group fields of the control context, as the command leaves them, pass
      the bounds check; an ACK sets the [updated] flag; a NAK leaves the flag
      as it was; an unrecognized first character leaves the whole control
      context as it was. *)
Theorem processUART_response (s : System) (b0 b1 b2 b3 b4 b5 : Z) :
  let buf := [b0; b1; b2; b3; b4; b5] in
  (valid_terminator (looper s) b5 = false -> processUART buf s = Some (s, [])) /\
  (valid_terminator (looper s) b5 = true ->
   exists s' r,
     processUART buf s = Some (s', [r]) /\
     (r = SERIAL_CMD_ACCEPTED \/ r = SERIAL_CMD_REJECTED) /\
     (r = SERIAL_CMD_ACCEPTED <->
      recognized_command b0 = true /\ cc_in_range (cc s') = true) /\
     (r = SERIAL_CMD_ACCEPTED -> cc_updated (cc s') = true) /\
     (r = SERIAL_CMD_REJECTED -> cc_updated (cc s') = cc_updated (cc s)) /\
     (recognized_command b0 = false -> cc s' = cc s)).
Proof.
  intros buf. unfold processUART, valid_terminator. subst buf.
  cbn [lookup list_lookup SERIAL_CMD_OFFSET SERIAL_TRACK_UPPER_DIGIT
       SERIAL_TRACK_LOWER_DIGIT SERIAL_SUB_CMD_OFFSET SERIAL_TRACK_GROUP_LOWER_DIGIT
       SERIAL_LAST_CHAR mbind option_bind].
  destruct (_ && negb (b5 =? SERIAL_CMD_OPTION_REPEAT_OFF)).
  { split; [done|]. intros H; discriminate. }
  split; [intros H; discriminate|]. intros _.
  destruct (processUART_switch_invalid b0 b1 b2 b3 b4 b5 (cc s) (exitNow (looper s)))
    as (Hinv & Hunk & Hupd).
  destruct (processUART_switch b0 b1 b2 b3 b4 b5 (cc s) (exitNow (looper s)))
    as [[c ex] invalidData].
  cbn [fst snd] in Hinv, Hupd.
  fold (cc_in_range c).
  destruct (cc_in_range c) eqn:Hrange, invalidData; cbn [andb negb].
  - eexists _, _. split; [reflexivity|]. cbn [cc].
    split; [by right|]. rewrite Hrange.
    split; [split; [discriminate|intros [Hr _]; by rewrite Hr in Hinv]|].
    split; [discriminate|]. split; [done|].
    intros Hr. specialize (Hunk Hr). by injection Hunk as ->.
  - eexists _, _. split; [reflexivity|]. cbn [cc cc_updated set_cc_updated].
    split; [by left|].
    split; [split; [intros _; split; [by destruct (recognized_command b0)|]|done]|].
    { unfold cc_in_range in *. exact Hrange. }
    split; [done|]. split; [discriminate|].
    intros Hr. rewrite Hr in Hinv. discriminate.
  - eexists _, _. split; [reflexivity|]. cbn [cc].
    split; [by right|]. rewrite Hrange.
    split; [split; [discriminate|intros [_ ?]; discriminate]|].
    split; [discriminate|]. split; [done|].
    intros Hr. specialize (Hunk Hr). by injection Hunk as ->.
  - eexists _, _. split; [reflexivity|]. cbn [cc].
    split; [by right|]. rewrite Hrange.
    split; [split; [discriminate|intros [_ ?]; discriminate]|].
    split; [discriminate|]. split; [done|].
    intros Hr. specialize (Hunk Hr). discriminate.
Qed.

Lemma processUART_response_witness :
  exists s' r,
    processUART [114; 48; 51; 103; 49; 13] (mkSystem blank_looper idle_cc) = Some (s', [r]) /\
    (r = SERIAL_CMD_ACCEPTED \/ r = SERIAL_CMD_REJECTED) /\
    (r = SERIAL_CMD_ACCEPTED <->
     recognized_command 114 = true /\ cc_in_range (cc s') = true) /\
    (r = SERIAL_CMD_ACCEPTED -> cc_updated (cc s') = true) /\
    (r = SERIAL_CMD_REJECTED -> cc_updated (cc s') = cc_updated idle_cc) /\
    (recognized_command 114 = false -> cc s' = idle_cc).
Proof.
  apply (processUART_response (mkSystem blank_looper idle_cc) 114 48 51 103 49 13).
  reflexivity.
Defined.

(** The command "r03g1" followed by CR is accepted and latches a Record
    event for track 3 in group 1. *)
Lemma processUART_record_example :
  processUART [114; 48; 51; 103; 49; 13] (mkSystem blank_looper idle_cc)
  = Some (mkSystem blank_looper (mkCC 3 1 SYSTEM_EVENT_RECORD_TRACK false true),
          [SERIAL_CMD_ACCEPTED]).
Proof. reflexivity. Qed.

(** The 8-bit track field wraps: the track characters 'J' and '0' decode to
    260, stored as 4, and the command is accepted for track 4. *)
Lemma processUART_track_wraps :
  processUART [109; 74; 48; 48; 48; 13] (mkSystem blank_looper idle_cc)
  = Some (mkSystem blank_looper (mkCC 4 0 SYSTEM_EVENT_MUTE_TRACK false true),
          [SERIAL_CMD_ACCEPTED]).
Proof. reflexivity. Qed.

(** C9 (as stated) fails: the six bytes "x0000z" start with an unrecognized
    character, and no NAK byte is written for them. *)
Lemma processUART_unknown_command_without_nak :
  ~ (forall (s : System) (b0 b1 b2 b3 b4 b5 : Z),
       recognized_command b0 = false ->
       exists s', processUART [b0; b1; b2; b3; b4; b5] s = Some (s', [SERIAL_CMD_REJECTED])).
Proof.
  intros H.
  destruct (H (mkSystem blank_looper idle_cc) 120 48 48 48 48 122) as (s' & Hrun);
    [reflexivity|].
  vm_compute in Hrun. discriminate.
Qed.

(** ** Stopping a recording *)

Lemma modify_track_ok (t : Z) (f : Track -> Track) (l : MasterLooper) (tr : Track) :
  track_at l t = Some tr ->
  modify_track t f l = Some (store_track t (f tr) l).
Proof. intros H. unfold modify_track. by rewrite H. Qed.

Lemma track_at_store_same (l : MasterLooper) (t : Z) (tr v : Track) :
  track_at l t = Some tr -> track_at (store_track t v l) t = Some v.
Proof.
  intros H. destruct (track_at_Some_range l t tr H). by apply track_at_store_eq.
Qed.

Lemma track_at_set_state (l : MasterLooper) (v : SystemStates) (t : Z) :
  track_at (set_state v l) t = track_at l t.
Proof. reflexivity. Qed.

Lemma track_at_set_masterCurrIdx (l : MasterLooper) (v t : Z) :
  track_at (set_masterCurrIdx v l) t = track_at l t.
Proof. reflexivity. Qed.

Lemma track_at_store_masterLength (l : MasterLooper) (g v t : Z) :
  track_at (store_masterLength g v l) t = track_at l t.
Proof. reflexivity. Qed.

Ltac solve_track_at :=
  rewrite ?track_at_set_state, ?track_at_set_masterCurrIdx, ?track_at_store_masterLength;
  first [ eassumption
        | eapply track_at_store_same; solve_track_at ].

Ltac skip_tracks :=
  repeat first
    [ rewrite track_at_set_state
    | rewrite track_at_set_masterCurrIdx
    | rewrite track_at_store_masterLength
    | rewrite track_at_store_ne by (first [lia | congruence | done]) ].

(** A way to state what a defined call returns. *)
Lemma option_post {A : Type} (o : option A) (P : A -> Prop) :
  match o with Some x => P x | None => False end -> exists x, o = Some x /\ P x.
Proof. destruct o as [x|]; [by exists x|done]. Qed.

Lemma stopRecording_result (s : System) (t0 : Track) (ml : Z) :
  track_at (looper s) (selectedTrack (looper s)) = Some t0 ->
  masterLength_at (looper s) (selectedGroup (looper s)) = Some ml ->
  exists s',
    stopRecording s = Some s' /\
    state (looper s') = SYSTEM_STATE_PLAYBACK /\
    track_at (looper s') (selectedTrack (looper s))
      = Some (finalized false (cc_repeat (cc s)) (play_frame_delay (looper s)) t0) /\
    (forall j, j <> selectedTrack (looper s) ->
       track_at (looper s') j = track_at (looper s) j) /\
    cc_track (cc s') = selectedTrack (looper s) /\
    cc_group (cc s') = selectedGroup (looper s).
Proof.
  intros Htr Hml. destruct s as [l c]. cbn [looper cc] in *.
  destruct (track_at_Some_range l _ _ Htr) as [H0 Hlen].
  apply option_post.
  unfold stopRecording. cbn [looper cc cc_repeat cc_track cc_group set_cc_group set_cc_track].
  unfold finalized. cbn [andb].
  destruct (cc_repeat c).
  - rewrite (modify_track_ok _ _ _ _ Htr). cbn [mbind option_bind].
    erewrite modify_track_ok by solve_track_at.
    cbn [mbind option_bind].
    change (masterLength_at (store_track _ _ (store_track _ _ l)) (selectedGroup l))
      with (masterLength_at l (selectedGroup l)).
    rewrite Hml. cbn [mbind option_bind].
    destruct (ml <? _).
    + erewrite modify_track_ok by solve_track_at.
      cbn [mbind option_bind]. cbv beta iota.
      cbn [looper cc cc_track cc_group set_cc_group set_cc_track].
      split; [done|]. split; [solve_track_at|].
      split; [|done]. intros j Hj. by skip_tracks.
    + erewrite modify_track_ok by solve_track_at.
      cbn [mbind option_bind]. cbv beta iota.
      cbn [looper cc cc_track cc_group set_cc_group set_cc_track].
      split; [done|]. split; [solve_track_at|].
      split; [|done]. intros j Hj. by skip_tracks.
  - cbn [mbind option_bind].
    rewrite (modify_track_ok _ _ _ _ Htr). cbn [mbind option_bind].
    change (masterLength_at (store_track _ _ l) (selectedGroup l))
      with (masterLength_at l (selectedGroup l)).
    rewrite Hml. cbn [mbind option_bind].
    destruct (ml <? _).
    + erewrite modify_track_ok by solve_track_at.
      cbn [mbind option_bind]. cbv beta iota.
      cbn [looper cc cc_track cc_group set_cc_group set_cc_track].
      split; [done|]. split; [solve_track_at|].
      split; [|done]. intros j Hj. by skip_tracks.
    + erewrite modify_track_ok by solve_track_at.
      cbn [mbind option_bind]. cbv beta iota.
      cbn [looper cc cc_track cc_group set_cc_group set_cc_track].
      split; [done|]. split; [solve_track_at|].
      split; [|done]. intros j Hj. by skip_tracks.
Qed.

Lemma stopOverdubbing_result (s : System) (t0 : Track) (ml : Z) :
  track_at (looper s) (selectedTrack (looper s)) = Some t0 ->
  masterLength_at (looper s) (selectedGroup (looper s)) = Some ml ->
  exists s',
    stopOverdubbing s = Some s' /\
    state (looper s') = SYSTEM_STATE_PLAYBACK /\
    track_at (looper s') (selectedTrack (looper s))
      = Some (finalized true (cc_repeat (cc s)) (play_frame_delay (looper s)) t0) /\
    (forall j, j <> selectedTrack (looper s) ->
       track_at (looper s') j = track_at (looper s) j) /\
    cc_track (cc s') = selectedTrack (looper s) /\
    cc_group (cc s') = selectedGroup (looper s).
Proof.
  intros Htr Hml. destruct s as [l c]. cbn [looper cc] in *.
  destruct (track_at_Some_range l _ _ Htr) as [H0 Hlen].
  apply option_post.
  unfold stopOverdubbing.
  cbn [looper cc cc_repeat cc_track cc_group set_cc_group set_cc_track].
  unfold finalized. cbn [andb].
  destruct (cc_repeat c).
  - rewrite (modify_track_ok _ _ _ _ Htr). cbn [mbind option_bind].
    erewrite modify_track_ok by solve_track_at.
    cbn [mbind option_bind].
    change (masterLength_at (store_track _ _ (store_track _ _ l)) (selectedGroup l))
      with (masterLength_at l (selectedGroup l)).
    rewrite Hml. cbn [mbind option_bind].
    destruct (ml <? _);
      (erewrite modify_track_ok by solve_track_at);
      cbn [mbind option_bind]; cbv beta iota;
      cbn [looper cc cc_track cc_group set_cc_group set_cc_track];
      (split; [done|]); (split; [|split; [|done]; intros j Hj; by skip_tracks]);
      (erewrite track_at_store_same by solve_track_at);
      change (play_frame_delay (store_track (selectedTrack l) (set_repeat true t0) l))
        with (play_frame_delay l);
      by destruct (endIdx (set_repeat true t0) <? currIdx (set_repeat true t0)).
  - cbn [mbind option_bind].
    rewrite (modify_track_ok _ _ _ _ Htr). cbn [mbind option_bind].
    change (masterLength_at (store_track _ _ l) (selectedGroup l))
      with (masterLength_at l (selectedGroup l)).
    rewrite Hml. cbn [mbind option_bind].
    destruct (ml <? _);
      (erewrite modify_track_ok by solve_track_at);
      cbn [mbind option_bind]; cbv beta iota;
      cbn [looper cc cc_track cc_group set_cc_group set_cc_track];
      (split; [done|]); (split; [|split; [|done]; intros j Hj; by skip_tracks]);
      (erewrite track_at_store_same by solve_track_at);
      by destruct (endIdx t0 <? currIdx t0).
Qed.

(** C10. A Play event applied while the system is Recording or Overdubbing
    finalizes the selected track of the selected group, whatever track and
    group the command carries: the transition is defined as soon as the
    selected track and group exist, its result does not depend on the
    command's track and group, the selected track is the one whose end is
    set (unconditionally when recording, only when the position passed the
    end when overdubbing) and whose state becomes Playback, every other
    track is untouched, and the control context is left holding the selected
    track and group. *)
Theorem play_event_finalizes_selected_track (s : System) (t0 : Track) (ml : Z) (t g : Z) :
  state (looper s) = SYSTEM_STATE_RECORDING \/
  state (looper s) = SYSTEM_STATE_OVERDUBBING ->
  track_at (looper s) (selectedTrack (looper s)) = Some t0 ->
  masterLength_at (looper s) (selectedGroup (looper s)) = Some ml ->
  exists s',
    controlStateMachine SYSTEM_EVENT_PLAY_TRACK s = Some s' /\
    controlStateMachine SYSTEM_EVENT_PLAY_TRACK
      (set_cc (set_cc_group g (set_cc_track t (cc s))) s) = Some s' /\
    state (looper s') = SYSTEM_STATE_PLAYBACK /\
    track_at (looper s') (selectedTrack (looper s))
      = Some (finalized (SystemStates_eqb (state (looper s)) SYSTEM_STATE_OVERDUBBING)
                        (cc_repeat (cc s)) (play_frame_delay (looper s)) t0) /\
    (forall j, j <> selectedTrack (looper s) ->
       track_at (looper s') j = track_at (looper s) j) /\
    cc_track (cc s') = selectedTrack (looper s) /\
    cc_group (cc s') = selectedGroup (looper s).
Proof.
  intros Hst Htr Hml. unfold controlStateMachine.
  cbn [looper set_cc].
  destruct Hst as [Hst|Hst]; rewrite Hst;
    cbn [eventHandlerRecording eventHandlerOverdubbing SystemStates_eqb].
  - destruct (stopRecording_result s t0 ml Htr Hml) as (s' & Hrun & Hrest).
    exists s'. split; [exact Hrun|]. split; [|exact Hrest].
    rewrite <- Hrun. by destruct s as [l [? ? ? ? ?]].
  - destruct (stopOverdubbing_result s t0 ml Htr Hml) as (s' & Hrun & Hrest).
    exists s'. split; [exact Hrun|]. split; [|exact Hrest].
    rewrite <- Hrun. by destruct s as [l [? ? ? ? ?]].
Qed.

Lemma play_event_finalizes_selected_track_witness :
  exists s',
    controlStateMachine SYSTEM_EVENT_PLAY_TRACK
      (mkSystem (buffer_full_looper SYSTEM_STATE_RECORDING)
                (mkCC 7 3 SYSTEM_EVENT_PLAY_TRACK false true)) = Some s' /\
    controlStateMachine SYSTEM_EVENT_PLAY_TRACK
      (set_cc (set_cc_group 2 (set_cc_track 9 (mkCC 7 3 SYSTEM_EVENT_PLAY_TRACK false true)))
              (mkSystem (buffer_full_looper SYSTEM_STATE_RECORDING)
                        (mkCC 7 3 SYSTEM_EVENT_PLAY_TRACK false true))) = Some s' /\
    state (looper s') = SYSTEM_STATE_PLAYBACK /\
    track_at (looper s') 0
      = Some (finalized false false 0 buffer_full_track) /\
    (forall j, j <> 0 ->
       track_at (looper s') j = track_at (buffer_full_looper SYSTEM_STATE_RECORDING) j) /\
    cc_track (cc s') = 0 /\
    cc_group (cc s') = 1.
Proof.
  apply (play_event_finalizes_selected_track
           (mkSystem (buffer_full_looper SYSTEM_STATE_RECORDING)
                     (mkCC 7 3 SYSTEM_EVENT_PLAY_TRACK false true))
           buffer_full_track (SAMPLE_LIMIT - 64) 9 2).
  - left. reflexivity.
  - reflexivity.
  - reflexivity.
Defined.

(** ** Starting a recording *)

Lemma track_at_tracks_eq (l l' : MasterLooper) (t : Z) :
  tracks l' = tracks l -> track_at l' t = track_at l t.
Proof. intros H. unfold track_at. by rewrite H. Qed.

Lemma track_at_store_same' (l l' : MasterLooper) (t : Z) (tr v : Track) :
  tracks l' = <[Z.to_nat t := v]> (tracks l) ->
  track_at l t = Some tr -> track_at l' t = Some v.
Proof.
  intros Heq H. destruct (track_at_Some_range l t tr H) as [H0 Hlen].
  unfold track_at. destruct (Z.ltb_spec t 0); [lia|].
  rewrite Heq. by apply list_lookup_insert_eq.
Qed.

(** Looks a track up through the field updates made since it was stored. *)
Ltac solve_track_at' :=
  first [ eassumption
        | eapply track_at_store_same'; [reflexivity | solve_track_at'] ].

(** C7 (amended). Whenever [startRecording] is defined (the group entry
    exists, [getNumActiveTracks] is defined, the track exists) it returns,
    and immediately after it the recording track has [endIdx] = 0 and
    [startIdx] = [currIdx] = the master index, which is either 0 (master
    reset) or the master index before the transition: [startIdx <= endIdx]
    holds there exactly when that master index is 0.  The indices are
    otherwise ordered 0 <= startIdx = currIdx when the master index is not
    negative. *)
Theorem startRecording_indices (s : System) (p : bool) (n : Z) (t0 : Track) :
  grouped (looper s) (cc_group (cc s)) (cc_track (cc s)) = Some p ->
  getNumActiveTracks
    (if negb p then store_grouped (cc_group (cc s)) (cc_track (cc s)) true (looper s)
     else looper s) = Some n ->
  track_at (looper s) (cc_track (cc s)) = Some t0 ->
  exists s',
    startRecording s = Some s' /\
    exists t',
    track_at (looper s') (cc_track (cc s)) = Some t' /\
    endIdx t' = 0 /\
    startIdx t' = masterCurrIdx (looper s') /\
    currIdx t' = masterCurrIdx (looper s') /\
    trk_state t' = TRACK_STATE_RECORDING /\
    state (looper s') = SYSTEM_STATE_RECORDING /\
    (masterCurrIdx (looper s') = 0 \/
     masterCurrIdx (looper s') = masterCurrIdx (looper s)) /\
    (startIdx t' <= endIdx t' <-> masterCurrIdx (looper s') <= 0).
Proof.
  intros Hgrp Hnum Htr. destruct s as [l c]. cbn [looper cc] in *.
  unfold startRecording. cbn [looper cc].
  rewrite Hgrp. cbn [mbind option_bind]. rewrite Hnum. cbn [mbind option_bind].
  set (l1 := if negb p then store_grouped (cc_group c) (cc_track c) true l else l) in *.
  set (l2 := if (n =? 0) || negb (cc_group c =? selectedGroup l1) ||
                (n =? 1) && (selectedTrack l1 =? cc_track c)
             then store_masterLength (cc_group c) 0 (set_masterCurrIdx 0 l1) else l1).
  assert (Htr2 : track_at l2 (cc_track c) = Some t0).
  { rewrite <- Htr. apply track_at_tracks_eq. subst l2 l1.
    destruct (_ || _), (negb p); reflexivity. }
  assert (Hm2 : masterCurrIdx l2 = 0 \/ masterCurrIdx l2 = masterCurrIdx l).
  { subst l2 l1. destruct (_ || _), (negb p); (by left) || (by right). }
  clearbody l2. clear Hnum l1.
  apply option_post.
  rewrite (modify_track_ok _ _ _ _ Htr2). cbn [mbind option_bind].
  do 4 (erewrite modify_track_ok by solve_track_at'; cbn [mbind option_bind]).
  cbv beta iota. cbn [looper set_looper].
  eexists. split; [solve_track_at'|].
  split; [reflexivity|]. split; [reflexivity|]. split; [reflexivity|].
  split; [reflexivity|]. split; [reflexivity|].
  change (masterCurrIdx (set_state _ _)) with (masterCurrIdx l2).
  split; [exact Hm2|].
  cbn [endIdx startIdx set_trk_state set_startIdx set_currIdx set_endIdx set_repeat].
  change (masterCurrIdx (store_track _ _ _)) with (masterCurrIdx l2). lia.
Qed.

Lemma startRecording_indices_witness :
  exists s',
    startRecording second_take_system = Some s' /\
    exists t',
    track_at (looper s') 1 = Some t' /\
    endIdx t' = 0 /\
    startIdx t' = masterCurrIdx (looper s') /\
    currIdx t' = masterCurrIdx (looper s') /\
    trk_state t' = TRACK_STATE_RECORDING /\
    state (looper s') = SYSTEM_STATE_RECORDING /\
    (masterCurrIdx (looper s') = 0 \/ masterCurrIdx (looper s') = 128) /\
    (startIdx t' <= endIdx t' <-> masterCurrIdx (looper s') <= 0).
Proof.
  apply (startRecording_indices second_take_system true 1 blank_track).
  - reflexivity.
  - vm_compute. reflexivity.
  - reflexivity.
Defined.

(** On [second_take_system] the transition leaves track 1 with
    [startIdx] = 128 and [endIdx] = 0. *)
Lemma second_take_observation :
  (s' ← startRecording second_take_system; t ← track_at (looper s') 1;
   Some (startIdx t, endIdx t, currIdx t, indices_ordered (looper s')))
  = Some (128, 0, 128, false).
Proof. vm_compute. reflexivity. Qed.

(** C7 (as stated) fails: the index order holds for every track of
    [second_take_system] and fails for track 1 immediately after
    [startRecording]. *)
Lemma startRecording_breaks_index_order :
  ~ (forall s s' : System,
       indices_ordered (looper s) = true ->
       startRecording s = Some s' ->
       indices_ordered (looper s') = true).
Proof.
  intros H. pose proof second_take_observation as Hobs.
  destruct (startRecording second_take_system) as [s'|] eqn:E; [|discriminate].
  assert (Hord : indices_ordered (looper s') = true).
  { apply (H second_take_system s'); [vm_compute; reflexivity|exact E]. }
  cbn [mbind option_bind] in Hobs.
  destruct (track_at (looper s') 1) as [t|]; [|discriminate].
  cbn [mbind option_bind] in Hobs. rewrite Hord in Hobs. discriminate.
Qed.

(** ** The master length *)

Lemma masterLength_at_store_eq (l : MasterLooper) (g v ml : Z) :
  masterLength_at l g = Some ml ->
  masterLength_at (store_masterLength g v l) g = Some v.
Proof.
  unfold masterLength_at, store_masterLength. cbn [masterLength set_masterLength].
  destruct (Z.ltb_spec g 0) as [|Hg]; [done|]. intros Hlk.
  apply list_lookup_insert_eq. by eapply lookup_lt_Some.
Qed.

(** One run of the position engine in Recording state, seen from the
    selected track: the position advances and is clamped, the track's end
    follows the position, and the master length of the selected group
    follows the track's end. *)
Lemma updateIndices_recording_step (l : MasterLooper) (nframes : Z) (t : Track) (ml : Z) :
  wf_looper l -> 0 <= selectedGroup l < NUM_GROUPS ->
  0 <= selectedTrack l < NUM_TRACKS ->
  state l = SYSTEM_STATE_RECORDING ->
  grouped l (selectedGroup l) (selectedTrack l) = Some true ->
  track_at l (selectedTrack l) = Some t ->
  masterLength_at l (selectedGroup l) = Some ml ->
  trk_state t <> TRACK_STATE_OFF ->
  0 <= currIdx t -> 0 <= nframes -> currIdx t + nframes < 4294967296 ->
  exists l' t',
    updateIndices l nframes = Some l' /\
    track_at l' (selectedTrack l) = Some t' /\
    currIdx t' = Z.min (currIdx t + nframes) SAMPLE_LIMIT /\
    endIdx t' = Z.max (endIdx t) (currIdx t') /\
    startIdx t' = startIdx t /\
    masterLength_at l' (selectedGroup l) = Some (Z.max ml (endIdx t')) /\
    state l' = (if SAMPLE_LIMIT <? currIdx t + nframes
                then SYSTEM_STATE_PLAYBACK else SYSTEM_STATE_RECORDING).
Proof.
  intros Hwf Hsg Hst Hrec Hgrp Htrk Hmlen Hoff H0 Hn Hno.
  pose proof SAMPLE_LIMIT_value as HSL.
  destruct (updateIndices_at l nframes (selectedTrack l) Hwf Hsg Hst)
    as (l_pre & l_mid & l' & Hrun & Hwfp & Hfrp & Htrp & Hmid & Htr' & Hst' & Hml');
    [by left|].
  destruct (updateIndices_master_spec l nframes) as (_ & (Hg1 & _ & _ & Hs1 & Hml1) & _ & _).
  destruct Hfrp as (_ & Hgp & _ & _ & Hsp & Hmlp).
  assert (Hmlpre : masterLength_at l_pre (selectedGroup l) = Some ml).
  { rewrite (masterLength_at_frame _ l_pre) by done.
    by rewrite (masterLength_at_frame l) by done. }
  unfold updateIndices_body in Hmid.
  rewrite (grouped_frame _ l_pre) in Hmid by done.
  rewrite (grouped_frame _ (updateIndices_master l nframes)) in Hmid by done.
  rewrite Hgrp, Htrp, Htrk in Hmid. cbn [mbind option_bind] in Hmid.
  assert (Hoffb : TrackState_eqb (trk_state t) TRACK_STATE_OFF = false)
    by (destruct (trk_state t); done).
  cbn [trk_state set_currIdx] in Hmid.
  rewrite Hoffb, Z.eqb_refl, Hsp, Hs1, Hrec in Hmid.
  cbn [SystemStates_eqb orb andb] in Hmid.
  unfold updateIndices_record in Hmid.
  cbn [currIdx endIdx set_currIdx] in Hmid.
  rewrite (u32_small (currIdx t + nframes)) in Hmid by lia.
  assert (Hlen : (Z.to_nat (selectedTrack l) < length (tracks l_pre))%nat).
  { destruct Hwfp as (-> & _). unfold NUM_TRACKS in *. lia. }
  set (c1 := currIdx t + nframes) in *.
  set (track1 := if SAMPLE_LIMIT <? c1
                 then set_currIdx SAMPLE_LIMIT (set_currIdx c1 t)
                 else set_currIdx c1 t) in *.
  set (l1 := if SAMPLE_LIMIT <? c1 then set_state SYSTEM_STATE_PLAYBACK l_pre else l_pre) in *.
  set (track2 := if endIdx track1 <? currIdx track1
                 then set_endIdx (currIdx track1) track1 else track1) in *.
  assert (Hc1 : currIdx track1 = Z.min c1 SAMPLE_LIMIT /\ endIdx track1 = endIdx t /\
                startIdx track1 = startIdx t).
  { subst track1. destruct (Z.ltb_spec SAMPLE_LIMIT c1); cbn; lia. }
  destruct Hc1 as (Hc1 & He1 & Hs1').
  assert (Hc2 : currIdx track2 = Z.min c1 SAMPLE_LIMIT /\
                endIdx track2 = Z.max (endIdx t) (Z.min c1 SAMPLE_LIMIT) /\
                startIdx track2 = startIdx t).
  { subst track2. destruct (Z.ltb_spec (endIdx track1) (currIdx track1)); cbn; lia. }
  destruct Hc2 as (Hc2 & He2 & Hs2).
  assert (Hml1' : masterLength_at l1 (selectedGroup l) = Some ml).
  { subst l1. by destruct (SAMPLE_LIMIT <? c1). }
  assert (Hst1 : state l1 = if SAMPLE_LIMIT <? c1
                            then SYSTEM_STATE_PLAYBACK else SYSTEM_STATE_RECORDING).
  { subst l1. destruct (SAMPLE_LIMIT <? c1); [done|]. by rewrite Hsp, Hs1. }
  assert (Htr1 : tracks l1 = tracks l_pre).
  { subst l1. by destruct (SAMPLE_LIMIT <? c1). }
  clearbody track2 l1. clear track1 Hc1 He1 Hs1'.
  rewrite Hml1' in Hmid. cbn [mbind option_bind] in Hmid. injection Hmid as <-.
  exists l', track2. split; [done|].
  split.
  { rewrite Htr'. destruct (ml <? endIdx track2); apply track_at_store_eq;
      cbn [tracks store_masterLength set_masterLength]; rewrite ?Htr1; lia || done. }
  split; [done|]. split; [lia|]. split; [done|].
  split.
  - rewrite (masterLength_at_frame _ l') by done.
    change (masterLength_at (store_track ?i ?v ?x) ?g) with (masterLength_at x g).
    destruct (Z.ltb_spec ml (endIdx track2)).
    + erewrite masterLength_at_store_eq by exact Hml1'. f_equal. lia.
    + rewrite Hml1'. f_equal. lia.
  - rewrite Hst'. rewrite <- Hst1. by destruct (ml <? endIdx track2).
Qed.

(** *** Group membership *)

Lemma grouped_store_grouped_eq (l : MasterLooper) (g t : Z) (p v : bool) :
  grouped l g t = Some p -> grouped (store_grouped g t v l) g t = Some v.
Proof.
  unfold grouped, store_grouped. cbn [groupedTracks set_groupedTracks].
  destruct ((g <? 0) || (t <? 0)); [done|].
  rewrite list_lookup_alter_eq.
  destruct (groupedTracks l !! Z.to_nat g) as [row|]; [|done].
  cbn [fmap option_fmap option_map mbind option_bind]. intros Hrow.
  apply list_lookup_insert_eq. by eapply lookup_lt_Some.
Qed.

Lemma grouped_store_grouped_ne (l : MasterLooper) (g t g' t' : Z) (v : bool) :
  0 <= g -> 0 <= t -> g' <> g \/ t' <> t ->
  grouped (store_grouped g t v l) g' t' = grouped l g' t'.
Proof.
  intros Hg Ht Hne. unfold grouped, store_grouped. cbn [groupedTracks set_groupedTracks].
  destruct (Z.ltb_spec g' 0); [done|]. destruct (Z.ltb_spec t' 0); [done|].
  cbn [orb].
  destruct (Z.eq_dec g' g) as [->|Hgne].
  - rewrite list_lookup_alter_eq.
    destruct (groupedTracks l !! Z.to_nat g) as [row|]; [|done].
    cbn [fmap option_fmap option_map mbind option_bind].
    apply list_lookup_insert_ne. destruct Hne; [done|lia].
  - rewrite list_lookup_alter_ne by lia. done.
Qed.

Lemma grouped_Some_range (l : MasterLooper) (g t : Z) (p : bool) :
  grouped l g t = Some p -> 0 <= g /\ 0 <= t.
Proof.
  unfold grouped.
  destruct (Z.ltb_spec g 0), (Z.ltb_spec t 0); cbn [orb]; intros Hlk;
    try discriminate; lia.
Qed.

(** C6 (amended). [removeTrackFromGroup] is defined whenever the group entry
    exists; it clears that entry and nothing else: every other entry, every
    track and every master length is as before.  So a master length that
    bounded the [endIdx] of the members of its group still bounds them, but
    it is not lowered to their maximum. *)
Theorem removeTrackFromGroup_keeps_masterLength (s : System) (p : bool) :
  grouped (looper s) (cc_group (cc s)) (cc_track (cc s)) = Some p ->
  exists s',
    removeTrackFromGroup s = Some s' /\
    masterLength (looper s') = masterLength (looper s) /\
    tracks (looper s') = tracks (looper s) /\
    grouped (looper s') (cc_group (cc s)) (cc_track (cc s)) = Some false /\
    (forall g t, g <> cc_group (cc s) \/ t <> cc_track (cc s) ->
       grouped (looper s') g t = grouped (looper s) g t) /\
    (masterLength_bounds (looper s) -> masterLength_bounds (looper s')).
Proof.
  intros Hgrp. destruct (grouped_Some_range _ _ _ _ Hgrp) as [Hg Ht].
  unfold removeTrackFromGroup. rewrite Hgrp. cbn [mbind option_bind].
  eexists. split; [reflexivity|]. cbn [looper set_looper].
  split; [reflexivity|]. split; [reflexivity|].
  split; [by eapply grouped_store_grouped_eq|].
  split; [intros g t Hne; by apply grouped_store_grouped_ne|].
  intros Hb g t tr ml Hmem Htr Hml.
  destruct (Z.eq_dec g (cc_group (cc s))) as [->|Hgne];
    [destruct (Z.eq_dec t (cc_track (cc s))) as [->|Htne]|].
  - erewrite grouped_store_grouped_eq in Hmem by exact Hgrp. discriminate.
  - rewrite grouped_store_grouped_ne in Hmem by (done || by right).
    exact (Hb (cc_group (cc s)) t tr ml Hmem Htr Hml).
  - rewrite grouped_store_grouped_ne in Hmem by (done || by left).
    exact (Hb g t tr ml Hmem Htr Hml).
Qed.

Lemma removeTrackFromGroup_keeps_masterLength_witness :
  exists s',
    removeTrackFromGroup remove_longest_system = Some s' /\
    masterLength (looper s') = masterLength (looper remove_longest_system) /\
    tracks (looper s') = tracks (looper remove_longest_system) /\
    grouped (looper s') 1 0 = Some false /\
    (forall g t, g <> 1 \/ t <> 0 ->
       grouped (looper s') g t = grouped (looper remove_longest_system) g t) /\
    (masterLength_bounds (looper remove_longest_system) ->
     masterLength_bounds (looper s')).
Proof.
  apply (removeTrackFromGroup_keeps_masterLength remove_longest_system true).
  reflexivity.
Defined.

(** On [remove_longest_system] the master length of group 1 is the maximum
    before the removal (256) and is still 256 after it, when the group is
    empty. *)
Lemma remove_longest_observation :
  masterLength_is_max (looper remove_longest_system) = true /\
  (s' ← removeTrackFromGroup remove_longest_system;
   ml ← masterLength_at (looper s') 1;
   Some (ml, group_max_endIdx (looper s') 1, masterLength_is_max (looper s')))
  = Some (256, 0, false).
Proof. split; vm_compute; reflexivity. Qed.

(** C6 (as stated) fails: removing the longest track of a group breaks the
    equality between the master length and the maximum [endIdx]. *)
Lemma removeTrackFromGroup_breaks_masterLength :
  ~ (forall s s' : System,
       masterLength_is_max (looper s) = true ->
       removeTrackFromGroup s = Some s' ->
       masterLength_is_max (looper s') = true).
Proof.
  intros H. destruct remove_longest_observation as [Hbefore Hobs].
  destruct (removeTrackFromGroup remove_longest_system) as [s'|] eqn:E; [|discriminate].
  pose proof (H _ _ Hbefore E) as Hafter.
  cbn [mbind option_bind] in Hobs.
  destruct (masterLength_at (looper s') 1) as [ml|]; [|discriminate].
  cbn [mbind option_bind] in Hobs. rewrite Hafter in Hobs. discriminate.
Qed.

(** ** Runs that lead to the scenarios *)

(** From the power-on looper no recording can start: [startRecording] binds
    one entry of the group and [getNumActiveTracks] then dereferences the
    fifteen NULL entries that are left. *)
Lemma no_recording_from_blank_looper :
  run [Command 0 record_track0; Cycle silent_audio 128] (mkSystem blank_looper idle_cc)
  = None.
Proof. vm_compute. reflexivity. Qed.

(** [second_take_system] is, up to the sample buffers and the call counter,
    the state the engine is in after [second_take_steps]. *)
Lemma second_take_reached :
  control_summary <$> run second_take_steps start_system
  = Some (control_summary second_take_system).
Proof. vm_compute. reflexivity. Qed.

(** The state reached by [second_take_steps] has its indices in order, and
    the transition that the pending Record command triggers leaves track 1
    with [startIdx] = 128 and [endIdx] = 0. *)
Lemma second_take_run_observation :
  (s ← run second_take_steps start_system;
   s' ← startRecording s; t ← track_at (looper s') 1;
   Some (indices_ordered (looper s), startIdx t, endIdx t, indices_ordered (looper s')))
  = Some (true, 128, 0, false).
Proof. vm_compute. reflexivity. Qed.

(** The master length of group 1 is the maximum after a take on track 0,
    and is not any more once the track has been removed from the group by a
    command and a cycle. *)
Lemma take_then_remove_observation :
  (s ← run take_then_remove_steps start_system;
   s' ← run [Command 0 remove_track0; Cycle silent_audio 128] s;
   ml ← masterLength_at (looper s') 1;
   Some (masterLength_is_max (looper s), ml, group_max_endIdx (looper s') 1,
         masterLength_is_max (looper s')))
  = Some (true, 256, 0, false).
Proof. vm_compute. reflexivity. Qed.

(** The recording started by [startRecording] gets its indices back in
    order with the next run of the position engine. *)
Lemma recording_restores_index_order (l : MasterLooper) (nframes : Z) (t : Track) (ml : Z) :
  wf_looper l -> 0 <= selectedGroup l < NUM_GROUPS ->
  0 <= selectedTrack l < NUM_TRACKS ->
  state l = SYSTEM_STATE_RECORDING ->
  grouped l (selectedGroup l) (selectedTrack l) = Some true ->
  track_at l (selectedTrack l) = Some t ->
  masterLength_at l (selectedGroup l) = Some ml ->
  trk_state t <> TRACK_STATE_OFF ->
  0 <= startIdx t -> startIdx t = currIdx t -> currIdx t <= SAMPLE_LIMIT ->
  0 <= nframes < 2147483648 ->
  exists l' t',
    updateIndices l nframes = Some l' /\
    track_at l' (selectedTrack l) = Some t' /\
    0 <= startIdx t' <= currIdx t' /\ currIdx t' <= endIdx t' /\
    currIdx t' <= SAMPLE_LIMIT /\
    exists ml', masterLength_at l' (selectedGroup l) = Some ml' /\ endIdx t' <= ml'.
Proof.
  intros Hwf Hsg Hst Hrec Hgrp Htrk Hml Hoff H0 Hsc Hc Hn.
  pose proof SAMPLE_LIMIT_value as HSL.
  destruct (updateIndices_recording_step l nframes t ml)
    as (l' & t' & Hrun & Htr' & Hc' & He' & Hs' & Hml' & _); try done; try lia.
  exists l', t'. split; [done|]. split; [done|].
  split; [lia|]. split; [lia|]. split; [lia|].
  eexists. split; [exact Hml'|]. lia.
Qed.

(** ** What the claims get right *)

(** A member that is off or muted, or whose position is outside
    [startIdx, endIdx), contributes nothing to any output sample. *)
Lemma doMixDown_track_skips (l : MasterLooper) (sg s idx : Z) (t : Track)
    (sums : jack_default_audio_sample_t * jack_default_audio_sample_t) :
  grouped l sg idx = Some true -> track_at l idx = Some t ->
  trk_state t = TRACK_STATE_OFF \/ trk_state t = TRACK_STATE_MUTE \/
  currIdx t < startIdx t \/ endIdx t <= currIdx t ->
  doMixDown_track l sg s idx sums = Some sums.
Proof.
  intros Hgrp Htr Hskip. unfold doMixDown_track. destruct sums as [sumLeft sumRight].
  rewrite Hgrp, Htr. cbn [mbind option_bind].
  destruct Hskip as [Hs|[Hs|[Hs|Hs]]].
  - rewrite Hs. cbn [TrackState_eqb negb]. by rewrite andb_false_r.
  - rewrite Hs. cbn [TrackState_eqb negb]. by rewrite andb_false_r.
  - destruct (Z.leb_spec (startIdx t) (currIdx t)); [lia|done].
  - destruct (Z.ltb_spec (currIdx t) (endIdx t)); [lia|]. by rewrite andb_false_r.
Qed.

(** Two digit characters decode to the number they spell. *)
Lemma decode_track_digits (upper lower : Z) :
  48 <= upper <= 57 -> 48 <= lower <= 57 ->
  decode_track upper lower = (upper - 48) * 10 + (lower - 48).
Proof.
  intros Hu Hl. unfold decode_track. rewrite (u8_small ((upper - 48) * 10)) by lia.
  apply u8_small. lia.
Qed.

(** An Overdub, Mute or Unmute command whose two digits spell a track number
    of 16 or more is answered with one NAK and does not raise the [updated]
    flag. *)
Lemma processUART_track_out_of_range (s : System) (b0 b1 b2 b3 b4 b5 : Z) :
  valid_terminator (looper s) b5 = true ->
  In b0 [SERIAL_CMD_OVERDUB_LC; SERIAL_CMD_OVERDUB_UC; SERIAL_CMD_TRACK_MUTE_LC;
         SERIAL_CMD_TRACK_MUTE_UC; SERIAL_CMD_TRACK_UNMUTE_LC;
         SERIAL_CMD_TRACK_UNMUTE_UC] ->
  48 <= b1 <= 57 -> 48 <= b2 <= 57 ->
  NUM_TRACKS <= (b1 - 48) * 10 + (b2 - 48) ->
  exists s',
    processUART [b0; b1; b2; b3; b4; b5] s = Some (s', [SERIAL_CMD_REJECTED]) /\
    cc_updated (cc s') = cc_updated (cc s).
Proof.
  intros Hterm Hb0 Hd1 Hd2 Hbig.
  unfold processUART.
  cbn [lookup list_lookup SERIAL_CMD_OFFSET SERIAL_TRACK_UPPER_DIGIT
       SERIAL_TRACK_LOWER_DIGIT SERIAL_SUB_CMD_OFFSET SERIAL_TRACK_GROUP_LOWER_DIGIT
       SERIAL_LAST_CHAR mbind option_bind].
  unfold valid_terminator in Hterm. apply negb_true_iff in Hterm. rewrite Hterm.
  assert (Hrange : forall c : ControlContext,
            (0 <=? decode_track b1 b2) && (decode_track b1 b2 <? NUM_TRACKS) &&
            (0 <=? cc_group c) && (cc_group c <? NUM_GROUPS) && negb false = false).
  { intros c. rewrite decode_track_digits by done.
    destruct (Z.ltb_spec ((b1 - 48) * 10 + (b2 - 48)) NUM_TRACKS); [lia|].
    by rewrite andb_false_r. }
  cbn [In] in Hb0.
  destruct Hb0 as [<-|[<-|[<-|[<-|[<-|[<-|[]]]]]]];
    cbn [processUART_switch Z.eqb Pos.eqb orb SERIAL_CMD_OVERDUB_LC SERIAL_CMD_OVERDUB_UC
         SERIAL_CMD_RECORD_LC SERIAL_CMD_RECORD_UC SERIAL_CMD_TRACK_MUTE_LC
         SERIAL_CMD_TRACK_MUTE_UC SERIAL_CMD_TRACK_UNMUTE_LC SERIAL_CMD_TRACK_UNMUTE_UC];
    cbn [cc_track cc_group set_cc_track set_cc_event];
    rewrite (Hrange (cc s)); by eexists.
Qed.

(** * Further properties of the control file *)

(** ** Mute and unmute *)

(** What [muteTrack] and [unmuteTrack] return: an empty track is left alone,
    any other track gets the new state and becomes the selected track. *)
Lemma muteTrack_result (s : System) (t : Track) :
  track_at (looper s) (cc_track (cc s)) = Some t ->
  muteTrack s =
  Some (if TrackState_eqb (trk_state t) TRACK_STATE_OFF then s
        else set_looper
               (store_track (cc_track (cc s)) (set_trk_state TRACK_STATE_MUTE t)
                  (set_selectedTrack (cc_track (cc s)) (looper s))) s).
Proof.
  intros Htr. unfold muteTrack. rewrite Htr. cbn [mbind option_bind].
  destruct (TrackState_eqb _ _); [done|].
  by rewrite (modify_track_ok _ _ _ t).
Qed.

Lemma unmuteTrack_result (s : System) (t : Track) :
  track_at (looper s) (cc_track (cc s)) = Some t ->
  unmuteTrack s =
  Some (if TrackState_eqb (trk_state t) TRACK_STATE_OFF then s
        else set_looper
               (store_track (cc_track (cc s)) (set_trk_state TRACK_STATE_PLAYBACK t)
                  (set_selectedTrack (cc_track (cc s)) (looper s))) s).
Proof.
  intros Htr. unfold unmuteTrack. rewrite Htr. cbn [mbind option_bind].
  destruct (TrackState_eqb _ _); [done|].
  by rewrite (modify_track_ok _ _ _ t).
Qed.

(** X1. Muting and unmuting.  [muteTrack] is defined whenever the command's
    track exists and touches no other track; an empty (Off) track is left
    as it is by both commands; any other track is set to Mute, respectively
    Playback, with its indices and audio untouched, and becomes the selected
    track.  Unmuting undoes muting: unmuting the muted system gives exactly
    the system that unmuting alone gives. *)
Theorem unmuteTrack_after_muteTrack (s : System) (t : Track) :
  track_at (looper s) (cc_track (cc s)) = Some t ->
  exists s1,
    muteTrack s = Some s1 /\
    unmuteTrack s1 = unmuteTrack s /\
    (forall j, j <> cc_track (cc s) -> track_at (looper s1) j = track_at (looper s) j) /\
    (trk_state t = TRACK_STATE_OFF -> s1 = s /\ unmuteTrack s = Some s) /\
    (trk_state t <> TRACK_STATE_OFF ->
       track_at (looper s1) (cc_track (cc s)) = Some (set_trk_state TRACK_STATE_MUTE t) /\
       selectedTrack (looper s1) = cc_track (cc s) /\
       exists s2,
         unmuteTrack s = Some s2 /\
         track_at (looper s2) (cc_track (cc s))
           = Some (set_trk_state TRACK_STATE_PLAYBACK t) /\
         selectedTrack (looper s2) = cc_track (cc s)).
Proof.
  intros Htr. destruct (track_at_Some_range _ _ _ Htr) as [H0 Hlen].
  rewrite (muteTrack_result s t Htr), (unmuteTrack_result s t Htr).
  eexists; split; [reflexivity|].
  destruct (TrackState_eqb (trk_state t) TRACK_STATE_OFF) eqn:Hoff.
  - split; [by rewrite (unmuteTrack_result s t Htr), Hoff|].
    split; [done|]. split; [done|].
    intros Hne. destruct (trk_state t); done.
  - assert (Hm : track_at
               (looper (set_looper
                  (store_track (cc_track (cc s)) (set_trk_state TRACK_STATE_MUTE t)
                     (set_selectedTrack (cc_track (cc s)) (looper s))) s))
               (cc_track (cc s)) = Some (set_trk_state TRACK_STATE_MUTE t)).
    { cbn [looper set_looper]. by apply track_at_store_eq. }
    split.
    { rewrite (unmuteTrack_result _ _ Hm). cbn [trk_state set_trk_state TrackState_eqb
        looper set_looper cc].
      unfold set_looper, store_track, set_selectedTrack, set_tracks.
      cbn [looper cc tracks groupedTracks input_portR output_portR
        masterLength masterCurrIdx callCounter rec_frame_delay play_frame_delay
        selectedTrack selectedGroup min_serial_data_length state monitoringOff
        controlLocked exitNow].
      by rewrite list_insert_insert_eq. }
    split.
    { intros j Hj. cbn [looper set_looper]. by rewrite track_at_store_ne by lia. }
    split.
    { intros Hst. rewrite Hst in Hoff. done. }
    intros _. split; [exact Hm|]. split; [reflexivity|].
    eexists; split; [reflexivity|].
    split; [|reflexivity]. cbn [looper set_looper]. by apply track_at_store_eq.
Qed.

Lemma unmuteTrack_after_muteTrack_witness :
  exists s1,
    muteTrack (playing_system mute_track0) = Some s1 /\
    unmuteTrack s1 = unmuteTrack (playing_system mute_track0) /\
    (forall j, j <> 0 -> track_at (looper s1) j = track_at playing_looper j) /\
    (trk_state recorded_track = TRACK_STATE_OFF ->
       s1 = playing_system mute_track0 /\
       unmuteTrack (playing_system mute_track0) = Some (playing_system mute_track0)) /\
    (trk_state recorded_track <> TRACK_STATE_OFF ->
       track_at (looper s1) 0 = Some (set_trk_state TRACK_STATE_MUTE recorded_track) /\
       selectedTrack (looper s1) = 0 /\
       exists s2,
         unmuteTrack (playing_system mute_track0) = Some s2 /\
         track_at (looper s2) 0 = Some (set_trk_state TRACK_STATE_PLAYBACK recorded_track) /\
         selectedTrack (looper s2) = 0).
Proof.
  apply (unmuteTrack_after_muteTrack (playing_system mute_track0) recorded_track).
  reflexivity.
Defined.

(** ** Group membership commands *)

Lemma store_grouped_twice (l : MasterLooper) (g t : Z) (v w : bool) :
  store_grouped g t v (store_grouped g t w l) = store_grouped g t v l.
Proof.
  unfold store_grouped, set_groupedTracks. cbn [tracks groupedTracks input_portR
    output_portR masterLength masterCurrIdx callCounter rec_frame_delay
    play_frame_delay selectedTrack selectedGroup min_serial_data_length state
    monitoringOff controlLocked exitNow].
  f_equal. rewrite list_alter_alter_eq. apply list_alter_ext; [|done].
  intros row _. cbn. by rewrite list_insert_insert_eq.
Qed.

(** X2. Adding a track to a group.  [assignTrackToGroup] is defined whenever
    the group entry exists; it binds that entry and nothing else (every
    other entry, every track and every master length is as before); doing it
    twice is doing it once; removing the track afterwards gives what removing
    it directly gives, and adding it after a removal gives what adding it
    directly gives. *)
Theorem assignTrackToGroup_binds_entry (s : System) (p : bool) :
  grouped (looper s) (cc_group (cc s)) (cc_track (cc s)) = Some p ->
  exists s1,
    assignTrackToGroup s = Some s1 /\
    grouped (looper s1) (cc_group (cc s)) (cc_track (cc s)) = Some true /\
    (forall g t, g <> cc_group (cc s) \/ t <> cc_track (cc s) ->
       grouped (looper s1) g t = grouped (looper s) g t) /\
    tracks (looper s1) = tracks (looper s) /\
    masterLength (looper s1) = masterLength (looper s) /\
    assignTrackToGroup s1 = Some s1 /\
    removeTrackFromGroup s1 = removeTrackFromGroup s /\
    removeTrackFromGroup s ≫= assignTrackToGroup = Some s1.
Proof.
  intros Hgrp. destruct (grouped_Some_range _ _ _ _ Hgrp) as [Hg Ht].
  unfold assignTrackToGroup at 1. rewrite Hgrp. cbn [mbind option_bind].
  eexists. split; [reflexivity|]. cbn [looper set_looper].
  pose proof (grouped_store_grouped_eq _ _ _ _ true Hgrp) as Hset.
  pose proof (grouped_store_grouped_eq _ _ _ _ false Hgrp) as Hclr.
  split; [exact Hset|].
  split; [intros g t Hne; by apply grouped_store_grouped_ne|].
  split; [reflexivity|]. split; [reflexivity|].
  split.
  { unfold assignTrackToGroup. cbn [looper set_looper cc]. rewrite Hset.
    cbn [mbind option_bind]. by rewrite store_grouped_twice. }
  split.
  { unfold removeTrackFromGroup. cbn [looper set_looper cc]. rewrite Hset, Hgrp.
    cbn [mbind option_bind]. by rewrite store_grouped_twice. }
  unfold removeTrackFromGroup. rewrite Hgrp. cbn [mbind option_bind].
  unfold assignTrackToGroup. cbn [looper set_looper cc]. rewrite Hclr.
  cbn [mbind option_bind]. by rewrite store_grouped_twice.
Qed.

Lemma assignTrackToGroup_binds_entry_witness :
  exists s1,
    assignTrackToGroup (playing_system assign_track0_group2) = Some s1 /\
    grouped (looper s1) 2 0 = Some true /\
    (forall g t, g <> 2 \/ t <> 0 -> grouped (looper s1) g t = grouped playing_looper g t) /\
    tracks (looper s1) = tracks playing_looper /\
    masterLength (looper s1) = masterLength playing_looper /\
    assignTrackToGroup s1 = Some s1 /\
    removeTrackFromGroup s1 = removeTrackFromGroup (playing_system assign_track0_group2) /\
    removeTrackFromGroup (playing_system assign_track0_group2) ≫= assignTrackToGroup
      = Some s1.
Proof.
  apply (assignTrackToGroup_binds_entry (playing_system assign_track0_group2) false).
  reflexivity.
Defined.

(** ** Starting an overdub *)

(** X3. [startOverdubbing] is defined whenever the command's track exists.
    A track that is not in Playback state (empty, muted or recording) makes
    it a no-op.  Otherwise the system goes to Overdubbing, the track to
    Recording and becomes the selected track, and nothing else changes: the
    track keeps its position, start, end, repeat flag and audio, and the
    other tracks, the groups, the master index and the master lengths are
    as before. *)
Theorem startOverdubbing_keeps_take (s : System) (t : Track) :
  track_at (looper s) (cc_track (cc s)) = Some t ->
  (trk_state t <> TRACK_STATE_PLAYBACK -> startOverdubbing s = Some s) /\
  (trk_state t = TRACK_STATE_PLAYBACK ->
   exists s',
     startOverdubbing s = Some s' /\
     state (looper s') = SYSTEM_STATE_OVERDUBBING /\
     selectedTrack (looper s') = cc_track (cc s) /\
     track_at (looper s') (cc_track (cc s)) = Some (set_trk_state TRACK_STATE_RECORDING t) /\
     (forall j, j <> cc_track (cc s) -> track_at (looper s') j = track_at (looper s) j) /\
     groupedTracks (looper s') = groupedTracks (looper s) /\
     selectedGroup (looper s') = selectedGroup (looper s) /\
     masterCurrIdx (looper s') = masterCurrIdx (looper s) /\
     masterLength (looper s') = masterLength (looper s) /\
     cc s' = cc s).
Proof.
  intros Htr. destruct (track_at_Some_range _ _ _ Htr) as [H0 Hlen].
  unfold startOverdubbing. rewrite Htr. cbn [mbind option_bind].
  split.
  - intros Hne. destruct (trk_state t); done.
  - intros ->. cbn [TrackState_eqb negb].
    rewrite (modify_track_ok _ _ _ t) by exact Htr. cbn [mbind option_bind].
    eexists. split; [reflexivity|]. cbn [looper set_looper cc].
    split; [reflexivity|]. split; [reflexivity|].
    split; [by apply track_at_store_eq|].
    split; [|done].
    intros j Hj. rewrite track_at_set_state. by rewrite track_at_store_ne by lia.
Qed.

Lemma startOverdubbing_keeps_take_witness :
  (trk_state recorded_track <> TRACK_STATE_PLAYBACK ->
   startOverdubbing (playing_system overdub_track0) = Some (playing_system overdub_track0)) /\
  (trk_state recorded_track = TRACK_STATE_PLAYBACK ->
   exists s',
     startOverdubbing (playing_system overdub_track0) = Some s' /\
     state (looper s') = SYSTEM_STATE_OVERDUBBING /\
     selectedTrack (looper s') = 0 /\
     track_at (looper s') 0 = Some (set_trk_state TRACK_STATE_RECORDING recorded_track) /\
     (forall j, j <> 0 -> track_at (looper s') j = track_at playing_looper j) /\
     groupedTracks (looper s') = groupedTracks playing_looper /\
     selectedGroup (looper s') = selectedGroup playing_looper /\
     masterCurrIdx (looper s') = masterCurrIdx playing_looper /\
     masterLength (looper s') = masterLength playing_looper /\
     cc s' = overdub_track0).
Proof.
  apply (startOverdubbing_keeps_take (playing_system overdub_track0) recorded_track).
  reflexivity.
Defined.

(** ** The repeat flag *)

Lemma set_repeat_same (t : Track) : set_repeat (repeat t) t = t.
Proof. by destruct t. Qed.

Lemma track_at_set_selectedTrack (l : MasterLooper) (v t : Z) :
  track_at (set_selectedTrack v l) t = track_at l t.
Proof. reflexivity. Qed.

(** X4. A Play command in Playback state ([updateRepeatStatus]) is defined
    whenever the command's track exists: afterwards the track's repeat flag
    is the one the command carries, the track is the selected track, and
    nothing else has changed (position, start, end, state and audio of the
    track, the other tracks, the system state, the master index); sending
    the same command again changes nothing. *)
Theorem updateRepeatStatus_sets_flag (s : System) (t : Track) :
  track_at (looper s) (cc_track (cc s)) = Some t ->
  exists s',
    updateRepeatStatus s = Some s' /\
    track_at (looper s') (cc_track (cc s)) = Some (set_repeat (cc_repeat (cc s)) t) /\
    selectedTrack (looper s') = cc_track (cc s) /\
    (forall j, j <> cc_track (cc s) -> track_at (looper s') j = track_at (looper s) j) /\
    state (looper s') = state (looper s) /\
    masterCurrIdx (looper s') = masterCurrIdx (looper s) /\
    groupedTracks (looper s') = groupedTracks (looper s) /\
    updateRepeatStatus s' = Some s'.
Proof.
  intros Htr. destruct (track_at_Some_range _ _ _ Htr) as [H0 Hlen].
  unfold updateRepeatStatus at 1.
  rewrite track_at_set_selectedTrack, Htr. cbn [mbind option_bind].
  destruct (xorb (repeat t) (cc_repeat (cc s))) eqn:Hx.
  - rewrite (modify_track_ok _ _ _ t) by exact Htr. cbn [mbind option_bind].
    eexists. split; [reflexivity|]. cbn [looper set_looper].
    assert (Hnew : track_at
                     (store_track (cc_track (cc s)) (set_repeat (cc_repeat (cc s)) t)
                        (set_selectedTrack (cc_track (cc s)) (looper s)))
                     (cc_track (cc s)) = Some (set_repeat (cc_repeat (cc s)) t))
      by by apply track_at_store_eq.
    split; [exact Hnew|]. split; [reflexivity|].
    split; [intros j Hj; by rewrite track_at_store_ne by lia|].
    split; [reflexivity|]. split; [reflexivity|]. split; [reflexivity|].
    unfold updateRepeatStatus. cbn [looper set_looper cc].
    rewrite track_at_set_selectedTrack, Hnew. cbn [mbind option_bind repeat set_repeat].
    by rewrite xorb_nilpotent.
  - apply xorb_eq in Hx. cbn [mbind option_bind].
    eexists. split; [reflexivity|]. cbn [looper set_looper].
    rewrite track_at_set_selectedTrack.
    split; [by rewrite <- Hx, set_repeat_same|]. split; [reflexivity|].
    split; [done|]. split; [reflexivity|]. split; [reflexivity|]. split; [reflexivity|].
    unfold updateRepeatStatus. cbn [looper set_looper cc].
    rewrite !track_at_set_selectedTrack, Htr. cbn [mbind option_bind]. by rewrite Hx, xorb_nilpotent.
Qed.

Lemma updateRepeatStatus_sets_flag_witness :
  exists s',
    updateRepeatStatus (playing_system repeat_track0) = Some s' /\
    track_at (looper s') 0 = Some (set_repeat true recorded_track) /\
    selectedTrack (looper s') = 0 /\
    (forall j, j <> 0 -> track_at (looper s') j = track_at playing_looper j) /\
    state (looper s') = state playing_looper /\
    masterCurrIdx (looper s') = masterCurrIdx playing_looper /\
    groupedTracks (looper s') = groupedTracks playing_looper /\
    updateRepeatStatus s' = Some s'.
Proof.
  apply (updateRepeatStatus_sets_flag (playing_system repeat_track0) recorded_track).
  reflexivity.
Defined.

(** ** The state machine *)

(** X5. A published command is consumed once: whenever [controlStateCheck]
    returns, the [updated] flag is clear, a second call changes nothing, and
    a call with the flag already clear returns the system as it is. *)
Theorem controlStateCheck_consumes_command (s s' : System) :
  controlStateCheck s = Some s' ->
  cc_updated (cc s') = false /\
  controlStateCheck s' = Some s' /\
  (cc_updated (cc s) = false -> s' = s).
Proof.
  unfold controlStateCheck at 1. destruct (cc_updated (cc s)) eqn:Hupd.
  - destruct (controlStateMachine _ _) as [s1|]; [|discriminate].
    cbn [mbind option_bind]. intros [= <-].
    split; [reflexivity|]. split; [|discriminate]. reflexivity.
  - intros [= <-]. split; [exact Hupd|]. split; [|done].
    unfold controlStateCheck. by rewrite Hupd.
Qed.

Lemma controlStateCheck_consumes_command_witness :
  cc_updated
    (cc (mkSystem
           (store_track 0 (set_trk_state TRACK_STATE_MUTE recorded_track)
              (set_selectedTrack 0 playing_looper))
           (set_cc_updated false mute_track0))) = false /\
  controlStateCheck
    (mkSystem
       (store_track 0 (set_trk_state TRACK_STATE_MUTE recorded_track)
          (set_selectedTrack 0 playing_looper))
       (set_cc_updated false mute_track0))
  = Some (mkSystem
            (store_track 0 (set_trk_state TRACK_STATE_MUTE recorded_track)
               (set_selectedTrack 0 playing_looper))
            (set_cc_updated false mute_track0)) /\
  (cc_updated (cc (playing_system mute_track0)) = false ->
   mkSystem
     (store_track 0 (set_trk_state TRACK_STATE_MUTE recorded_track)
        (set_selectedTrack 0 playing_looper))
     (set_cc_updated false mute_track0)
   = playing_system mute_track0).
Proof.
  apply (controlStateCheck_consumes_command (playing_system mute_track0)).
  reflexivity.
Defined.

(** X6. The events the state machine drops.  In Passthrough every event but
    Record leaves the system as it is; in Recording and in Overdubbing every
    event but Passthrough (reset) and Play does; in Calibration every event
    does, since no handler exists for that state. *)
Theorem controlStateMachine_ignored_events (event : SystemEvents) (s : System) :
  (state (looper s) = SYSTEM_STATE_PASSTHROUGH ->
   event <> SYSTEM_EVENT_RECORD_TRACK ->
   controlStateMachine event s = Some s) /\
  (state (looper s) = SYSTEM_STATE_RECORDING \/
   state (looper s) = SYSTEM_STATE_OVERDUBBING ->
   event <> SYSTEM_EVENT_PASSTHROUGH -> event <> SYSTEM_EVENT_PLAY_TRACK ->
   controlStateMachine event s = Some s) /\
  (state (looper s) = SYSTEM_STATE_CALIBRATION ->
   controlStateMachine event s = Some s).
Proof.
  unfold controlStateMachine. split; [|split].
  - intros -> Hne. by destruct event.
  - intros [-> | ->] Hr Hp; by destruct event.
  - by intros ->.
Qed.

Lemma controlStateMachine_ignored_events_witness :
  controlStateMachine SYSTEM_EVENT_MUTE_TRACK start_system = Some start_system /\
  controlStateMachine SYSTEM_EVENT_MUTE_TRACK recording_system = Some recording_system.
Proof.
  split.
  - apply (proj1 (controlStateMachine_ignored_events SYSTEM_EVENT_MUTE_TRACK start_system));
      [reflexivity|discriminate].
  - apply (proj1 (proj2 (controlStateMachine_ignored_events SYSTEM_EVENT_MUTE_TRACK
                           recording_system)));
      [left; reflexivity|discriminate|discriminate].
Defined.

(** ** Counting the active tracks *)

Lemma track_at_of_nat (l : MasterLooper) (i : nat) :
  track_at l (Z.of_nat i) = tracks l !! i.
Proof.
  unfold track_at. destruct (Z.ltb_spec (Z.of_nat i) 0); [lia|].
  by rewrite Nat2Z.id.
Qed.

Lemma getNumActiveTracks_seq (l : MasterLooper) (k a : nat) (acc : Z) :
  (a + k <= length (tracks l))%nat ->
  (forall i, (a <= i < a + k)%nat ->
     grouped l (selectedGroup l) (Z.of_nat i) = Some true) ->
  for_each_track (getNumActiveTracks_body l) (Z.of_nat <$> seq a k) acc =
  Some (acc + Z.of_nat (length (filter (fun t => 0 < endIdx t)
                                       (take k (drop a (tracks l)))))).
Proof.
  revert a acc. induction k as [|k IH]; intros a acc Hlen Hgrp.
  - rewrite take_0. cbn [seq fmap list_fmap for_each_track].
    rewrite filter_nil. cbn [length]. f_equal. lia.
  - cbn [seq fmap list_fmap for_each_track].
    destruct (lookup_lt_is_Some_2 (tracks l) a) as [x Hx]; [lia|].
    assert (Hb : getNumActiveTracks_body l (Z.of_nat a) acc
                 = Some (if 0 <? endIdx x then acc + 1 else acc)).
    { unfold getNumActiveTracks_body. rewrite Hgrp by lia.
      by rewrite track_at_of_nat, Hx. }
    rewrite Hb. cbn [mbind option_bind].
    change (list_fmap nat Z Z.of_nat (seq (S a) k)) with (Z.of_nat <$> seq (S a) k).
    rewrite IH by (try lia; intros i Hi; apply Hgrp; lia).
    rewrite (drop_S _ _ _ Hx). cbn [take]. rewrite filter_cons.
    f_equal. destruct (Z.ltb_spec 0 (endIdx x)); destruct (decide (0 < endIdx x));
      try lia; cbn [length]; lia.
Qed.

(** X7. [getNumActiveTracks] on a selected group whose sixteen entries are
    all bound returns the number of tracks of the looper with [endIdx > 0]:
    every track counts, whatever its state. *)
Theorem getNumActiveTracks_counts_recorded (l : MasterLooper) :
  wf_looper l ->
  (forall idx, 0 <= idx < NUM_TRACKS -> grouped l (selectedGroup l) idx = Some true) ->
  getNumActiveTracks l = Some (recorded_tracks l) /\
  0 <= recorded_tracks l <= NUM_TRACKS.
Proof.
  intros (Hlen & _) Hgrp. split.
  - unfold getNumActiveTracks, track_indices.
    rewrite getNumActiveTracks_seq.
    + rewrite drop_0, firstn_all2 by lia. reflexivity.
    + rewrite Hlen. cbn. lia.
    + intros i Hi. apply Hgrp. unfold NUM_TRACKS in *. lia.
  - unfold recorded_tracks.
    pose proof (length_filter (fun t => 0 < endIdx t) (tracks l)) as Hle.
    rewrite Hlen in Hle. unfold NUM_TRACKS in *. lia.
Qed.

Lemma getNumActiveTracks_counts_recorded_witness :
  getNumActiveTracks playing_looper = Some (recorded_tracks playing_looper) /\
  0 <= recorded_tracks playing_looper <= NUM_TRACKS.
Proof.
  apply (getNumActiveTracks_counts_recorded playing_looper).
  - solve_wf.
  - intros idx Hidx. unfold NUM_TRACKS in Hidx.
    assert (Hc : idx = 0 \/ idx = 1 \/ idx = 2 \/ idx = 3 \/ idx = 4 \/ idx = 5 \/
                 idx = 6 \/ idx = 7 \/ idx = 8 \/ idx = 9 \/ idx = 10 \/ idx = 11 \/
                 idx = 12 \/ idx = 13 \/ idx = 14 \/ idx = 15) by lia.
    repeat (destruct Hc as [Hc|Hc]; [subst; reflexivity|]). subst; reflexivity.
Defined.

(** A loop that reaches an iteration whose body is undefined is undefined. *)
Lemma for_each_track_undefined {S : Type} (body : Z -> S -> option S)
    (pre post : list Z) (idx : Z) (s : S) :
  (forall s0, for_each_track body pre s = Some s0 -> body idx s0 = None) ->
  for_each_track body (pre ++ idx :: post) s = None.
Proof.
  intros H. rewrite for_each_track_app.
  destruct (for_each_track body pre s) as [s0|] eqn:E; [|done].
  cbn [mbind option_bind for_each_track]. by rewrite (H s0).
Qed.

(** X8. [getNumActiveTracks] dereferences every entry of the selected
    group's row: one unbound (NULL) entry among the sixteen makes the call
    undefined. *)
Theorem getNumActiveTracks_null_entry (l : MasterLooper) (idx : Z) :
  0 <= idx < NUM_TRACKS ->
  grouped l (selectedGroup l) idx = Some false ->
  getNumActiveTracks l = None.
Proof.
  intros Hidx Hnull. unfold getNumActiveTracks.
  destruct (track_indices_split idx Hidx) as (pre & post & -> & _).
  apply for_each_track_undefined. intros s0 _.
  unfold getNumActiveTracks_body. by rewrite Hnull.
Qed.

Lemma getNumActiveTracks_null_entry_witness :
  getNumActiveTracks blank_looper = None.
Proof.
  apply (getNumActiveTracks_null_entry blank_looper 3).
  - vm_compute. split; [discriminate|reflexivity].
  - reflexivity.
Defined.

(** ** Loops that treat each track on its own *)

Lemma NoDup_track_indices : NoDup track_indices.
Proof.
  unfold track_indices. apply NoDup_fmap_2; [apply _|apply NoDup_seq].
Qed.

(** A loop over distinct tracks whose body keeps an invariant of the looper
    and changes the track of its own iteration only: every track of the
    loop is related to its old value by the body's relation, every other
    track is as before. *)
Lemma for_each_track_pointwise (Inv : MasterLooper -> Prop)
    (Rt : Z -> Track -> Track -> Prop) (body : Z -> MasterLooper -> option MasterLooper)
    (idxs : list Z) :
  NoDup idxs ->
  (forall i l0 t, In i idxs -> Inv l0 -> track_at l0 i = Some t ->
     exists l1 t1, body i l0 = Some l1 /\ Inv l1 /\ track_at l1 i = Some t1 /\
                   Rt i t t1 /\ forall j, j <> i -> track_at l1 j = track_at l0 j) ->
  forall l0, Inv l0 -> (forall i, In i idxs -> is_Some (track_at l0 i)) ->
  exists l', for_each_track body idxs l0 = Some l' /\ Inv l' /\
    (forall j t, In j idxs -> track_at l0 j = Some t ->
       exists t', track_at l' j = Some t' /\ Rt j t t') /\
    (forall j, ~ In j idxs -> track_at l' j = track_at l0 j).
Proof.
  intros Hnd Hstep. induction idxs as [|i idxs IH]; intros l0 Hinv Hdef.
  - exists l0. split; [done|]. split; [done|]. split; [intros j t []|done].
  - apply NoDup_cons in Hnd as [Hni Hnd].
    destruct (Hdef i) as [t Ht]; [by left|].
    destruct (Hstep i l0 t) as (l1 & t1 & Hb & Hinv1 & Ht1 & HR & Hoth); [by left|done|done|].
    destruct (IH Hnd) with (l0 := l1) as (l' & Hrun & Hinv' & Hin & Hout); [|done| |].
    { intros i' l2 t' Hi'. apply Hstep. by right. }
    { intros j Hj. rewrite Hoth; [apply Hdef; by right|].
      intros ->. apply Hni. by apply list_elem_of_In. }
    exists l'. cbn [for_each_track]. rewrite Hb. cbn [mbind option_bind].
    split; [done|]. split; [done|]. split.
    + intros j tj [<-|Hj] Htj.
      * rewrite Hout by (intros Hc; apply Hni; by apply list_elem_of_In).
        rewrite Ht in Htj. injection Htj as <-. by exists t1.
      * apply Hin; [done|]. rewrite Hoth; [done|].
        intros ->. apply Hni. by apply list_elem_of_In.
    + intros j Hj. rewrite Hout by (intros Hc; apply Hj; by right).
      apply Hoth. intros ->. apply Hj. by left.
Qed.

Lemma only_tracks_changed_refl (l : MasterLooper) : only_tracks_changed l l.
Proof. by destruct l. Qed.

Lemma only_tracks_changed_store (l l0 : MasterLooper) (i : Z) (v : Track) :
  only_tracks_changed l l0 -> only_tracks_changed l (store_track i v l0).
Proof. intros H. exact H. Qed.

Lemma only_tracks_changed_grouped (l l0 : MasterLooper) (g t : Z) :
  only_tracks_changed l l0 -> grouped l0 g t = grouped l g t.
Proof.
  intros H. apply (f_equal groupedTracks) in H. cbn in H.
  unfold grouped. by rewrite H.
Qed.

Lemma only_tracks_changed_trans (la lb lc : MasterLooper) :
  only_tracks_changed la lb -> only_tracks_changed lb lc -> only_tracks_changed la lc.
Proof.
  unfold only_tracks_changed. intros H1 H2.
  change (set_tracks (tracks la) (set_tracks (tracks lb) lc) = la).
  by rewrite H2.
Qed.

(** ** Selecting a group *)

Lemma setActiveGroup_mute_step (i : Z) (la lb : MasterLooper) :
  setActiveGroup_mute i la = Some lb -> only_tracks_changed la lb.
Proof.
  unfold setActiveGroup_mute.
  destruct (grouped la (selectedGroup la) i) as [[|]|]; try discriminate.
  destruct (track_at la i) as [t|] eqn:Ht; cbn [mbind option_bind]; [|discriminate].
  destruct (negb _).
  - rewrite (modify_track_ok _ _ _ t) by done. intros [= <-].
    apply only_tracks_changed_store, only_tracks_changed_refl.
  - intros [= <-]. apply only_tracks_changed_refl.
Qed.

Lemma setActiveGroup_mute_frame (idxs : list Z) (la l1 : MasterLooper) :
  for_each_track setActiveGroup_mute idxs la = Some l1 -> only_tracks_changed la l1.
Proof.
  revert la. induction idxs as [|i idxs IH]; intros la; cbn [for_each_track].
  - intros [= <-]. apply only_tracks_changed_refl.
  - destruct (setActiveGroup_mute i la) as [lb|] eqn:Hb; cbn [mbind option_bind];
      [|discriminate].
    intros H. apply IH in H. apply setActiveGroup_mute_step in Hb.
    by eapply only_tracks_changed_trans.
Qed.

(** X9. [setActiveGroup] reads the state of every entry of the new group's
    row before testing the entry: one unbound (NULL) entry among the sixteen
    makes the call undefined. *)
Theorem setActiveGroup_null_entry (s : System) (idx : Z) :
  0 <= idx < NUM_TRACKS ->
  grouped (looper s) (cc_group (cc s)) idx = Some false ->
  setActiveGroup s = None.
Proof.
  intros Hidx Hnull. unfold setActiveGroup.
  set (l0 := set_selectedGroup (cc_group (cc s)) (looper s)).
  destruct (track_indices_split idx Hidx) as (pre & post & -> & _).
  rewrite for_each_track_undefined; [done|].
  intros l1 Hl1. apply setActiveGroup_mute_frame in Hl1.
  unfold setActiveGroup_mute.
  assert (Hsg : selectedGroup l1 = cc_group (cc s)).
  { apply (f_equal selectedGroup) in Hl1. exact Hl1. }
  rewrite Hsg, (only_tracks_changed_grouped l0 l1) by done.
  change (grouped l0 (cc_group (cc s)) idx) with (grouped (looper s) (cc_group (cc s)) idx).
  by rewrite Hnull.
Qed.

Lemma setActiveGroup_null_entry_witness :
  setActiveGroup (mkSystem blank_looper select_group1) = None.
Proof.
  apply (setActiveGroup_null_entry (mkSystem blank_looper select_group1) 0).
  - vm_compute. split; [discriminate|reflexivity].
  - reflexivity.
Defined.

Lemma track_indices_defined (l : MasterLooper) :
  wf_looper l -> forall i, In i track_indices -> is_Some (track_at l i).
Proof.
  intros Hwf i Hi. apply track_indices_range in Hi.
  destruct (wf_track_at l i Hwf Hi) as [t Ht]. by exists t.
Qed.

(** X10. [setActiveGroup] on a group whose sixteen entries are all bound:
    the call returns; the group is selected and the master index is 0; every
    track that is not empty (Off) is set to Playback and put back on its
    start (its [startIdx] when it repeats, 0 otherwise), a muted or recording
    track included; an empty track is left as it is; ends, starts, repeat
    flags and audio, the groups, the master lengths and the system state are
    as before. *)
Theorem setActiveGroup_restarts_tracks (s : System) :
  wf_looper (looper s) ->
  (forall idx, 0 <= idx < NUM_TRACKS ->
     grouped (looper s) (cc_group (cc s)) idx = Some true) ->
  exists s',
    setActiveGroup s = Some s' /\
    selectedGroup (looper s') = cc_group (cc s) /\
    masterCurrIdx (looper s') = 0 /\
    state (looper s') = state (looper s) /\
    groupedTracks (looper s') = groupedTracks (looper s) /\
    masterLength (looper s') = masterLength (looper s) /\
    selectedTrack (looper s') = selectedTrack (looper s) /\
    cc s' = cc s /\
    forall idx t, track_at (looper s) idx = Some t ->
      track_at (looper s') idx =
      Some (if TrackState_eqb (trk_state t) TRACK_STATE_OFF then t
            else set_currIdx (if repeat t then startIdx t else 0)
                   (set_trk_state TRACK_STATE_PLAYBACK t)).
Proof.
  intros Hwf Hgrp. unfold setActiveGroup.
  set (g := cc_group (cc s)) in *.
  set (l0 := set_selectedGroup g (looper s)).
  assert (Hwf0 : wf_looper l0) by (by destruct Hwf as (? & ? & ? & ?)).
  (* first loop: every track that is not Off is muted *)
  destruct (for_each_track_pointwise
              (fun l1 => only_tracks_changed l0 l1)
              (fun _ t t1 => t1 = if TrackState_eqb (trk_state t) TRACK_STATE_OFF then t
                                  else set_trk_state TRACK_STATE_MUTE t)
              setActiveGroup_mute track_indices NoDup_track_indices)
    with (l0 := l0) as (l1 & Hrun1 & Hfr1 & Hin1 & Hout1).
  { intros i la t Hi Hla Ht. apply track_indices_range in Hi.
    unfold setActiveGroup_mute.
    assert (Hsg : selectedGroup la = g) by exact (f_equal selectedGroup Hla).
    rewrite Hsg, (only_tracks_changed_grouped l0 la) by done.
    change (grouped l0 g i) with (grouped (looper s) g i). rewrite Hgrp by done.
    rewrite Ht. cbn [mbind option_bind].
    destruct (track_at_Some_range _ _ _ Ht) as [H0 Hlen].
    destruct (TrackState_eqb (trk_state t) TRACK_STATE_OFF); cbn [negb].
    - exists la, t. by repeat split.
    - rewrite (modify_track_ok _ _ _ t) by done.
      eexists _, _. split; [reflexivity|].
      split; [by apply only_tracks_changed_store|].
      split; [by apply track_at_store_eq|]. split; [reflexivity|].
      intros j Hj. by rewrite track_at_store_ne by lia. }
  { apply only_tracks_changed_refl. }
  { by apply track_indices_defined. }
  rewrite Hrun1. cbn [mbind option_bind].
  (* second loop: every track that is not Off plays from its start *)
  destruct (for_each_track_pointwise
              (fun l2 => only_tracks_changed l0 l2)
              (fun _ t t1 => t1 = if TrackState_eqb (trk_state t) TRACK_STATE_OFF then t
                                  else set_currIdx (if repeat t then startIdx t else 0)
                                         (set_trk_state TRACK_STATE_PLAYBACK t))
              setActiveGroup_play track_indices NoDup_track_indices)
    with (l0 := l1) as (l2 & Hrun2 & Hfr2 & Hin2 & Hout2).
  { intros i la t Hi Hla Ht. apply track_indices_range in Hi.
    unfold setActiveGroup_play.
    assert (Hsg : selectedGroup la = g) by exact (f_equal selectedGroup Hla).
    rewrite Hsg, (only_tracks_changed_grouped l0 la) by done.
    change (grouped l0 g i) with (grouped (looper s) g i). rewrite Hgrp by done.
    rewrite Ht. cbn [mbind option_bind].
    destruct (track_at_Some_range _ _ _ Ht) as [H0 Hlen].
    destruct (TrackState_eqb (trk_state t) TRACK_STATE_OFF); cbn [negb].
    - exists la, t. by repeat split.
    - rewrite (modify_track_ok _ _ _ t) by done.
      eexists _, _. split; [reflexivity|].
      split; [by apply only_tracks_changed_store|].
      split; [by apply track_at_store_eq|]. split; [reflexivity|].
      intros j Hj. by rewrite track_at_store_ne by lia. }
  { done. }
  { intros i Hi. destruct (track_indices_defined l0 Hwf0 i Hi) as [t Ht].
    destruct (Hin1 i t Hi Ht) as (t' & Ht' & _). by exists t'. }
  rewrite Hrun2. cbn [mbind option_bind].
  eexists. split; [reflexivity|]. cbn [looper set_looper cc].
  split; [exact (f_equal selectedGroup Hfr2)|]. split; [reflexivity|].
  split; [exact (f_equal state Hfr2)|].
  split; [exact (f_equal groupedTracks Hfr2)|].
  split; [exact (f_equal masterLength Hfr2)|].
  split; [exact (f_equal selectedTrack Hfr2)|].
  split; [reflexivity|].
  intros idx t Ht. rewrite track_at_set_masterCurrIdx.
  assert (Hidx : In idx track_indices).
  { apply track_indices_range. destruct (track_at_Some_range _ _ _ Ht) as [H0 Hlen].
    destruct Hwf as (Hl & _). rewrite Hl in Hlen. unfold NUM_TRACKS in *. lia. }
  destruct (Hin1 idx t Hidx Ht) as (t1 & Ht1 & ->).
  destruct (Hin2 idx _ Hidx Ht1) as (t2 & Ht2 & ->).
  rewrite Ht2. f_equal.
  destruct (trk_state t) eqn:Hst; cbn [TrackState_eqb trk_state set_trk_state];
    try reflexivity; by rewrite Hst.
Qed.

Lemma setActiveGroup_restarts_tracks_witness :
  exists s',
    setActiveGroup (playing_system select_group1) = Some s' /\
    selectedGroup (looper s') = 1 /\
    masterCurrIdx (looper s') = 0 /\
    state (looper s') = state playing_looper /\
    groupedTracks (looper s') = groupedTracks playing_looper /\
    masterLength (looper s') = masterLength playing_looper /\
    selectedTrack (looper s') = selectedTrack playing_looper /\
    cc s' = select_group1 /\
    forall idx t, track_at playing_looper idx = Some t ->
      track_at (looper s') idx =
      Some (if TrackState_eqb (trk_state t) TRACK_STATE_OFF then t
            else set_currIdx (if repeat t then startIdx t else 0)
                   (set_trk_state TRACK_STATE_PLAYBACK t)).
Proof.
  apply (setActiveGroup_restarts_tracks (playing_system select_group1)).
  - solve_wf.
  - intros idx Hidx. unfold NUM_TRACKS in Hidx.
    assert (Hc : idx = 0 \/ idx = 1 \/ idx = 2 \/ idx = 3 \/ idx = 4 \/ idx = 5 \/
                 idx = 6 \/ idx = 7 \/ idx = 8 \/ idx = 9 \/ idx = 10 \/ idx = 11 \/
                 idx = 12 \/ idx = 13 \/ idx = 14 \/ idx = 15) by lia.
    repeat (destruct Hc as [Hc|Hc]; [subst; reflexivity|]). subst; reflexivity.
Defined.

(** ** Reset *)

Lemma list_of_length_4 {A : Type} (L : list A) :
  length L = 4%nat -> exists a b c d, L = [a; b; c; d].
Proof.
  destruct L as [|a [|b [|c [|d [|e L]]]]]; try discriminate.
  intros _. by exists a, b, c, d.
Qed.

Lemma list_of_length_16 {A : Type} (L : list A) :
  length L = 16%nat ->
  exists a0 a1 a2 a3 a4 a5 a6 a7 a8 a9 a10 a11 a12 a13 a14 a15,
    L = [a0; a1; a2; a3; a4; a5; a6; a7; a8; a9; a10; a11; a12; a13; a14; a15].
Proof.
  destruct L as [|a0 [|a1 [|a2 [|a3 [|a4 [|a5 [|a6 [|a7 [|a8 [|a9 [|a10 [|a11 [|a12
    [|a13 [|a14 [|a15 [|e L]]]]]]]]]]]]]]]]]; try discriminate.
  intros _. by exists a0, a1, a2, a3, a4, a5, a6, a7, a8, a9, a10, a11, a12, a13, a14, a15.
Qed.

Lemma track_index_cases (idx : Z) :
  0 <= idx < NUM_TRACKS ->
  idx = 0 \/ idx = 1 \/ idx = 2 \/ idx = 3 \/ idx = 4 \/ idx = 5 \/ idx = 6 \/ idx = 7 \/
  idx = 8 \/ idx = 9 \/ idx = 10 \/ idx = 11 \/ idx = 12 \/ idx = 13 \/ idx = 14 \/ idx = 15.
Proof. unfold NUM_TRACKS. lia. Qed.

Lemma group_index_cases (g : Z) :
  0 <= g < NUM_GROUPS -> g = 0 \/ g = 1 \/ g = 2 \/ g = 3.
Proof. unfold NUM_GROUPS. lia. Qed.

(** X11. [resetSystem] always returns.  Afterwards the system is in
    Passthrough, the master index, the selected track and the selected group
    are 0, monitoring is on and the control lock released, every master
    length is 0, no track is bound to any group, and every track is empty
    (Off) with position, start and end 0 and no repeat; the audio of the
    tracks is not erased and [maxIdx] is kept.  The stored command is not
    touched. *)
Theorem resetSystem_clears_looper (s : System) :
  wf_looper (looper s) ->
  exists s',
    resetSystem s = Some s' /\
    state (looper s') = SYSTEM_STATE_PASSTHROUGH /\
    masterCurrIdx (looper s') = 0 /\
    selectedTrack (looper s') = 0 /\ selectedGroup (looper s') = 0 /\
    monitoringOff (looper s') = false /\ controlLocked (looper s') = false /\
    (forall g, 0 <= g < NUM_GROUPS -> masterLength_at (looper s') g = Some 0) /\
    (forall g idx, 0 <= g < NUM_GROUPS -> 0 <= idx < NUM_TRACKS ->
       grouped (looper s') g idx = Some false) /\
    (forall idx t, track_at (looper s) idx = Some t ->
       track_at (looper s') idx =
       Some (mkTrack (channelLeft t) (channelRight t) 0 0 0 (maxIdx t)
                     TRACK_STATE_OFF false)) /\
    wf_looper (looper s') /\
    cc s' = cc s.
Proof.
  intros Hwf. eexists. split; [reflexivity|].
  destruct s as [l c]. destruct l as [tr gt ipR opR ml mci cnt rfd pfd st sg msdl sta mo cl ex].
  destruct Hwf as (Ht & Hm & Hg & Hrows). cbn in Ht, Hm, Hg, Hrows.
  apply list_of_length_16 in Ht
    as (t0 & t1 & t2 & t3 & t4 & t5 & t6 & t7 & t8 & t9 & t10 & t11 & t12 & t13 & t14 & t15 & ->).
  apply list_of_length_4 in Hm as (m0 & m1 & m2 & m3 & ->).
  apply list_of_length_4 in Hg as (r0 & r1 & r2 & r3 & ->).
  apply Forall_cons in Hrows as [H0 Hrows]. apply Forall_cons in Hrows as [H1 Hrows].
  apply Forall_cons in Hrows as [H2 Hrows]. apply Forall_cons in Hrows as [H3 _].
  apply list_of_length_16 in H0 as (? & ? & ? & ? & ? & ? & ? & ? & ? & ? & ? & ? & ? & ? & ? & ? & ->).
  apply list_of_length_16 in H1 as (? & ? & ? & ? & ? & ? & ? & ? & ? & ? & ? & ? & ? & ? & ? & ? & ->).
  apply list_of_length_16 in H2 as (? & ? & ? & ? & ? & ? & ? & ? & ? & ? & ? & ? & ? & ? & ? & ? & ->).
  apply list_of_length_16 in H3 as (? & ? & ? & ? & ? & ? & ? & ? & ? & ? & ? & ? & ? & ? & ? & ? & ->).
  split; [reflexivity|]. split; [reflexivity|]. split; [reflexivity|].
  split; [reflexivity|]. split; [reflexivity|]. split; [reflexivity|].
  split.
  { intros g Hgr. apply group_index_cases in Hgr.
    destruct Hgr as [->|[->|[->| ->]]]; reflexivity. }
  split.
  { intros g idx Hgr Hidx. apply group_index_cases in Hgr. apply track_index_cases in Hidx.
    destruct Hgr as [->|[->|[->| ->]]];
      (repeat (destruct Hidx as [Hidx|Hidx]; [subst; reflexivity|])); subst; reflexivity. }
  split.
  { intros idx t Hlk.
    assert (Hidx : 0 <= idx < NUM_TRACKS).
    { apply track_at_Some_range in Hlk. cbn in Hlk. unfold NUM_TRACKS. lia. }
    apply track_index_cases in Hidx.
    repeat (destruct Hidx as [Hidx|Hidx];
            [subst; cbn in Hlk; injection Hlk as <-; reflexivity|]).
    subst; cbn in Hlk; injection Hlk as <-; reflexivity. }
  split; [|reflexivity].
  split; [reflexivity|]. split; [reflexivity|]. split; [reflexivity|].
  repeat constructor.
Qed.

Lemma resetSystem_clears_looper_witness :
  exists s',
    resetSystem (playing_system idle_cc) = Some s' /\
    state (looper s') = SYSTEM_STATE_PASSTHROUGH /\
    masterCurrIdx (looper s') = 0 /\
    selectedTrack (looper s') = 0 /\ selectedGroup (looper s') = 0 /\
    monitoringOff (looper s') = false /\ controlLocked (looper s') = false /\
    (forall g, 0 <= g < NUM_GROUPS -> masterLength_at (looper s') g = Some 0) /\
    (forall g idx, 0 <= g < NUM_GROUPS -> 0 <= idx < NUM_TRACKS ->
       grouped (looper s') g idx = Some false) /\
    (forall idx t, track_at playing_looper idx = Some t ->
       track_at (looper s') idx =
       Some (mkTrack (channelLeft t) (channelRight t) 0 0 0 (maxIdx t)
                     TRACK_STATE_OFF false)) /\
    wf_looper (looper s') /\
    cc s' = idle_cc.
Proof.
  apply (resetSystem_clears_looper (playing_system idle_cc)). solve_wf.
Defined.

(** * Further properties of the serial command decoder *)

Lemma set_exitNow_same (l : MasterLooper) : set_exitNow (exitNow l) l = l.
Proof. by destruct l. Qed.

(** The two digits of a track number decode to the number. *)
Lemma decode_track_two_digits (n : Z) :
  0 <= n <= 99 -> decode_track (48 + n / 10) (48 + n mod 10) = n.
Proof.
  intros Hn. rewrite decode_track_digits.
  - pose proof (Z.div_mod n 10). lia.
  - assert (0 <= n / 10) by (apply Z.div_pos; lia).
    assert (n / 10 < 10) by (apply Z.div_lt_upper_bound; lia). lia.
  - pose proof (Z.mod_pos_bound n 10). lia.
Qed.

Lemma decode_group_digit (g : Z) : 0 <= g <= 9 -> decode_group (48 + g) = g.
Proof. intros Hg. unfold decode_group. rewrite u8_small; lia. Qed.

(** X12. The documented command forms decode to what they document.  For a
    track number [n] below 16 written with two decimal digits and a group
    number [g] below 4 written with one, and with the stored track and group
    in range, each of "rXXgY", "oXX00", "mXX00", "uXX00", "tXXgY", "dXXgY",
    "gY000", "p0000" and "s0000" followed by CR is answered ACK, publishes
    its event with the track and group it carries (a field the form does not
    carry keeps its stored value; reset stores 0 and 0), and leaves the
    looper as it is. *)
Theorem processUART_decodes_commands (s : System) (n g : Z) :
  0 <= n < NUM_TRACKS -> 0 <= g < NUM_GROUPS -> cc_in_range (cc s) = true ->
  let d1 := 48 + n / 10 in
  let d2 := 48 + n mod 10 in
  let dg := 48 + g in
  let published tr gr ev :=
    Some (mkSystem (looper s) (mkCC tr gr ev (cc_repeat (cc s)) true),
          [SERIAL_CMD_ACCEPTED]) in
  processUART [114; d1; d2; 103; dg; 13] s = published n g SYSTEM_EVENT_RECORD_TRACK /\
  processUART [111; d1; d2; 48; 48; 13] s
    = published n (cc_group (cc s)) SYSTEM_EVENT_OVERDUB_TRACK /\
  processUART [109; d1; d2; 48; 48; 13] s
    = published n (cc_group (cc s)) SYSTEM_EVENT_MUTE_TRACK /\
  processUART [117; d1; d2; 48; 48; 13] s
    = published n (cc_group (cc s)) SYSTEM_EVENT_UNMUTE_TRACK /\
  processUART [116; d1; d2; 103; dg; 13] s
    = published n g SYSTEM_EVENT_ADD_TRACK_TO_GROUP /\
  processUART [100; d1; d2; 103; dg; 13] s
    = published n g SYSTEM_EVENT_REMOVE_TRACK_FROM_GROUP /\
  processUART [103; dg; 48; 48; 48; 13] s
    = published (cc_track (cc s)) g SYSTEM_EVENT_SET_ACTIVE_GROUP /\
  processUART [112; 48; 48; 48; 48; 13] s
    = published (cc_track (cc s)) (cc_group (cc s)) SYSTEM_EVENT_PLAY_TRACK /\
  processUART [115; 48; 48; 48; 48; 13] s = published 0 0 SYSTEM_EVENT_PASSTHROUGH.
Proof.
  intros Hn Hg Hcc d1 d2 dg published. subst d1 d2 dg published.
  unfold cc_in_range in Hcc.
  apply andb_prop in Hcc as [Hcc Hg2]. apply andb_prop in Hcc as [Hcc Hg1].
  apply andb_prop in Hcc as [Ht1 Ht2].
  assert (Hdt : decode_track (48 + n / 10) (48 + n mod 10) = n)
    by (apply decode_track_two_digits; unfold NUM_TRACKS in *; lia).
  assert (Hdg : decode_group (48 + g) = g)
    by (apply decode_group_digit; unfold NUM_GROUPS in *; lia).
  assert (Hrn : (0 <=? n) && (n <? NUM_TRACKS) = true).
  { destruct (Z.leb_spec 0 n), (Z.ltb_spec n NUM_TRACKS); first [lia|reflexivity]. }
  assert (Hrg : (0 <=? g) && (g <? NUM_GROUPS) = true).
  { destruct (Z.leb_spec 0 g), (Z.ltb_spec g NUM_GROUPS); first [lia|reflexivity]. }
  apply andb_prop in Hrn as [Hn1 Hn2]. apply andb_prop in Hrg as [Hg3 Hg4].
  unfold processUART.
  cbn [lookup list_lookup SERIAL_CMD_OFFSET SERIAL_TRACK_UPPER_DIGIT
       SERIAL_TRACK_LOWER_DIGIT SERIAL_SUB_CMD_OFFSET SERIAL_TRACK_GROUP_LOWER_DIGIT
       SERIAL_LAST_CHAR mbind option_bind].
  change (13 =? 13) with true. cbn [negb andb].
  rewrite !andb_false_r.
  unfold processUART_switch, is_group_subcmd.
  cbn [Z.eqb Pos.eqb orb SERIAL_CMD_OVERDUB_LC SERIAL_CMD_OVERDUB_UC
       SERIAL_CMD_RECORD_LC SERIAL_CMD_RECORD_UC SERIAL_CMD_TRACK_MUTE_LC
       SERIAL_CMD_TRACK_MUTE_UC SERIAL_CMD_TRACK_UNMUTE_LC SERIAL_CMD_TRACK_UNMUTE_UC
       SERIAL_CMD_ADD_TRACK2GROUP_LC SERIAL_CMD_ADD_TRACK2GROUP_UC
       SERIAL_CMD_RMV_TRACK_GROUP_LC SERIAL_CMD_RMV_TRACK_GROUP_UC
       SERIAL_CMD_GROUP_SELECT_LC SERIAL_CMD_GROUP_SELECT_UC
       SERIAL_CMD_PLAY_LC SERIAL_CMD_PLAY_UC SERIAL_CMD_SYSTEM_RESET_LC
       SERIAL_CMD_SYSTEM_RESET_UC SERIAL_CMD_QUIT_LC SERIAL_CMD_QUIT_UC
       SERIAL_CMD_OPTION_REPEAT_ON SERIAL_CMD_OPTION_REPEAT_OFF].
  rewrite Hdt, Hdg.
  cbn [cc_track cc_group cc_event cc_repeat cc_updated set_cc_track set_cc_group
       set_cc_event set_cc_repeat set_cc_updated].
  rewrite Hn1, Hn2, Hg3, Hg4, Ht1, Ht2, Hg1, Hg2. cbn [andb negb].
  rewrite set_exitNow_same.
  repeat split; reflexivity.
Qed.

Lemma processUART_decodes_commands_witness :
  let s := playing_system mute_track0 in
  let published tr gr ev :=
    Some (mkSystem playing_looper (mkCC tr gr ev false true), [SERIAL_CMD_ACCEPTED]) in
  processUART [114; 49; 50; 103; 51; 13] s = published 12 3 SYSTEM_EVENT_RECORD_TRACK /\
  processUART [111; 49; 50; 48; 48; 13] s = published 12 1 SYSTEM_EVENT_OVERDUB_TRACK /\
  processUART [109; 49; 50; 48; 48; 13] s = published 12 1 SYSTEM_EVENT_MUTE_TRACK /\
  processUART [117; 49; 50; 48; 48; 13] s = published 12 1 SYSTEM_EVENT_UNMUTE_TRACK /\
  processUART [116; 49; 50; 103; 51; 13] s
    = published 12 3 SYSTEM_EVENT_ADD_TRACK_TO_GROUP /\
  processUART [100; 49; 50; 103; 51; 13] s
    = published 12 3 SYSTEM_EVENT_REMOVE_TRACK_FROM_GROUP /\
  processUART [103; 51; 48; 48; 48; 13] s = published 0 3 SYSTEM_EVENT_SET_ACTIVE_GROUP /\
  processUART [112; 48; 48; 48; 48; 13] s = published 0 1 SYSTEM_EVENT_PLAY_TRACK /\
  processUART [115; 48; 48; 48; 48; 13] s = published 0 0 SYSTEM_EVENT_PASSTHROUGH.
Proof.
  apply (processUART_decodes_commands (playing_system mute_track0) 12 3).
  - vm_compute. split; [discriminate|reflexivity].
  - vm_compute. split; [discriminate|reflexivity].
  - reflexivity.
Defined.

(** X13. A Record, Track or Delete command whose fourth byte is not 'g' or
    'G' is not rejected: with the stored track and group in range it is
    answered ACK, the stored event, track and group stay as they are and the
    [updated] flag is set, so the event stored by an earlier command is
    published again. *)
Theorem processUART_republishes_stored_event (s : System) (b0 b1 b2 b3 b4 b5 : Z) :
  In b0 [SERIAL_CMD_RECORD_LC; SERIAL_CMD_RECORD_UC; SERIAL_CMD_ADD_TRACK2GROUP_LC;
         SERIAL_CMD_ADD_TRACK2GROUP_UC; SERIAL_CMD_RMV_TRACK_GROUP_LC;
         SERIAL_CMD_RMV_TRACK_GROUP_UC] ->
  b3 <> SERIAL_CMD_GROUP_SELECT_LC -> b3 <> SERIAL_CMD_GROUP_SELECT_UC ->
  valid_terminator (looper s) b5 = true ->
  cc_in_range (cc s) = true ->
  processUART [b0; b1; b2; b3; b4; b5] s
  = Some (mkSystem (looper s) (set_cc_updated true (cc s)), [SERIAL_CMD_ACCEPTED]).
Proof.
  intros Hb0 Hlc Huc Hterm Hcc. unfold processUART.
  cbn [lookup list_lookup SERIAL_CMD_OFFSET SERIAL_TRACK_UPPER_DIGIT
       SERIAL_TRACK_LOWER_DIGIT SERIAL_SUB_CMD_OFFSET SERIAL_TRACK_GROUP_LOWER_DIGIT
       SERIAL_LAST_CHAR mbind option_bind].
  unfold valid_terminator in Hterm. apply negb_true_iff in Hterm. rewrite Hterm.
  assert (Hsub : is_group_subcmd b3 = false).
  { unfold is_group_subcmd.
    destruct (Z.eqb_spec b3 SERIAL_CMD_GROUP_SELECT_LC); [done|].
    destruct (Z.eqb_spec b3 SERIAL_CMD_GROUP_SELECT_UC); done. }
  unfold cc_in_range in Hcc.
  cbn [In] in Hb0.
  destruct Hb0 as [<-|[<-|[<-|[<-|[<-|[<-|[]]]]]]];
    cbn [processUART_switch Z.eqb Pos.eqb orb SERIAL_CMD_OVERDUB_LC SERIAL_CMD_OVERDUB_UC
         SERIAL_CMD_RECORD_LC SERIAL_CMD_RECORD_UC SERIAL_CMD_TRACK_MUTE_LC
         SERIAL_CMD_TRACK_MUTE_UC SERIAL_CMD_TRACK_UNMUTE_LC SERIAL_CMD_TRACK_UNMUTE_UC
         SERIAL_CMD_ADD_TRACK2GROUP_LC SERIAL_CMD_ADD_TRACK2GROUP_UC
         SERIAL_CMD_RMV_TRACK_GROUP_LC SERIAL_CMD_RMV_TRACK_GROUP_UC];
    rewrite Hsub, Hcc; cbn [negb andb]; by rewrite set_exitNow_same.
Qed.

Lemma processUART_republishes_stored_event_witness :
  processUART [114; 48; 49; 48; 48; 13] (playing_system (set_cc_updated false mute_track0))
  = Some (mkSystem playing_looper mute_track0, [SERIAL_CMD_ACCEPTED]).
Proof.
  apply (processUART_republishes_stored_event
           (playing_system (set_cc_updated false mute_track0)) 114 48 49 48 48 13).
  - left. reflexivity.
  - discriminate.
  - discriminate.
  - reflexivity.
  - reflexivity.
Defined.

(** X14. What the control thread does with a complete command, whatever the
    command: the call returns; the frame count since the start of the cycle
    is latched in [rec_frame_delay] exactly when the first byte is 'r', 'R',
    'o' or 'O', and in [play_frame_delay] exactly when it is 'p' or 'P' and
    the system is in Recording (not in Overdubbing), also when the command
    is then answered NAK or dropped; the tracks, the groups, the master
    index and lengths, the selection and the system state are not touched:
    a command takes effect in the process cycle only. *)
Theorem controlThread_command_latches_delay (frames : Z) (s : System)
    (b0 b1 b2 b3 b4 b5 : Z) :
  exists s' out,
    controlThread_command frames [b0; b1; b2; b3; b4; b5] s = Some (s', out) /\
    rec_frame_delay (looper s') =
      (if (b0 =? SERIAL_CMD_RECORD_LC) || (b0 =? SERIAL_CMD_RECORD_UC) ||
          (b0 =? SERIAL_CMD_OVERDUB_LC) || (b0 =? SERIAL_CMD_OVERDUB_UC)
       then frames else rec_frame_delay (looper s)) /\
    play_frame_delay (looper s') =
      (if ((b0 =? SERIAL_CMD_PLAY_LC) || (b0 =? SERIAL_CMD_PLAY_UC)) &&
          SystemStates_eqb (state (looper s)) SYSTEM_STATE_RECORDING
       then frames else play_frame_delay (looper s)) /\
    tracks (looper s') = tracks (looper s) /\
    groupedTracks (looper s') = groupedTracks (looper s) /\
    masterLength (looper s') = masterLength (looper s) /\
    masterCurrIdx (looper s') = masterCurrIdx (looper s) /\
    selectedTrack (looper s') = selectedTrack (looper s) /\
    selectedGroup (looper s') = selectedGroup (looper s) /\
    state (looper s') = state (looper s).
Proof.
  unfold controlThread_command, processUART.
  cbn [lookup list_lookup SERIAL_CMD_OFFSET SERIAL_TRACK_UPPER_DIGIT
       SERIAL_TRACK_LOWER_DIGIT SERIAL_SUB_CMD_OFFSET SERIAL_TRACK_GROUP_LOWER_DIGIT
       SERIAL_LAST_CHAR mbind option_bind].
  change SERIAL_CMD_RECORD_LC with 114. change SERIAL_CMD_RECORD_UC with 82.
  change SERIAL_CMD_OVERDUB_LC with 111. change SERIAL_CMD_OVERDUB_UC with 79.
  change SERIAL_CMD_PLAY_LC with 112. change SERIAL_CMD_PLAY_UC with 80.
  set (rec := (b0 =? 114) || (b0 =? 82) || (b0 =? 111) || (b0 =? 79)).
  set (l1 := if rec then set_rec_frame_delay frames (looper s) else looper s).
  assert (Hst1 : state l1 = state (looper s)) by (subst l1; by destruct rec).
  rewrite Hst1.
  set (play := ((b0 =? 112) || (b0 =? 80)) &&
               SystemStates_eqb (state (looper s)) SYSTEM_STATE_RECORDING).
  set (l2 := if play then set_play_frame_delay frames l1 else l1).
  assert (Hfields :
    rec_frame_delay l2 = (if rec then frames else rec_frame_delay (looper s)) /\
    play_frame_delay l2 = (if play then frames else play_frame_delay (looper s)) /\
    tracks l2 = tracks (looper s) /\ groupedTracks l2 = groupedTracks (looper s) /\
    masterLength l2 = masterLength (looper s) /\
    masterCurrIdx l2 = masterCurrIdx (looper s) /\
    selectedTrack l2 = selectedTrack (looper s) /\
    selectedGroup l2 = selectedGroup (looper s) /\ state l2 = state (looper s)).
  { subst l2 l1. by destruct rec, play. }
  cbn [looper cc set_looper].
  destruct (_ && negb (b5 =? SERIAL_CMD_OPTION_REPEAT_OFF)).
  { eexists _, _. split; [reflexivity|]. exact Hfields. }
  destruct (processUART_switch _ _ _ _ _ _ _ _) as [[c ex] invalidData].
  destruct (_ && negb invalidData);
    (eexists _, _; split; [reflexivity|]; exact Hfields).
Qed.

(** * Further properties of the position engine *)

Lemma masterLength_at_store_ne (l : MasterLooper) (g g' v : Z) :
  0 <= g -> g' <> g ->
  masterLength_at (store_masterLength g v l) g' = masterLength_at l g'.
Proof.
  intros Hg Hne. unfold masterLength_at, store_masterLength.
  cbn [masterLength set_masterLength].
  destruct (Z.ltb_spec g' 0); [done|]. apply list_lookup_insert_ne. lia.
Qed.

Lemma engine_keeps_track_refl (t : Track) : engine_keeps_track t t.
Proof. repeat split; lia. Qed.

(** The recording branch on one track. *)
Lemma updateIndices_record_effect (sg idx : Z) (track : Track) (l : MasterLooper) (ml : Z) :
  wf_looper l -> 0 <= sg < NUM_GROUPS -> 0 <= idx < NUM_TRACKS ->
  masterLength_at l sg = Some ml ->
  exists l1 t1,
    updateIndices_record sg idx track l = Some l1 /\ wf_looper l1 /\
    track_at l1 idx = Some t1 /\
    (forall j, j <> idx -> track_at l1 j = track_at l j) /\
    groupedTracks l1 = groupedTracks l /\ masterCurrIdx l1 = masterCurrIdx l /\
    selectedTrack l1 = selectedTrack l /\ selectedGroup l1 = selectedGroup l /\
    (state l1 = state l \/ state l1 = SYSTEM_STATE_PLAYBACK) /\
    (channelLeft t1 = channelLeft track /\ channelRight t1 = channelRight track /\
     startIdx t1 = startIdx track /\ maxIdx t1 = maxIdx track /\
     trk_state t1 = trk_state track /\ repeat t1 = repeat track /\
     endIdx track <= endIdx t1) /\
    (endIdx t1 = endIdx track \/ endIdx t1 = currIdx t1) /\
    currIdx t1 = Z.min (currIdx track) SAMPLE_LIMIT /\
    (forall g, g <> sg -> masterLength_at l1 g = masterLength_at l g) /\
    exists ml1, masterLength_at l1 sg = Some ml1 /\ ml <= ml1 /\ endIdx t1 <= ml1 /\
                (ml1 = ml \/ ml1 = endIdx t1).
Proof.
  intros Hwf Hsg Hidx Hml. unfold updateIndices_record.
  set (full := SAMPLE_LIMIT <? currIdx track).
  set (track1 := if full then set_currIdx SAMPLE_LIMIT track else track).
  set (l1 := if full then set_state SYSTEM_STATE_PLAYBACK l else l).
  set (track2 := if endIdx track1 <? currIdx track1
                 then set_endIdx (currIdx track1) track1 else track1).
  assert (Hwf1 : wf_looper l1) by (subst l1; destruct full; [by apply wf_set_state|done]).
  assert (Hml1 : masterLength_at l1 sg = Some ml) by (subst l1; by destruct full).
  rewrite Hml1. cbn [mbind option_bind].
  set (l2 := if ml <? endIdx track2 then store_masterLength sg (endIdx track2) l1 else l1).
  assert (Hwf2 : wf_looper l2)
    by (subst l2; destruct (ml <? _); [by apply wf_store_masterLength|done]).
  assert (Hlen : (Z.to_nat idx < length (tracks l2))%nat).
  { destruct Hwf2 as (-> & _). unfold NUM_TRACKS in *. lia. }
  exists (store_track idx track2 l2), track2.
  split; [reflexivity|]. split; [by apply wf_store_track|].
  split; [apply track_at_store_eq; [lia|done]|].
  split.
  { intros j Hj. rewrite track_at_store_ne by lia.
    subst l2 l1. by destruct (ml <? _), full. }
  split; [subst l2 l1; by destruct (ml <? _), full|].
  split; [subst l2 l1; by destruct (ml <? _), full|].
  split; [subst l2 l1; by destruct (ml <? _), full|].
  split; [subst l2 l1; by destruct (ml <? _), full|].
  split; [subst l2 l1; destruct (ml <? _), full; by (left + right)|].
  assert (Hc1 : currIdx track1 = Z.min (currIdx track) SAMPLE_LIMIT).
  { subst track1 full. destruct (Z.ltb_spec SAMPLE_LIMIT (currIdx track));
      cbn [currIdx set_currIdx]; lia. }
  assert (He1 : endIdx track1 = endIdx track) by (subst track1; by destruct full).
  split.
  { subst track2 track1.
    destruct (Z.ltb_spec (endIdx (if full then set_currIdx SAMPLE_LIMIT track else track))
                         (currIdx (if full then set_currIdx SAMPLE_LIMIT track else track)));
      destruct full; cbn [channelLeft channelRight startIdx maxIdx trk_state repeat endIdx
                          currIdx set_currIdx set_endIdx] in *; repeat split; lia. }
  split.
  { subst track2. destruct (endIdx track1 <? currIdx track1);
      cbn [endIdx currIdx set_endIdx]; [by right|by left]. }
  split.
  { subst track2. by destruct (endIdx track1 <? currIdx track1). }
  split.
  { intros g Hg. change (masterLength_at (store_track idx track2 l2) g)
      with (masterLength_at l2 g).
    subst l2. destruct (ml <? _).
    - rewrite masterLength_at_store_ne by lia. subst l1. by destruct full.
    - subst l1. by destruct full. }
  change (masterLength_at (store_track idx track2 l2) sg) with (masterLength_at l2 sg).
  subst l2. destruct (Z.ltb_spec ml (endIdx track2)).
  - exists (endIdx track2). split; [by eapply masterLength_at_store_eq|].
    split; [lia|]. split; [lia|by right].
  - exists ml. split; [done|]. split; [lia|]. split; [lia|by left].
Qed.

(** The playback branch on one track. *)
Lemma updateIndices_play_effect (sg idx : Z) (track : Track) (l : MasterLooper) :
  wf_looper l -> 0 <= sg < NUM_GROUPS ->
  exists t1,
    updateIndices_play sg idx track l = Some (store_track idx t1 l) /\
    channelLeft t1 = channelLeft track /\ channelRight t1 = channelRight track /\
    startIdx t1 = startIdx track /\ maxIdx t1 = maxIdx track /\
    trk_state t1 = trk_state track /\ repeat t1 = repeat track /\
    endIdx t1 = endIdx track.
Proof.
  intros Hwf Hsg. unfold updateIndices_play.
  destruct (wf_masterLength_at l sg Hwf Hsg) as [ml Hml]. rewrite Hml; simpl.
  eexists; split; [reflexivity|].
  destruct (ml <? _), (repeat track && _); done.
Qed.

(** What a run of the position engine does to the looper, track by track:
    the shared part of the statements below. *)
Lemma updateIndices_effect (l : MasterLooper) (nframes : Z) :
  wf_looper l -> 0 <= selectedGroup l < NUM_GROUPS ->
  exists l',
    updateIndices l nframes = Some l' /\ wf_looper l' /\
    0 <= masterCurrIdx l' <= SAMPLE_LIMIT /\
    groupedTracks l' = groupedTracks l /\
    selectedTrack l' = selectedTrack l /\ selectedGroup l' = selectedGroup l /\
    (state l' = state l \/
     (engine_records (state l) = true /\ state l' = SYSTEM_STATE_PLAYBACK)) /\
    (forall idx t, track_at l idx = Some t ->
       exists t', track_at l' idx = Some t' /\ engine_keeps_track t t' /\
         (grouped l (selectedGroup l) idx <> Some true \/
          trk_state t = TRACK_STATE_OFF -> t' = t) /\
         (endIdx t' = endIdx t \/
          (idx = selectedTrack l /\ engine_records (state l) = true /\
           endIdx t' = currIdx t' /\ currIdx t' <= SAMPLE_LIMIT))) /\
    (forall g ml, masterLength_at l g = Some ml ->
       exists ml', masterLength_at l' g = Some ml' /\ ml <= ml' /\
         (ml' = ml \/
          (g = selectedGroup l /\ engine_records (state l) = true /\
           exists t', track_at l' (selectedTrack l) = Some t' /\ ml' = endIdx t'))).
Proof.
  intros Hwf Hsg. unfold updateIndices.
  destruct (updateIndices_master_spec l nframes)
    as (Hm1 & (Hg1 & Hst1 & Hsg1 & Hs1 & Hml1) & Htr1 & Hwf1).
  specialize (Hwf1 Hwf).
  set (L := updateIndices_master l nframes) in *.
  set (sg := selectedGroup l) in *. set (st := selectedTrack l) in *.
  set (Inv := fun l0 : MasterLooper =>
    wf_looper l0 /\ groupedTracks l0 = groupedTracks L /\
    masterCurrIdx l0 = masterCurrIdx L /\
    selectedTrack l0 = st /\ selectedGroup l0 = sg /\
    (state l0 = state L \/
     (engine_records (state L) = true /\ state l0 = SYSTEM_STATE_PLAYBACK)) /\
    (forall g ml, masterLength_at L g = Some ml ->
       exists ml', masterLength_at l0 g = Some ml' /\ ml <= ml' /\
         (ml' = ml \/
          (g = sg /\ engine_records (state L) = true /\
           exists t', track_at l0 st = Some t' /\ ml' = endIdx t')))).
  set (Rt := fun (i : Z) (t t1 : Track) =>
    engine_keeps_track t t1 /\
    (grouped L sg i <> Some true \/ trk_state t = TRACK_STATE_OFF -> t1 = t) /\
    (endIdx t1 = endIdx t \/
     (i = st /\ engine_records (state L) = true /\
      endIdx t1 = currIdx t1 /\ currIdx t1 <= SAMPLE_LIMIT))).
  destruct (for_each_track_pointwise Inv Rt (updateIndices_body sg st nframes)
              track_indices NoDup_track_indices) with (l0 := L)
    as (l2 & Hrun & Hinv2 & Hin & Hout).
  { (* one iteration *)
    intros i l0 t Hi Hinv0 Ht.
    pose proof Hinv0 as (Hwf0 & Hg0 & Hm0 & Hst0 & Hsg0 & Hs0 & Hml0).
    apply track_indices_range in Hi.
    unfold updateIndices_body.
    rewrite (grouped_frame L l0) by done.
    destruct (wf_grouped L sg i Hwf1 Hsg Hi) as [[|] Hgi]; rewrite Hgi.
    2:{ exists l0, t. split; [done|]. split; [exact Hinv0|]. split; [done|].
        split; [|done]. split; [apply engine_keeps_track_refl|]. split; [done|by left]. }
    rewrite Ht. cbn [mbind option_bind].
    destruct (TrackState_eqb (trk_state t) TRACK_STATE_OFF) eqn:Hoff.
    { exists l0, t. split; [done|]. split; [exact Hinv0|]. split; [done|].
      split; [|done]. split; [apply engine_keeps_track_refl|]. split; [done|by left]. }
    assert (Hnoff : trk_state t <> TRACK_STATE_OFF) by (intros E; by rewrite E in Hoff).
    set (tadv := set_currIdx (u32 (currIdx t + nframes)) t).
    destruct ((st =? i) && _) eqn:Hc.
    - (* recording branch *)
      apply andb_prop in Hc as [Hsti Hrec]. apply Z.eqb_eq in Hsti. subst i.
      assert (HrecL : engine_records (state L) = true /\ state l0 = state L).
      { destruct Hs0 as [Hs0|[Hr Hs0]]; [rewrite <- Hs0; done|].
        rewrite Hs0 in Hrec. discriminate. }
      destruct HrecL as [HrL HsL].
      destruct (wf_masterLength_at l0 sg Hwf0 Hsg) as [ml0 Hml].
      destruct (updateIndices_record_effect sg st tadv l0 ml0 Hwf0 Hsg Hi Hml)
        as (l1 & t1 & Hb & Hwfb & Htb & Hob & Hgb & Hmb & Hstb & Hsgb & Hsb & Hkeep &
            Hend & Hcur & Hmlo & ml1 & Hml1' & Hle1 & Hge1 & Hor1).
      exists l1, t1. split; [exact Hb|]. split.
      { split; [done|]. split; [congruence|]. split; [congruence|].
        split; [congruence|]. split; [congruence|]. split.
        { destruct Hsb as [Hsb|Hsb]; [left; congruence|right; by split]. }
        intros g ml Hg. destruct (Hml0 g ml Hg) as (mlp & Hmlp & Hlep & Horp).
        destruct (Z.eq_dec g sg) as [->|Hne].
        - rewrite Hml in Hmlp. injection Hmlp as <-.
          exists ml1. split; [done|]. split; [lia|].
          destruct Hor1 as [-> | ->].
          + destruct Horp as [->|(_ & _ & tp & Htp & ->)]; [by left|].
            right. split; [done|]. split; [done|]. rewrite Ht in Htp. injection Htp as <-.
            exists t1. split; [done|].
            destruct Hkeep as (_ & _ & _ & _ & _ & _ & Hge).
            cbn [endIdx tadv set_currIdx] in Hge. subst tadv. cbn in Hge. lia.
          + right. split; [done|]. split; [done|]. by exists t1.
        - exists mlp. rewrite Hmlo by done. split; [done|]. split; [done|].
          destruct Horp as [->|(Hgs & _)]; [by left|done]. }
      split; [done|]. split; [|done].
      destruct Hkeep as (HcL & HcR & Hs & Hmx & Hts & Hrp & Hge).
      split; [by repeat split|]. split.
      { intros [Hng|Hof]; [done|done]. }
      destruct Hend as [He|He]; [by left|].
      right. split; [done|]. split; [done|]. split; [done|]. rewrite Hcur. lia.
    - (* playback branch *)
      destruct (updateIndices_play_effect sg i tadv l0 Hwf0 Hsg)
        as (t1 & Hb & HcL & HcR & Hs & Hmx & Hts & Hrp & He).
      assert (Hlen : (Z.to_nat i < length (tracks l0))%nat).
      { destruct Hwf0 as (-> & _). unfold NUM_TRACKS in *. lia. }
      exists (store_track i t1 l0), t1. split; [exact Hb|]. split.
      { split; [by apply wf_store_track|]. split; [done|]. split; [done|].
        split; [done|]. split; [done|]. split; [done|].
        intros g ml Hg. destruct (Hml0 g ml Hg) as (mlp & Hmlp & Hlep & Horp).
        exists mlp. split; [done|]. split; [done|].
        destruct Horp as [->|(Hgs & Hrc & tp & Htp & ->)]; [by left|].
        right. split; [done|]. split; [done|].
        destruct (Z.eq_dec st i) as [->|Hne].
        - rewrite Ht in Htp. injection Htp as <-. exists t1.
          split; [apply track_at_store_eq; [lia|done]|]. by rewrite He.
        - exists tp. split; [|done]. by rewrite track_at_store_ne by lia. }
      split; [apply track_at_store_eq; [lia|done]|]. split.
      { split.
        - repeat split; try done. rewrite He. cbn. lia.
        - split; [intros [Hng|Hof]; done|]. left. by rewrite He. }
      intros j Hj. by rewrite track_at_store_ne by lia. }
  { (* the invariant holds at the start *)
    split; [done|]. split; [done|]. split; [done|].
    split; [done|]. split; [done|]. split; [by left|].
    intros g ml Hg. exists ml. split; [done|]. split; [lia|by left]. }
  { by apply track_indices_defined. }
  rewrite Hrun. cbn [mbind option_bind].
  destruct Hinv2 as (Hwf2 & Hg2 & Hm2 & Hst2 & Hsg2 & Hs2 & Hml2).
  destruct (wf_masterLength_at l2 sg Hwf2 Hsg) as [mlf Hmlf]. rewrite Hmlf.
  cbn [mbind option_bind].
  set (l' := if _ && _ then set_masterCurrIdx 0 l2 else l2).
  assert (Hl' : wf_looper l' /\ groupedTracks l' = groupedTracks l2 /\
                selectedTrack l' = selectedTrack l2 /\ selectedGroup l' = selectedGroup l2 /\
                state l' = state l2 /\ tracks l' = tracks l2 /\
                masterLength l' = masterLength l2).
  { subst l'. destruct (_ && _); [|done]. split; [by apply wf_set_masterCurrIdx|done]. }
  destruct Hl' as (Hwf' & Hg' & Hst' & Hsg' & Hs' & Htr' & Hml').
  exists l'. split; [reflexivity|]. split; [done|].
  split.
  { subst l'. destruct (_ && _); cbn [masterCurrIdx set_masterCurrIdx];
      [rewrite SAMPLE_LIMIT_value; lia|rewrite Hm2; exact Hm1]. }
  split; [congruence|]. split; [congruence|]. split; [congruence|].
  split.
  { rewrite Hs', <- Hs1. exact Hs2. }
  split.
  { intros idx t Ht.
    assert (HtL : track_at L idx = Some t) by (by rewrite (track_at_tracks_eq l L)).
    assert (Hidx : In idx track_indices).
    { apply track_indices_range. destruct (track_at_Some_range _ _ _ Ht) as [H0 Hlen].
      destruct Hwf as (Hl & _). rewrite Hl in Hlen. unfold NUM_TRACKS in *. lia. }
    destruct (Hin idx t Hidx HtL) as (t' & Ht' & Hkeep & Hsame & Hend).
    exists t'. split; [by rewrite (track_at_tracks_eq l2 l')|].
    split; [done|]. split.
    - intros H. apply Hsame. destruct H as [H|H]; [left|by right].
      by rewrite (grouped_frame l L).
    - destruct Hend as [He|(Hi & Hr & He & Hc)]; [by left|].
      right. rewrite <- Hs1. done. }
  intros g ml Hg.
  assert (HgL : masterLength_at L g = Some ml) by (by rewrite (masterLength_at_frame l L)).
  destruct (Hml2 g ml HgL) as (ml' & Hml2' & Hle & Hor).
  exists ml'. split; [by rewrite (masterLength_at_frame l2 l')|]. split; [done|].
  destruct Hor as [->|(Hgs & Hrc & t' & Ht' & ->)]; [by left|].
  right. split; [done|]. split; [by rewrite <- Hs1|]. exists t'. split; [|done].
  by rewrite (track_at_tracks_eq l2 l').
Qed.

(** X15. What the position engine never does.  On every looper with arrays
    of the declared sizes and a valid selected group, for every frame count
    and in every system state, [updateIndices] returns and leaves the group
    table and the selection as they are; of a track it changes nothing but
    the position and the end: audio, start, [maxIdx], state and repeat flag
    are kept, and the end never moves back; a track that is not a member of
    the selected group, or is empty (Off), is not touched at all; an end
    moves only for the selected track and only in the states in which the
    engine records; a master length never decreases, and it changes only for
    the selected group in those states. *)
Theorem updateIndices_keeps_takes (l : MasterLooper) (nframes : Z) :
  wf_looper l -> 0 <= selectedGroup l < NUM_GROUPS ->
  exists l',
    updateIndices l nframes = Some l' /\
    groupedTracks l' = groupedTracks l /\
    selectedTrack l' = selectedTrack l /\ selectedGroup l' = selectedGroup l /\
    (forall idx t, track_at l idx = Some t ->
       exists t', track_at l' idx = Some t' /\ engine_keeps_track t t' /\
         (grouped l (selectedGroup l) idx <> Some true \/
          trk_state t = TRACK_STATE_OFF -> t' = t) /\
         (idx <> selectedTrack l \/ engine_records (state l) = false ->
          endIdx t' = endIdx t)) /\
    (forall g ml, masterLength_at l g = Some ml ->
       exists ml', masterLength_at l' g = Some ml' /\ ml <= ml' /\
         (g <> selectedGroup l \/ engine_records (state l) = false -> ml' = ml)).
Proof.
  intros Hwf Hsg.
  destruct (updateIndices_effect l nframes Hwf Hsg)
    as (l' & Hrun & _ & _ & Hg & Hst & Hsg' & _ & Htr & Hml).
  exists l'. split; [done|]. split; [done|]. split; [done|]. split; [done|].
  split.
  - intros idx t Ht. destruct (Htr idx t Ht) as (t' & Ht' & Hkeep & Hsame & Hend).
    exists t'. split; [done|]. split; [done|]. split; [done|].
    intros Hno. destruct Hend as [He|(Hi & Hr & _)]; [done|].
    destruct Hno as [Hne|Hnr]; [done|]. rewrite Hr in Hnr. discriminate.
  - intros g ml Hgm. destruct (Hml g ml Hgm) as (ml' & Hml' & Hle & Hor).
    exists ml'. split; [done|]. split; [done|].
    intros Hno. destruct Hor as [He|(Hgs & Hr & _)]; [done|].
    destruct Hno as [Hne|Hnr]; [done|]. rewrite Hr in Hnr. discriminate.
Qed.

Lemma updateIndices_keeps_takes_witness :
  exists l',
    updateIndices (buffer_full_looper SYSTEM_STATE_RECORDING) 128 = Some l' /\
    groupedTracks l' = groupedTracks (buffer_full_looper SYSTEM_STATE_RECORDING) /\
    selectedTrack l' = 0 /\ selectedGroup l' = 1 /\
    (forall idx t, track_at (buffer_full_looper SYSTEM_STATE_RECORDING) idx = Some t ->
       exists t', track_at l' idx = Some t' /\ engine_keeps_track t t' /\
         (grouped (buffer_full_looper SYSTEM_STATE_RECORDING) 1 idx <> Some true \/
          trk_state t = TRACK_STATE_OFF -> t' = t) /\
         (idx <> 0 \/ engine_records SYSTEM_STATE_RECORDING = false ->
          endIdx t' = endIdx t)) /\
    (forall g ml, masterLength_at (buffer_full_looper SYSTEM_STATE_RECORDING) g = Some ml ->
       exists ml', masterLength_at l' g = Some ml' /\ ml <= ml' /\
         (g <> 1 \/ engine_records SYSTEM_STATE_RECORDING = false -> ml' = ml)).
Proof.
  apply (updateIndices_keeps_takes (buffer_full_looper SYSTEM_STATE_RECORDING) 128).
  - solve_wf.
  - vm_compute. split; [discriminate|reflexivity].
Defined.

(** X16. The position engine keeps the recordings inside the sample limit:
    when every track ends at or before [SAMPLE_LIMIT] and the master length
    of the selected group is at most [SAMPLE_LIMIT], the same holds after
    [updateIndices], for every frame count and in every system state. *)
Theorem updateIndices_within_sample_limit (l : MasterLooper) (nframes : Z) :
  wf_looper l -> 0 <= selectedGroup l < NUM_GROUPS ->
  (forall idx t, track_at l idx = Some t -> endIdx t <= SAMPLE_LIMIT) ->
  (forall ml, masterLength_at l (selectedGroup l) = Some ml -> ml <= SAMPLE_LIMIT) ->
  exists l',
    updateIndices l nframes = Some l' /\
    (forall idx t', track_at l' idx = Some t' -> endIdx t' <= SAMPLE_LIMIT) /\
    (forall ml', masterLength_at l' (selectedGroup l) = Some ml' -> ml' <= SAMPLE_LIMIT).
Proof.
  intros Hwf Hsg Hends Hmaster.
  destruct (updateIndices_effect l nframes Hwf Hsg)
    as (l' & Hrun & Hwf' & _ & _ & _ & _ & _ & Htr & Hml).
  assert (Hbound : forall idx t', track_at l' idx = Some t' -> endIdx t' <= SAMPLE_LIMIT).
  { intros idx t' Ht'.
    destruct (track_at_Some_range _ _ _ Ht') as [H0 Hlen].
    destruct Hwf' as (Hl' & _). rewrite Hl' in Hlen.
    destruct (wf_track_at l idx Hwf) as [t Ht]; [unfold NUM_TRACKS in *; lia|].
    destruct (Htr idx t Ht) as (t2 & Ht2 & _ & _ & Hend).
    rewrite Ht' in Ht2. injection Ht2 as <-.
    destruct Hend as [->|(_ & _ & -> & Hc)]; [by eapply Hends|done]. }
  exists l'. split; [done|]. split; [exact Hbound|].
  intros ml' Hml'.
  destruct (wf_masterLength_at l (selectedGroup l) Hwf Hsg) as [ml Hm].
  destruct (Hml _ ml Hm) as (ml2 & Hml2 & _ & Hor).
  rewrite Hml' in Hml2. injection Hml2 as <-.
  destruct Hor as [->|(_ & _ & t' & Ht' & ->)]; [by apply Hmaster|by eapply Hbound].
Qed.

Lemma updateIndices_within_sample_limit_witness :
  exists l',
    updateIndices (buffer_full_looper SYSTEM_STATE_RECORDING) 128 = Some l' /\
    (forall idx t', track_at l' idx = Some t' -> endIdx t' <= SAMPLE_LIMIT) /\
    (forall ml', masterLength_at l' 1 = Some ml' -> ml' <= SAMPLE_LIMIT).
Proof.
  apply (updateIndices_within_sample_limit (buffer_full_looper SYSTEM_STATE_RECORDING) 128).
  - solve_wf.
  - vm_compute. split; [discriminate|reflexivity].
  - intros idx t Ht.
    assert (Hidx : 0 <= idx < NUM_TRACKS).
    { destruct (track_at_Some_range _ _ _ Ht) as [H0 Hlen].
      change (length (tracks (buffer_full_looper SYSTEM_STATE_RECORDING)))
        with 16%nat in Hlen. unfold NUM_TRACKS. lia. }
    apply track_index_cases in Hidx.
    repeat (destruct Hidx as [Hidx|Hidx];
            [subst; cbn in Ht; injection Ht as <-; vm_compute; discriminate|]).
    subst; cbn in Ht; injection Ht as <-; vm_compute; discriminate.
  - intros ml Hml. cbn in Hml. injection Hml as <-. vm_compute. discriminate.
Defined.

Lemma updateIndices_master_min (l : MasterLooper) (nframes : Z) :
  masterCurrIdx (updateIndices_master l nframes)
  = Z.min (u32 (masterCurrIdx l + nframes)) SAMPLE_LIMIT.
Proof.
  unfold updateIndices_master. cbn [masterCurrIdx set_masterCurrIdx].
  destruct (Z.ltb_spec SAMPLE_LIMIT (u32 (masterCurrIdx l + nframes)));
    cbn [masterCurrIdx set_masterCurrIdx]; lia.
Qed.

(** The position engine in a state in which it does not record. *)
Lemma updateIndices_playback_engine (l : MasterLooper) (nframes ml : Z) :
  wf_looper l -> 0 <= selectedGroup l < NUM_GROUPS ->
  engine_records (state l) = false ->
  masterLength_at l (selectedGroup l) = Some ml ->
  let M := Z.min (u32 (masterCurrIdx l + nframes)) SAMPLE_LIMIT in
  exists l',
    updateIndices l nframes = Some l' /\
    state l' = state l /\ masterLength l' = masterLength l /\
    masterCurrIdx l' =
      (if SystemStates_eqb (state l) SYSTEM_STATE_PLAYBACK && (ml <? M) then 0 else M) /\
    forall idx t,
      grouped l (selectedGroup l) idx = Some true -> track_at l idx = Some t ->
      trk_state t <> TRACK_STATE_OFF ->
      track_at l' idx =
      Some (set_currIdx
              (if ml <? M then (if repeat t then startIdx t else 0)
               else if repeat t && (endIdx t <? u32 (currIdx t + nframes))
                    then startIdx t else u32 (currIdx t + nframes)) t).
Proof.
  intros Hwf Hsg Hnorec Hml M. unfold updateIndices.
  destruct (updateIndices_master_spec l nframes)
    as (Hm1 & (Hg1 & Hst1 & Hsg1 & Hs1 & Hml1) & Htr1 & Hwf1).
  specialize (Hwf1 Hwf).
  pose proof (updateIndices_master_min l nframes) as HM. fold M in HM.
  set (L := updateIndices_master l nframes) in *.
  set (sg := selectedGroup l) in *. set (st := selectedTrack l) in *.
  set (Inv := fun l0 : MasterLooper => wf_looper l0 /\ engine_frame L l0).
  set (Rt := fun (i : Z) (t t1 : Track) =>
    grouped L sg i = Some true -> trk_state t <> TRACK_STATE_OFF ->
    t1 = set_currIdx
           (if ml <? M then (if repeat t then startIdx t else 0)
            else if repeat t && (endIdx t <? u32 (currIdx t + nframes))
                 then startIdx t else u32 (currIdx t + nframes)) t).
  destruct (for_each_track_pointwise Inv Rt (updateIndices_body sg st nframes)
              track_indices NoDup_track_indices) with (l0 := L)
    as (l2 & Hrun & Hinv2 & Hin & Hout).
  { intros i l0 t Hi Hinv0 Ht.
    pose proof Hinv0 as (Hwf0 & Hm0 & Hg0 & Hst0 & Hsg0 & Hs0 & Hml0).
    apply track_indices_range in Hi.
    unfold updateIndices_body. rewrite (grouped_frame L l0) by done.
    destruct (wf_grouped L sg i Hwf1 Hsg Hi) as [[|] Hgi]; rewrite Hgi.
    2:{ exists l0, t. split; [done|]. split; [exact Hinv0|]. split; [done|].
        split; [|done]. intros Hc. rewrite Hgi in Hc. discriminate. }
    rewrite Ht. cbn [mbind option_bind].
    destruct (TrackState_eqb (trk_state t) TRACK_STATE_OFF) eqn:Hoff.
    { exists l0, t. split; [done|]. split; [exact Hinv0|]. split; [done|].
      split; [|done]. intros _ Hne. destruct (trk_state t); done. }
    assert (Hc : (st =? i) && (SystemStates_eqb (state l0) SYSTEM_STATE_CALIBRATION ||
                   SystemStates_eqb (state l0) SYSTEM_STATE_RECORDING) = false).
    { rewrite Hs0, Hs1. unfold engine_records in Hnorec. rewrite Hnorec.
      apply andb_false_r. }
    rewrite Hc. unfold updateIndices_play.
    rewrite (masterLength_at_frame L l0) by done.
    rewrite (masterLength_at_frame l L) by done. rewrite Hml.
    cbn [mbind option_bind]. rewrite Hm0, HM.
    assert (Hlen : (Z.to_nat i < length (tracks l0))%nat).
    { destruct Hwf0 as (-> & _). unfold NUM_TRACKS in *. lia. }
    eexists _, _. split; [reflexivity|].
    split; [split; [by apply wf_store_track|by repeat split]|].
    split; [apply track_at_store_eq; [lia|done]|].
    split; [|intros j Hj; by rewrite track_at_store_ne by lia].
    intros _ _. cbn [repeat endIdx currIdx startIdx set_currIdx].
    destruct (ml <? M), (repeat t) eqn:Hrep, (endIdx t <? u32 (currIdx t + nframes));
      cbn [andb repeat endIdx currIdx startIdx set_currIdx]; rewrite ?Hrep;
      reflexivity. }
  { split; [done|apply engine_frame_refl]. }
  { by apply track_indices_defined. }
  rewrite Hrun. cbn [mbind option_bind].
  destruct Hinv2 as (Hwf2 & Hm2 & Hg2 & Hst2 & Hsg2 & Hs2 & Hml2).
  rewrite (masterLength_at_frame L l2) by done.
  rewrite (masterLength_at_frame l L) by done. rewrite Hml.
  cbn [mbind option_bind]. rewrite Hs2, Hs1, Hm2, HM.
  eexists. split; [reflexivity|].
  split; [destruct (_ && _); cbn; congruence|].
  split; [destruct (_ && _); cbn; congruence|].
  split; [destruct (_ && _); cbn; congruence|].
  intros idx t Hgrp Ht Hne.
  assert (HtL : track_at L idx = Some t) by (by rewrite (track_at_tracks_eq l L)).
  assert (Hidx : In idx track_indices).
  { apply track_indices_range. destruct (track_at_Some_range _ _ _ Ht) as [H0 Hlen].
    destruct Hwf as (Hl & _). rewrite Hl in Hlen. unfold NUM_TRACKS in *. lia. }
  destruct (Hin idx t Hidx HtL) as (t' & Ht' & HR).
  rewrite (HR (eq_trans (grouped_frame l L _ _ Hg1) Hgrp) Hne) in Ht'.
  destruct (SystemStates_eqb _ _ && _); exact Ht'.
Qed.

(** X17. One run of the position engine in a state in which it does not
    record (Playback, Overdubbing, Passthrough).  Let [M] be the master
    index advanced by the frame count (modulo 2^32) and clamped to
    [SAMPLE_LIMIT], and [ml] the master length of the selected group.  The
    run returns and keeps the state and the master lengths.  When [M] has
    passed [ml], every member of the group that is not empty is put back on
    its start ([startIdx] when it repeats, 0 otherwise) and, in Playback,
    the master index restarts at 0.  Otherwise the master index is [M], a
    repeating member whose advanced position has passed its end is put back
    on [startIdx], and every other member is advanced by the frame count,
    past its end if need be. *)
Theorem updateIndices_playback_step (l : MasterLooper) (nframes ml : Z) :
  wf_looper l -> 0 <= selectedGroup l < NUM_GROUPS ->
  engine_records (state l) = false ->
  masterLength_at l (selectedGroup l) = Some ml ->
  let M := Z.min (u32 (masterCurrIdx l + nframes)) SAMPLE_LIMIT in
  exists l',
    updateIndices l nframes = Some l' /\
    state l' = state l /\ masterLength l' = masterLength l /\
    masterCurrIdx l' =
      (if SystemStates_eqb (state l) SYSTEM_STATE_PLAYBACK && (ml <? M) then 0 else M) /\
    forall idx t,
      grouped l (selectedGroup l) idx = Some true -> track_at l idx = Some t ->
      trk_state t <> TRACK_STATE_OFF ->
      track_at l' idx =
      Some (set_currIdx
              (if ml <? M then (if repeat t then startIdx t else 0)
               else if repeat t && (endIdx t <? u32 (currIdx t + nframes))
                    then startIdx t else u32 (currIdx t + nframes)) t).
Proof.
  intros Hwf Hsg Hrec Hml. exact (updateIndices_playback_engine l nframes ml Hwf Hsg Hrec Hml).
Qed.

Lemma updateIndices_playback_step_witness :
  exists l',
    updateIndices playing_looper 128 = Some l' /\
    state l' = state playing_looper /\ masterLength l' = masterLength playing_looper /\
    masterCurrIdx l' =
      (if SystemStates_eqb (state playing_looper) SYSTEM_STATE_PLAYBACK && (256 <? 128)
       then 0 else 128) /\
    forall idx t,
      grouped playing_looper 1 idx = Some true -> track_at playing_looper idx = Some t ->
      trk_state t <> TRACK_STATE_OFF ->
      track_at l' idx =
      Some (set_currIdx
              (if 256 <? 128 then (if repeat t then startIdx t else 0)
               else if repeat t && (endIdx t <? u32 (currIdx t + 128))
                    then startIdx t else u32 (currIdx t + 128)) t).
Proof.
  apply (updateIndices_playback_step playing_looper 128 256).
  - solve_wf.
  - vm_compute. split; [discriminate|reflexivity].
  - reflexivity.
  - reflexivity.
Defined.

(** * Further properties of the mixdown *)

(** The track sums are defined on every looper with arrays of the declared
    sizes. *)
Lemma mix_sums_defined (l : MasterLooper) (s : Z) :
  wf_looper l -> 0 <= selectedGroup l < NUM_GROUPS ->
  exists sums, mix_sums l s = Some sums.
Proof.
  intros Hwf Hsg. unfold mix_sums.
  destruct (for_each_track_inv (fun _ => True)
              (doMixDown_track l (selectedGroup l) s) track_indices (f32_zero, f32_zero))
    as (sums & Hrun & _); [done| |by exists sums].
  intros idx [sL sR] Hin _. apply track_indices_range in Hin.
  unfold doMixDown_track.
  destruct (wf_grouped l (selectedGroup l) idx Hwf Hsg Hin) as [[|] ->]; [|by eexists].
  destruct (wf_track_at l idx Hwf Hin) as [t ->]. cbn [mbind option_bind].
  destruct (_ && _); [|by eexists]. destruct (_ <=? _); by eexists.
Qed.

Lemma mix_sums_silent (l : MasterLooper) (s : Z) :
  wf_looper l -> 0 <= selectedGroup l < NUM_GROUPS ->
  (forall idx t, grouped l (selectedGroup l) idx = Some true -> track_at l idx = Some t ->
     trk_state t = TRACK_STATE_OFF \/ trk_state t = TRACK_STATE_MUTE \/
     currIdx t < startIdx t \/ endIdx t <= currIdx t) ->
  mix_sums l s = Some (f32_zero, f32_zero).
Proof.
  intros Hwf Hsg Hsil. unfold mix_sums.
  destruct (for_each_track_inv (fun sums => sums = (f32_zero, f32_zero))
              (doMixDown_track l (selectedGroup l) s) track_indices (f32_zero, f32_zero))
    as (sums & Hrun & ->); [done| |done].
  intros idx sums Hin ->. apply track_indices_range in Hin.
  exists (f32_zero, f32_zero). split; [|done].
  destruct (wf_grouped l (selectedGroup l) idx Hwf Hsg Hin) as [[|] Hg].
  - destruct (wf_track_at l idx Hwf Hin) as [t Ht].
    apply (doMixDown_track_skips l _ s idx t); try done. by eapply Hsil.
  - by apply doMixDown_track_null.
Qed.

(** X18. Tracks that do not play are not heard.  When every member of the
    selected group is empty (Off), muted or positioned outside its take
    (before [startIdx], or at or past [endIdx]), [doMixDown] with a frame
    count below 256 returns and every output sample is the live input alone
    (added to a zero sum through the limiter, or the zero sum itself when
    the input buffer is NULL); the mixdown buffers are untouched from the
    frame count on. *)
Theorem doMixDown_silent_members (l : MasterLooper)
    (inBufferLeft inBufferRight : option buffer) (mixL mixR : buffer) (nframes : Z) :
  wf_looper l -> 0 <= selectedGroup l < NUM_GROUPS -> 0 <= nframes <= 255 ->
  (forall idx t, grouped l (selectedGroup l) idx = Some true -> track_at l idx = Some t ->
     trk_state t = TRACK_STATE_OFF \/ trk_state t = TRACK_STATE_MUTE \/
     currIdx t < startIdx t \/ endIdx t <= currIdx t) ->
  exists mixL' mixR',
    doMixDown l inBufferLeft inBufferRight mixL mixR nframes = Some (mixL', mixR') /\
    (forall s, 0 <= s < nframes ->
       mixL' s = add_input inBufferLeft s f32_zero /\
       mixR' s = add_input inBufferRight s f32_zero) /\
    (forall j, ~ (0 <= j < nframes) -> mixL' j = mixL j /\ mixR' j = mixR j).
Proof.
  intros Hwf Hsg Hn Hsil.
  destruct (doMixDown_spec l inBufferLeft inBufferRight mixL mixR nframes Hn)
    as (mL & mR & Hrun & Hin & Hout).
  { intros s _. by apply mix_sums_defined. }
  exists mL, mR. split; [done|]. split; [|done].
  intros s Hs. destruct (Hin s Hs) as (sums & Hsums & HL & HR).
  rewrite (mix_sums_silent l s Hwf Hsg Hsil) in Hsums. injection Hsums as <-.
  done.
Qed.

Lemma doMixDown_silent_members_witness :
  exists mixL' mixR',
    doMixDown full_group_looper (Some (pulse_at 3)) None silence silence 128
      = Some (mixL', mixR') /\
    (forall s, 0 <= s < 128 ->
       mixL' s = add_input (Some (pulse_at 3)) s f32_zero /\
       mixR' s = add_input None s f32_zero) /\
    (forall j, ~ (0 <= j < 128) -> mixL' j = silence j /\ mixR' j = silence j).
Proof.
  apply (doMixDown_silent_members full_group_looper).
  - solve_wf.
  - vm_compute. split; [discriminate|reflexivity].
  - lia.
  - intros idx t _ Ht. left.
    assert (Hidx : 0 <= idx < NUM_TRACKS).
    { destruct (track_at_Some_range _ _ _ Ht) as [H0 Hlen].
      change (length (tracks full_group_looper)) with 16%nat in Hlen.
      unfold NUM_TRACKS. lia. }
    apply track_index_cases in Hidx.
    repeat (destruct Hidx as [Hidx|Hidx];
            [subst; cbn in Ht; injection Ht as <-; reflexivity|]).
    subst; cbn in Ht; injection Ht as <-; reflexivity.
Defined.

(** X19. The sample counter of [doMixDown] is 8 bits wide: with a frame
    count of 256 or more it never reaches the count, and the call does not
    return, whatever the looper and the buffers (no amount of fuel gives a
    result). *)
Theorem doMixDown_needs_less_than_256_frames (fuel : nat) (l : MasterLooper)
    (inBufferLeft inBufferRight : option buffer) (mixL mixR : buffer) (nframes : Z) :
  256 <= nframes ->
  doMixDown_fuel fuel l inBufferLeft inBufferRight mixL mixR nframes = None.
Proof.
  intros Hn. unfold doMixDown_fuel. apply for_u8_diverges; lia.
Qed.

Lemma doMixDown_needs_less_than_256_frames_witness :
  doMixDown_fuel 1000 playing_looper (Some silence) (Some silence) silence silence 256
  = None.
Proof.
  apply (doMixDown_needs_less_than_256_frames 1000 playing_looper).
  lia.
Defined.

(** * Further properties of the process cycle *)

















(** ** A recording over several cycles *)







(** ** Recording a take and playing it back *)













(** * The diagnostic timers *)

Lemma timer_index (index : Z) :
  0 <= index < TIMER_COUNT -> u8 index = index /\ (TIMER_COUNT <=? index) = false.
Proof.
  intros H. unfold TIMER_COUNT in *. split; [apply u8_small; lia|].
  apply Z.leb_gt. lia.
Qed.

(** X25. [stopTimer] on a started timer whose sample index is inside the
    table: the call returns; the timer is stopped; the elapsed time since
    [startTimer] is stored at the sample index, and it is the difference of
    the two nanosecond readings modulo one second, so it lies between 0 and
    999999999; the maximum is the larger of the old maximum and the new
    sample; the sample index is advanced by one; the other timers are not
    touched. *)
Theorem stopTimer_records_elapsed_time (now index : Z) (timers : list TimerConstruct)
    (t : TimerConstruct) :
  0 <= index < TIMER_COUNT -> timer_at timers index = Some t ->
  started t = true ->
  0 <= differencesIndex t < MAX_TIME_SAMPLES ->
  length (time_differences t) = Z.to_nat MAX_TIME_SAMPLES ->
  nanoseconds (start_time t) -> nanoseconds now ->
  exists timers' t',
    stopTimer now index timers = Some timers' /\
    timer_at timers' index = Some t' /\
    started t' = false /\
    time_differences t' !! Z.to_nat (differencesIndex t)
      = Some ((now - start_time t) mod 1000000000) /\
    nanoseconds ((now - start_time t) mod 1000000000) /\
    time_differenceMax t' = Z.max (time_differenceMax t) ((now - start_time t) mod 1000000000) /\
    differencesIndex t' = differencesIndex t + 1 /\
    length (time_differences t') = Z.to_nat MAX_TIME_SAMPLES /\
    (forall j, 0 <= j -> j <> index -> timer_at timers' j = timer_at timers j).
Proof.
  intros Hidx Ht Hstarted Hdi Hlen Hs Hnow.
  destruct (timer_index index Hidx) as [Hu Hc].
  unfold stopTimer. rewrite Hu, Hc, Ht. cbn [mbind option_bind].
  rewrite Hstarted. cbn [negb].
  assert (Hrange : (differencesIndex t <? 0) || (MAX_TIME_SAMPLES <=? differencesIndex t)
                   = false).
  { destruct (Z.ltb_spec (differencesIndex t) 0),
             (Z.leb_spec MAX_TIME_SAMPLES (differencesIndex t)); first [lia|reflexivity]. }
  rewrite Hrange.
  assert (Hnext : (MAX_TIME_SAMPLES <? differencesIndex t + 1) = false)
    by (apply Z.ltb_ge; lia).
  rewrite Hnext.
  assert (Hdiff : (if now - start_time t <? 0 then now - start_time t + 1000000000
                   else now - start_time t) = (now - start_time t) mod 1000000000).
  { unfold nanoseconds in *.
    destruct (Z.ltb_spec (now - start_time t) 0).
    - apply (Z.mod_unique_pos _ _ (-1)); lia.
    - symmetry. apply Z.mod_small. lia. }
  rewrite Hdiff.
  eexists _, _. split; [reflexivity|].
  assert (Hin : (Z.to_nat index < length timers)%nat).
  { apply lookup_lt_Some in Ht. exact Ht. }
  split; [unfold timer_at; by apply list_lookup_insert_eq|].
  cbn [started time_differences time_differenceMax differencesIndex].
  split; [reflexivity|].
  split.
  { apply list_lookup_insert_eq. rewrite Hlen. unfold MAX_TIME_SAMPLES in *. lia. }
  split; [apply Z.mod_pos_bound; lia|].
  split.
  { destruct (Z.ltb_spec (time_differenceMax t) ((now - start_time t) mod 1000000000)); lia. }
  split; [reflexivity|].
  split; [by rewrite length_insert|].
  intros j Hj Hne. unfold timer_at. apply list_lookup_insert_ne. lia.
Qed.

Lemma stopTimer_records_elapsed_time_witness :
  exists timers' t',
    stopTimer 5 2 running_timers = Some timers' /\
    timer_at timers' 2 = Some t' /\
    started t' = false /\
    time_differences t' !! Z.to_nat 0 = Some ((5 - 999999990) mod 1000000000) /\
    nanoseconds ((5 - 999999990) mod 1000000000) /\
    time_differenceMax t' = Z.max 0 ((5 - 999999990) mod 1000000000) /\
    differencesIndex t' = 0 + 1 /\
    length (time_differences t') = Z.to_nat MAX_TIME_SAMPLES /\
    (forall j, 0 <= j -> j <> 2 -> timer_at timers' j = timer_at running_timers j).
Proof.
  apply (stopTimer_records_elapsed_time 5 2 running_timers running_timer);
    first [ reflexivity | vm_compute; split; [discriminate|reflexivity] ].
Defined.

(** Measurements on a timer whose sample index leaves room for them. *)
Lemma measurements_advance (index : Z) (clock : list (Z * Z)) :
  0 <= index < TIMER_COUNT ->
  forall (timers : list TimerConstruct) (t : TimerConstruct),
    timer_at timers index = Some t ->
    0 <= differencesIndex t ->
    differencesIndex t + Z.of_nat (length clock) <= MAX_TIME_SAMPLES ->
    length (time_differences t) = Z.to_nat MAX_TIME_SAMPLES ->
    exists timers' t',
      measurements index clock timers = Some timers' /\
      timer_at timers' index = Some t' /\
      differencesIndex t' = differencesIndex t + Z.of_nat (length clock) /\
      length (time_differences t') = Z.to_nat MAX_TIME_SAMPLES.
Proof.
  intros Hidx. destruct (timer_index index Hidx) as [Hu Hc].
  induction clock as [|p clock IH]; intros timers t Ht Hd0 Hroom Hlen.
  - exists timers, t. cbn [measurements length]. repeat split; try done. lia.
  - cbn [measurements length] in *.
    assert (Hin : (Z.to_nat index < length timers)%nat) by (by apply lookup_lt_Some in Ht).
    unfold measure, startTimer. rewrite Hu, Hc, Ht. cbn [mbind option_bind].
    unfold stopTimer. rewrite Hu, Hc. unfold timer_at at 1.
    rewrite list_lookup_insert_eq by done. cbn [mbind option_bind started negb
      differencesIndex time_differences start_time time_differenceMax].
    assert (Hrange : (differencesIndex t <? 0) || (MAX_TIME_SAMPLES <=? differencesIndex t)
                     = false).
    { destruct (Z.ltb_spec (differencesIndex t) 0),
               (Z.leb_spec MAX_TIME_SAMPLES (differencesIndex t)); first [lia|reflexivity]. }
    rewrite Hrange.
    assert (Hnext : (MAX_TIME_SAMPLES <? differencesIndex t + 1) = false)
      by (apply Z.ltb_ge; lia).
    rewrite Hnext. cbn [mbind option_bind]. rewrite list_insert_insert_eq.
    match goal with
    | |- context [measurements index clock (<[_ := ?t1]> timers)] =>
        destruct (IH (<[Z.to_nat index := t1]> timers) t1)
          as (timers' & t' & Hrun & Ht' & Hd' & Hl')
    end.
    + unfold timer_at. by apply list_lookup_insert_eq.
    + cbn [differencesIndex]. lia.
    + cbn [differencesIndex]. lia.
    + cbn [time_differences]. by rewrite length_insert.
    + exists timers', t'. split; [exact Hrun|]. split; [exact Ht'|].
      split; [|exact Hl']. rewrite Hd'. cbn [differencesIndex]. lia.
Qed.

(** X26. The table of a timer holds ten samples but its sample index is
    reset only when it has passed ten: from the initial table (and from
    the table [printTimers] leaves) ten measurements on a timer succeed,
    whatever the clock readings, the sample index is then 10, and the next
    [stopTimer] on the started timer writes outside [time_differences]:
    every further measurement is undefined. *)
Theorem stopTimer_eleventh_sample_overruns (index : Z) (clock : list (Z * Z)) :
  0 <= index < TIMER_COUNT -> length clock = 10%nat ->
  exists timers' t',
    measurements index clock zero_timers = Some timers' /\
    timer_at timers' index = Some t' /\
    differencesIndex t' = MAX_TIME_SAMPLES /\
    forall p, measure index p timers' = None.
Proof.
  intros Hidx Hlen.
  destruct (timer_index index Hidx) as [Hu Hc].
  assert (Hz : timer_at zero_timers index = Some zero_timer).
  { unfold timer_at, zero_timers. apply lookup_replicate_2.
    unfold TIMER_COUNT in *. lia. }
  destruct (measurements_advance index clock Hidx zero_timers zero_timer Hz)
    as (timers' & t' & Hrun & Ht' & Hd' & Hl').
  { cbn. lia. }
  { rewrite Hlen. cbn. unfold MAX_TIME_SAMPLES. lia. }
  { reflexivity. }
  exists timers', t'. split; [exact Hrun|]. split; [exact Ht'|].
  rewrite Hlen in Hd'. cbn in Hd'.
  split; [exact Hd'|].
  intros p. unfold measure, startTimer. rewrite Hu, Hc, Ht'. cbn [mbind option_bind].
  assert (Hin : (Z.to_nat index < length timers')%nat) by (by apply lookup_lt_Some in Ht').
  unfold stopTimer. rewrite Hu, Hc. unfold timer_at.
  rewrite list_lookup_insert_eq by done.
  cbn [mbind option_bind started negb differencesIndex]. rewrite Hd'. reflexivity.
Qed.

Lemma stopTimer_eleventh_sample_overruns_witness :
  exists timers' t',
    measurements 2 ten_readings zero_timers = Some timers' /\
    timer_at timers' 2 = Some t' /\
    differencesIndex t' = MAX_TIME_SAMPLES /\
    forall p, measure 2 p timers' = None.
Proof.
  apply (stopTimer_eleventh_sample_overruns 2 ten_readings).
  - vm_compute. split; [discriminate|reflexivity].
  - reflexivity.
Defined.

(** * The per-track index handlers of track_manager.c *)

Lemma track_ptr_store (tracks_ : list (option TrackManager.Track)) (track : Z)
    (t v : TrackManager.Track) :
  TrackManager.track_ptr tracks_ track = Some t ->
  TrackManager.track_ptr (TrackManager.store tracks_ track v) track = Some v /\
  (forall j, j <> track ->
     TrackManager.track_ptr (TrackManager.store tracks_ track v) j
     = TrackManager.track_ptr tracks_ j).
Proof.
  unfold TrackManager.track_ptr, TrackManager.store.
  destruct (Z.ltb_spec track 0); [discriminate|].
  destruct (tracks_ !! Z.to_nat track) as [[t0|]|] eqn:E; try discriminate.
  intros _. split.
  - rewrite list_lookup_insert_eq; [done|]. by eapply lookup_lt_Some.
  - intros j Hj. destruct (Z.ltb_spec j 0); [done|].
    rewrite list_lookup_insert_ne by lia. done.
Qed.

(** X27. [UpdateIndexPlay] keeps the play position inside the track buffer.
    On a track whose entry of [tracks_] is a track (inside the array and not
    NULL) the call returns and changes nothing but the position of that
    track, which afterwards is not negative and, for a
    positive [max_track_length_], below it, for every frame count: the
    position is advanced by the frame count when the advanced position
    (reduced modulo 2^32) is below the buffer length, and is put back to 0
    otherwise, without keeping the remainder. *)
Theorem UpdateIndexPlay_stays_inside_buffer (max_track_length_ track nframes : Z)
    (tracks_ : list (option TrackManager.Track)) (t : TrackManager.Track) :
  TrackManager.track_ptr tracks_ track = Some t ->
  exists tracks' t',
    TrackManager.UpdateIndexPlay max_track_length_ track nframes tracks_ = Some tracks' /\
    TrackManager.track_ptr tracks' track = Some t' /\
    (forall j, j <> track ->
       TrackManager.track_ptr tracks' j = TrackManager.track_ptr tracks_ j) /\
    t' = TrackManager.set_currIdx (TrackManager.currIdx t') t /\
    0 <= TrackManager.currIdx t' /\
    (0 < max_track_length_ -> TrackManager.currIdx t' < max_track_length_) /\
    (0 <= TrackManager.currIdx t -> 0 <= nframes ->
     TrackManager.currIdx t + nframes < 4294967296 ->
     TrackManager.currIdx t' =
     if TrackManager.currIdx t + nframes <? max_track_length_
     then TrackManager.currIdx t + nframes else 0).
Proof.
  intros Ht. unfold TrackManager.UpdateIndexPlay. rewrite Ht. cbn [mbind option_bind].
  pose proof (u32_range (TrackManager.currIdx t + nframes)) as Hu.
  destruct (Z.ltb_spec (u32 (TrackManager.currIdx t + nframes)) max_track_length_) as [Hlt|Hge].
  - destruct (track_ptr_store tracks_ track t
                (TrackManager.set_currIdx (u32 (TrackManager.currIdx t + nframes)) t) Ht)
      as [Hnew Hoth].
    eexists _, _. split; [reflexivity|]. split; [exact Hnew|]. split; [exact Hoth|].
    cbn [TrackManager.currIdx TrackManager.set_currIdx].
    split; [reflexivity|]. split; [lia|]. split; [done|].
    intros H0 Hn Hno. rewrite u32_small in * by lia.
    destruct (Z.ltb_spec (TrackManager.currIdx t + nframes) max_track_length_); lia.
  - destruct (track_ptr_store tracks_ track t (TrackManager.set_currIdx 0 t) Ht)
      as [Hnew Hoth].
    eexists _, _. split; [reflexivity|]. split; [exact Hnew|]. split; [exact Hoth|].
    cbn [TrackManager.currIdx TrackManager.set_currIdx].
    split; [reflexivity|]. split; [lia|]. split; [done|].
    intros H0 Hn Hno. rewrite u32_small in * by lia.
    destruct (Z.ltb_spec (TrackManager.currIdx t + nframes) max_track_length_); lia.
Qed.

Lemma UpdateIndexPlay_stays_inside_buffer_witness :
  exists tracks' t',
    TrackManager.UpdateIndexPlay 1000 0 900 TrackManager.example_tracks = Some tracks' /\
    TrackManager.track_ptr tracks' 0 = Some t' /\
    (forall j, j <> 0 ->
       TrackManager.track_ptr tracks' j
       = TrackManager.track_ptr TrackManager.example_tracks j) /\
    t' = TrackManager.set_currIdx (TrackManager.currIdx t') TrackManager.example_track /\
    0 <= TrackManager.currIdx t' /\
    (0 < 1000 -> TrackManager.currIdx t' < 1000) /\
    (0 <= 200 -> 0 <= 900 -> 200 + 900 < 4294967296 ->
     TrackManager.currIdx t' = if 200 + 900 <? 1000 then 200 + 900 else 0).
Proof.
  apply (UpdateIndexPlay_stays_inside_buffer 1000 0 900 TrackManager.example_tracks
           TrackManager.example_track).
  reflexivity.
Defined.

(** X28. [UpdateIndexRepeat] keeps a repeating track inside its take: on a
    track whose position is in [startIdx, endIdx) and with a frame count
    that does not wrap the position, the call returns and changes nothing
    but the position of that track, which is advanced by the frame count
    when that stays below [endIdx] and is put back on [startIdx] otherwise;
    so the position is again in [startIdx, endIdx). *)
Theorem UpdateIndexRepeat_stays_inside_take (track nframes : Z)
    (tracks_ : list (option TrackManager.Track)) (t : TrackManager.Track) :
  TrackManager.track_ptr tracks_ track = Some t ->
  0 <= TrackManager.startIdx t <= TrackManager.currIdx t ->
  TrackManager.currIdx t < TrackManager.endIdx t ->
  0 <= nframes -> TrackManager.currIdx t + nframes < 4294967296 ->
  exists tracks' t',
    TrackManager.UpdateIndexRepeat track nframes tracks_ = Some tracks' /\
    TrackManager.track_ptr tracks' track = Some t' /\
    (forall j, j <> track ->
       TrackManager.track_ptr tracks' j = TrackManager.track_ptr tracks_ j) /\
    t' = TrackManager.set_currIdx (TrackManager.currIdx t') t /\
    TrackManager.currIdx t' =
      (if TrackManager.currIdx t + nframes <? TrackManager.endIdx t
       then TrackManager.currIdx t + nframes else TrackManager.startIdx t) /\
    TrackManager.startIdx t <= TrackManager.currIdx t' < TrackManager.endIdx t.
Proof.
  intros Ht Hs He Hn Hno. unfold TrackManager.UpdateIndexRepeat.
  rewrite Ht. cbn [mbind option_bind]. rewrite u32_small by lia.
  destruct (Z.ltb_spec (TrackManager.currIdx t + nframes) (TrackManager.endIdx t)).
  - destruct (track_ptr_store tracks_ track t
                (TrackManager.set_currIdx (TrackManager.currIdx t + nframes) t) Ht)
      as [Hnew Hoth].
    eexists _, _. split; [reflexivity|]. split; [exact Hnew|]. split; [exact Hoth|].
    cbn [TrackManager.currIdx TrackManager.set_currIdx].
    split; [reflexivity|]. split; [reflexivity|]. lia.
  - destruct (track_ptr_store tracks_ track t
                (TrackManager.set_currIdx (TrackManager.startIdx t) t) Ht)
      as [Hnew Hoth].
    eexists _, _. split; [reflexivity|]. split; [exact Hnew|]. split; [exact Hoth|].
    cbn [TrackManager.currIdx TrackManager.set_currIdx].
    split; [reflexivity|]. split; [reflexivity|]. lia.
Qed.

Lemma UpdateIndexRepeat_stays_inside_take_witness :
  exists tracks' t',
    TrackManager.UpdateIndexRepeat 0 128 TrackManager.example_tracks = Some tracks' /\
    TrackManager.track_ptr tracks' 0 = Some t' /\
    (forall j, j <> 0 ->
       TrackManager.track_ptr tracks' j
       = TrackManager.track_ptr TrackManager.example_tracks j) /\
    t' = TrackManager.set_currIdx (TrackManager.currIdx t') TrackManager.example_track /\
    TrackManager.currIdx t' = (if 200 + 128 <? 256 then 200 + 128 else 0) /\
    0 <= TrackManager.currIdx t' < 256.
Proof.
  apply (UpdateIndexRepeat_stays_inside_take 0 128 TrackManager.example_tracks
           TrackManager.example_track);
    first [ reflexivity | lia | vm_compute; split; discriminate ].
Defined.
